(** * Mussels: the resolver, batch planner, toolchain probe, build driver and
      cookbook configuration of [mussels/mussels.py], embedded in Rocq.

    The Python class [Mussels] keeps its catalog in dictionaries that its
    methods mutate in place, and its methods raise exceptions.  The embedding
    therefore threads one explicit store ([world]) through every method and
    gives every method an [outcome]: a normal return, a raised exception (with
    the store as it was when the exception left the method), or divergence. *)

From Stdlib Require Import String Ascii List Bool Arith Lia.
From stdpp Require Import base option list gmap strings.
Import ListNotations.

Local Open Scope string_scope.
Local Open Scope list_scope.

(** ** Strings and references *)

Module Ref.

(** [c in s] for a one-character [c]. *)
Fixpoint contains (c : ascii) (s : string) : bool :=
  match s with
  | EmptyString => false
  | String a r => if Ascii.eqb a c then true else contains c r
  end.

(** [s.split(c, 1)]: the text before the first [c] and the text after it. *)
Fixpoint split_first (c : ascii) (s : string) : option (string * string) :=
  match s with
  | EmptyString => None
  | String a r =>
      if Ascii.eqb a c then Some (EmptyString, r)
      else match split_first c r with
           | Some (l, r') => Some (String a l, r')
           | None => None
           end
  end.

(** Drop the leading occurrences of [c]. *)
Fixpoint lstrip (c : ascii) (s : string) : string :=
  match s with
  | String a r => if Ascii.eqb a c then lstrip c r else s
  | EmptyString => EmptyString
  end.

Record t := { cookbook : string; name : string; constraint : option string }.

(** Modelled from the spec: the parser inside [get_item_version]
    ([mussels/utils/versions.py] is not part of the sources).  Section 3
    gives the reference syntax [name], [name==version], [cookbook:name],
    [cookbook:name==version]; [build_recipe] itself passes the one-[=]
    spelling [cookbook:name=version] (line 556), so a version is whatever
    follows the first run of [=]. *)
Definition parse (reference : string) : t :=
  let '(cb, rest) :=
    match split_first ":" reference with
    | Some (cb, rest) => (cb, rest)
    | None => (EmptyString, reference)
    end in
  match split_first "=" rest with
  | Some (n, v) => {| cookbook := cb; name := n; constraint := Some (lstrip "=" v) |}
  | None => {| cookbook := cb; name := rest; constraint := None |}
  end.

End Ref.

(** ** The data model *)

(** One element of a version index: [{"version": ..., "cookbooks": [...]}]. *)
Record entry := { version : string; cookbooks_of : list string }.

(** [sorted_recipes] and [sorted_tools]: item name to its entries, highest
    version first.  Python dictionaries iterate in insertion order, and
    [__get_recipe_version] iterates over [sorted_recipes], so the index is an
    association list. *)
Definition index := list (string * list entry).

(** What [get_item_version] returns: the dictionary
    [{"name": .., "version": .., "cookbook": ..}]. *)
Record nvc := { nvc_name : string; nvc_version : string; nvc_cookbook : string }.

(** The fields of a recipe class that [mussels.py] reads. *)
Record recipe_class := { dependencies : list string; required_tools : list string }.

(** A tool class: instantiating it and calling [detect()] probes the host; the
    answer on this host is the field [detect]. *)
Record tool_class := { detect : bool }.

(** Values stored under a cookbook in [cookbooks.json]. *)
Inductive jval :=
| JBool (b : bool)
| JStr (s : string)
| JSorted (i : index).

(** Python truthiness of such a value. *)
Definition truthy (v : jval) : bool :=
  match v with
  | JBool b => b
  | JStr s => negb (String.eqb s "")
  | JSorted i => match i with [] => false | _ => true end
  end.

(** The [version] argument of [__build_recipe]: annotated [str], but
    [build_recipe] passes the index entry [self.sorted_recipes[recipe][0]]. *)
Inductive pyversion :=
| VStr (s : string)
| VEntry (e : entry).

(** A build result: [{"name", "version", "success"}] and, on the paths that
    set it, ["time elapsed"] (a float; only its presence is modelled). *)
Record build_result :=
  { r_name : string; r_version : pyversion; r_success : bool; r_time_elapsed : bool }.

(** Keys of the dictionaries, as they appear in a [KeyError]. *)
Inductive pykey :=
| KStr (s : string)
| KInt (n : nat).

Inductive exn :=
| KeyError (k : pykey)
| IndexError
| TypeError (what : string)
| CircularDependency (chain : list string)       (* ValueError, line 376 *)
| CircularBatches                                 (* ValueError, line 428 *)
| UnsatisfiableReference (reference : string)    (* raised by get_item_version *)
| NoToolVersion (tool : string)                  (* Exception, line 359 *)
| SystemExit (code : nat).

(** Records handed to [self.logger]. *)
Inductive log_record :=
| LogUntrusted (recipe : string) (cookbook : string)   (* lines 267-272 *)
| LogUntrustedRemedy (cookbook : string) (url : jval)  (* lines 273-294 *)
| LogAttempt (recipe : string)                         (* line 299 *)
| LogFailedToFind (recipe : string)                    (* lines 306, 313 *)
| LogToolFound (tool version : string)
| LogToolNotFound (tool version : string)
| LogCheckingAlternatives
| LogAlternativeFound (tool version : string)
| LogAlternativeNotFound (tool version : string)
| LogMissingTools
| LogMissingTool (version : string)
| LogToolchain (names : list string)
| LogDryRunBanner
| LogDryRunLine (idx i j : nat) (recipe : string)
| LogDryRunTool (t : nvc)
| LogSkipping (recipe : string)                        (* line 618 *)
| LogSummary (r : build_result)                        (* lines 470, 474 *)
| LogCantTrust (cookbook : string)                     (* line 862 *)
| LogNowTrusted (cookbook : string)                    (* line 866 *)
| LogStoreFailed (filename : string)                   (* lines 138, 147 *)
| LogEmptyCookbook (cookbook : string)                 (* line 199 *)
| LogLocalLoadFailed                                   (* line 233 *)
| LogNoRecipes.                                        (* lines 241-247 *)

(** What [read.recipes] and [read.tools] find in one cookbook directory:
    item name to version to class ([mussels/utils/read.py] is not part of the
    sources; its result is data of the disk). *)
Record cookbook_dir := {
  dir_recipes : gmap string (gmap string recipe_class);
  dir_tools : gmap string (gmap string tool_class)
}.

(** The part of the host that outlives a process. *)
Record disk := {
  (** the JSON files of [<data_dir>/config], by name (the cookbook maps) *)
  config_files : gmap string (gmap string (gmap string jval));
  (** whether the configuration directory can be created and written *)
  config_writable : bool;
  (** the directories under [<data_dir>/cookbooks], if that directory exists *)
  bookshelf : option (list (string * cookbook_dir));
  (** [<cwd>/mussels], if it exists *)
  local_dir : option cookbook_dir
}.

Record world := {
  (** [self.cookbooks], a [defaultdict(dict)] *)
  cookbooks : gmap string (gmap string jval);
  (** [self.recipes]: name, version, cookbook to recipe class *)
  recipes : gmap string (gmap string (gmap string recipe_class));
  sorted_recipes : index;
  (** [self.tools] *)
  tools : gmap string (gmap string (gmap string tool_class));
  sorted_tools : index;
  (** everything logged so far, oldest first *)
  logger : list log_record;
  (** the [detect()] calls made so far, oldest first: (name, version, cookbook) *)
  probes : list (string * string * string);
  (** the caller's [results] list, which [build_recipe] appends to in place *)
  results : list build_result;
  host : disk
}.

(** ** Outcomes and the method monad *)

Inductive outcome (A : Type) :=
| Ok (a : A) (w : world)
| Raise (e : exn) (w : world)
| Diverge.
Arguments Ok {A} a w.
Arguments Raise {A} e w.
Arguments Diverge {A}.

Definition M (A : Type) : Type := world -> outcome A.

Definition ret {A} (a : A) : M A := fun w => Ok a w.
Definition bind {A B} (m : M A) (k : A -> M B) : M B :=
  fun w => match m w with
           | Ok a w' => k a w'
           | Raise e w' => Raise e w'
           | Diverge => Diverge
           end.
Definition raise {A} (e : exn) : M A := fun w => Raise e w.
Definition get : M world := fun w => Ok w w.
Definition put (w : world) : M unit := fun _ => Ok tt w.

Declare Scope py_scope.
Delimit Scope py_scope with py.
Notation "x <- m ;; k" := (bind m (fun x => k))
  (at level 100, m at next level, right associativity) : py_scope.
Notation "m ;;; k" := (bind m (fun _ => k))
  (at level 100, right associativity) : py_scope.
Local Open Scope py_scope.

(** [try: m except Exception: raise e']. *)
Definition reraise_as {A} (m : M A) (e' : exn) : M A :=
  fun w => match m w with
           | Raise _ w' => Raise e' w'
           | o => o
           end.

(** [for x in xs: body x]. *)
Fixpoint for_each {A} (xs : list A) (body : A -> M unit) : M unit :=
  match xs with
  | [] => ret tt
  | x :: xs' => body x ;;; for_each xs' body
  end.

(** [for x in xs: s = body s x], for a loop that assigns local variables. *)
Fixpoint fold_m {A St} (body : St -> A -> M St) (xs : list A) (s : St) : M St :=
  match xs with
  | [] => ret s
  | x :: xs' => s' <- body s x ;; fold_m body xs' s'
  end.

(** [for i, x in enumerate(xs): s = body i x s], counting from [i]. *)
Fixpoint fold_enumerate {A St} (i : nat) (body : nat -> A -> St -> M St)
    (xs : list A) (s : St) : M St :=
  match xs with
  | [] => ret s
  | x :: xs' => s' <- body i x s ;; fold_enumerate (S i) body xs' s'
  end.

(** [[f(x) for x in xs]]. *)
Fixpoint map_m {A B} (f : A -> M B) (xs : list A) : M (list B) :=
  match xs with
  | [] => ret []
  | x :: xs' => y <- f x ;; ys <- map_m f xs' ;; ret (y :: ys)
  end.

(** Assignments to one attribute of the store. *)
Definition with_cookbooks (c : gmap string (gmap string jval)) (w : world) : world :=
  {| cookbooks := c; recipes := recipes w; sorted_recipes := sorted_recipes w;
     tools := tools w; sorted_tools := sorted_tools w; logger := logger w;
     probes := probes w; results := results w; host := host w |}.

Definition with_recipes (r : gmap string (gmap string (gmap string recipe_class))) (w : world) : world :=
  {| cookbooks := cookbooks w; recipes := r; sorted_recipes := sorted_recipes w;
     tools := tools w; sorted_tools := sorted_tools w; logger := logger w;
     probes := probes w; results := results w; host := host w |}.

Definition with_sorted_recipes (i : index) (w : world) : world :=
  {| cookbooks := cookbooks w; recipes := recipes w; sorted_recipes := i;
     tools := tools w; sorted_tools := sorted_tools w; logger := logger w;
     probes := probes w; results := results w; host := host w |}.

Definition with_tools (t : gmap string (gmap string (gmap string tool_class))) (w : world) : world :=
  {| cookbooks := cookbooks w; recipes := recipes w; sorted_recipes := sorted_recipes w;
     tools := t; sorted_tools := sorted_tools w; logger := logger w;
     probes := probes w; results := results w; host := host w |}.

Definition with_sorted_tools (i : index) (w : world) : world :=
  {| cookbooks := cookbooks w; recipes := recipes w; sorted_recipes := sorted_recipes w;
     tools := tools w; sorted_tools := i; logger := logger w;
     probes := probes w; results := results w; host := host w |}.

Definition with_logger (l : list log_record) (w : world) : world :=
  {| cookbooks := cookbooks w; recipes := recipes w; sorted_recipes := sorted_recipes w;
     tools := tools w; sorted_tools := sorted_tools w; logger := l;
     probes := probes w; results := results w; host := host w |}.

Definition with_probes (p : list (string * string * string)) (w : world) : world :=
  {| cookbooks := cookbooks w; recipes := recipes w; sorted_recipes := sorted_recipes w;
     tools := tools w; sorted_tools := sorted_tools w; logger := logger w;
     probes := p; results := results w; host := host w |}.

Definition with_results (r : list build_result) (w : world) : world :=
  {| cookbooks := cookbooks w; recipes := recipes w; sorted_recipes := sorted_recipes w;
     tools := tools w; sorted_tools := sorted_tools w; logger := logger w;
     probes := probes w; results := r; host := host w |}.

Definition with_host (d : disk) (w : world) : world :=
  {| cookbooks := cookbooks w; recipes := recipes w; sorted_recipes := sorted_recipes w;
     tools := tools w; sorted_tools := sorted_tools w; logger := logger w;
     probes := probes w; results := results w; host := d |}.

Definition log (r : log_record) : M unit :=
  fun w => Ok tt (with_logger (logger w ++ [r]) w).

(** ** The version index (section 4.2 of the design) *)

Module Index.

(** [index[name]]; an absent name has no entries. *)
Fixpoint lookup (name : string) (i : index) : list entry :=
  match i with
  | [] => []
  | (n, es) :: i' => if String.eqb n name then es else lookup name i'
  end.

(** [index[name] = es], keeping the position of an existing key. *)
Fixpoint store (name : string) (es : list entry) (i : index) : index :=
  match i with
  | [] => [(name, es)]
  | (n, es') :: i' =>
      if String.eqb n name then (n, es) :: i' else (n, es') :: store name es i'
  end.

Definition mem (x : string) (xs : list string) : bool :=
  existsb (String.eqb x) xs.

(** An entry survives the filter of a reference when it has the required
    version (if any) and lists the required cookbook (if any). *)
Definition survives (r : Ref.t) (e : entry) : bool :=
  match Ref.constraint r with
  | Some v => String.eqb (version e) v
  | None => true
  end
  && (String.eqb (Ref.cookbook r) "" || mem (Ref.cookbook r) (cookbooks_of e)).

(** The list without its first element that satisfies [p]. *)
Fixpoint drop_first {A} (p : A -> bool) (xs : list A) : list A :=
  match xs with
  | [] => []
  | x :: xs' => if p x then xs' else x :: drop_first p xs'
  end.

(** Modelled from the spec: [get_item_version] of
    [mussels/utils/versions.py], which is not part of the sources; this is
    [select] of section 4.2.  The reference is parsed; the entries of the
    name are filtered by the version constraint and the cookbook; the
    highest survivor (the first, the list being kept in descending order) is
    returned with the requested cookbook, or with its first-listed cookbook
    when the reference names none; the index is then changed so that the
    selected entry is the head and the selected cookbook is first in its
    list.  No survivor: [UnsatisfiableReference]. *)
Definition get_item_version (reference : string) (i : index)
  : exn + (nvc * index) :=
  let r := Ref.parse reference in
  let es := lookup (Ref.name r) i in
  match List.filter (survives r) es with
  | [] => inl (UnsatisfiableReference reference)
  | e :: _ =>
      let chosen :=
        if String.eqb (Ref.cookbook r) "" then head (cookbooks_of e)
        else Some (Ref.cookbook r) in
      match chosen with
      | None => inl IndexError
      | Some c =>
          let e' := {| version := version e;
                       cookbooks_of := c :: drop_first (String.eqb c) (cookbooks_of e) |} in
          let es' := e' :: drop_first (fun x => String.eqb (version x) (version e)) es in
          inr ({| nvc_name := Ref.name r; nvc_version := version e; nvc_cookbook := c |},
               store (Ref.name r) es' i)
      end
  end.

End Index.


(** ** The resolver (section 4.3 of the design) *)

(** [get_item_version(reference, self.sorted_recipes)]: the index object is
    changed in place. *)
Definition select_recipe (reference : string) : M nvc :=
  fun w => match Index.get_item_version reference (sorted_recipes w) with
           | inl e => Raise e w
           | inr (n, i) => Ok n (with_sorted_recipes i w)
           end.

(** [get_item_version(reference, self.sorted_tools)]. *)
Definition select_tool (reference : string) : M nvc :=
  fun w => match Index.get_item_version reference (sorted_tools w) with
           | inl e => Raise e w
           | inr (n, i) => Ok n (with_sorted_tools i w)
           end.

(** [catalog[name][version][cookbook]] on one of the nested dictionaries
    [self.recipes] and [self.tools].  The outer dictionary is a
    [defaultdict(dict)]: an unknown name yields an empty dictionary, so the
    [KeyError] then names the version.  (The empty dictionary that the
    [defaultdict] stores under the unknown name holds no class and changes no
    later lookup; the catalog is kept as it is.) *)
Definition catalog_get {C} (catalog : gmap string (gmap string (gmap string C)))
    (name version cookbook : string) : M C :=
  match default ∅ (catalog !! name) !! version with
  | None => raise (KeyError (KStr version))
  | Some by_cookbook =>
      match by_cookbook !! cookbook with
      | None => raise (KeyError (KStr cookbook))
      | Some c => ret c
      end
  end.

Definition recipe_get (name version cookbook : string) : M recipe_class :=
  w <- get ;; catalog_get (recipes w) name version cookbook.

Definition tool_get (name version cookbook : string) : M tool_class :=
  w <- get ;; catalog_get (tools w) name version cookbook.

(** Lines 348-361: every required tool of every recipe of the index is
    selected in the tool index; a failure there is re-raised as the plain
    [Exception] of line 359. *)
Definition check_required_tools : M unit :=
  w <- get ;;
  for_each (sorted_recipes w) (fun '(name, versions) =>
    for_each versions (fun each_ver =>
      for_each (cookbooks_of each_ver) (fun cookbook =>
        recipe_class <- recipe_get name (version each_ver) cookbook ;;
        for_each (required_tools recipe_class) (fun tool =>
          reraise_as (select_tool tool ;;; ret tt) (NoToolVersion tool))))).

(** [Mussels.__get_recipe_version], lines 327-362. *)
Definition __get_recipe_version (recipe : string) : M nvc :=
  nvc <- select_recipe recipe ;;
  check_required_tools ;;;
  ret nvc.

(** [chain[0]] compared with a name, guarded by [len(chain) > 0]. *)
Definition is_chain_base (name : string) (chain : list string) : bool :=
  match chain with
  | [] => false
  | base :: _ => String.eqb name base
  end.

(** Line 385-388: a dependency without [:] is taken from the cookbook of the
    recipe that declares it. *)
Definition qualify (cookbook dependency : string) : string :=
  if Ref.contains ":" dependency then dependency
  else (cookbook ++ ":" ++ dependency)%string.

(** Lines 384-390, the loop over the dependencies; [self] is the recursive
    call.  [acc] holds the local list [recipes] and the shared [chain]. *)
Definition each_dependency
    (self : string -> list string -> M (list string * list string))
    (cookbook : string)
  : list string -> list string * list string -> M (list string * list string) :=
  fix loop (ds : list string) (acc : list string * list string) :=
    match ds with
    | [] => ret acc
    | dependency :: ds' =>
        r <- self (qualify cookbook dependency) (snd acc) ;;
        loop ds' (fst acc ++ fst r, snd r)
    end.

(** [Mussels.__identify_build_recipes], lines 364-392.  [chain] is one list
    object shared by all the recursive calls, which append to it and never
    remove from it: it is passed in and handed back with the result.  The
    recursion of the source has no bound of its own; [fuel] bounds the depth
    of the calls, and a call that runs out of every [fuel] is a recursion
    without end (which the interpreter stops with [RecursionError]). *)
Fixpoint __identify_build_recipes (fuel : nat) (recipe : string) (chain : list string)
  : M (list string * list string) :=
  match fuel with
  | O => fun _ => Diverge
  | S fuel' =>
      nvc <- __get_recipe_version recipe ;;
      if is_chain_base (nvc_name nvc) chain then raise (CircularDependency chain)
      else
        let chain := chain ++ [nvc_name nvc] in
        recipe_class <- recipe_get (nvc_name nvc) (nvc_version nvc) (nvc_cookbook nvc) ;;
        each_dependency (__identify_build_recipes fuel') (nvc_cookbook nvc)
          (dependencies recipe_class) ([recipe], chain)
  end.

(** ** The batch planner (section 4.4 of the design) *)

(** [set(xs)] and the sets built by [add]: a Python set has no duplicates and
    an iteration order the language leaves open; here the elements keep the
    order in which they first arrive. *)
Fixpoint set_of (xs : list string) : list string :=
  match xs with
  | [] => []
  | x :: xs' => x :: List.filter (fun y => negb (String.eqb y x)) (set_of xs')
  end.

(** [nvc[key]] on the dictionary that [get_item_version] returns. *)
Definition nvc_getitem (n : nvc) (key : pykey) : M string :=
  match key with
  | KStr k =>
      if String.eqb k "name" then ret (nvc_name n)
      else if String.eqb k "version" then ret (nvc_version n)
      else if String.eqb k "cookbook" then ret (nvc_cookbook n)
      else raise (KeyError key)
  | KInt _ => raise (KeyError key)
  end.

(** [name_to_deps]: recipe name to the set of names it still waits for. *)
Definition deps_map := list (string * list string).

Fixpoint deps_store (name : string) (ds : list string) (m : deps_map) : deps_map :=
  match m with
  | [] => [(name, ds)]
  | (n, ds') :: m' =>
      if String.eqb n name then (n, ds) :: m' else (n, ds') :: deps_store name ds m'
  end.

(** Lines 405-414. *)
Definition build_name_to_deps (all_recipes : list string) : M deps_map :=
  fold_m (fun name_to_deps recipe =>
            nvc <- __get_recipe_version recipe ;;
            recipe_class <- recipe_get (nvc_name nvc) (nvc_version nvc) (nvc_cookbook nvc) ;;
            names <- map_m (fun dependency =>
                              d <- __get_recipe_version dependency ;;
                              nvc_getitem d (KInt 0))
                           (dependencies recipe_class) ;;
            ret (deps_store (nvc_name nvc) (set_of names) name_to_deps))
         all_recipes [].

Definition ready_names (m : deps_map) : list string :=
  map fst (List.filter (fun '(_, deps) => match deps with [] => true | _ => false end) m).

(** Lines 431-434: the ready names leave the map and every remaining set. *)
Definition remove_ready (ready : list string) (m : deps_map) : deps_map :=
  map (fun '(n, deps) => (n, List.filter (fun d => negb (Index.mem d ready)) deps))
      (List.filter (fun '(n, _) => negb (Index.mem n ready)) m).

(** Lines 416-440, the [while name_to_deps] loop.  Each round removes at least
    one key, so [length name_to_deps] rounds are enough; [rounds] is that
    bound.  The message of line 427 is built with [json.dumps] from a
    dictionary whose values are Python sets, which [json] cannot serialise:
    the statement that leaves the loop is that [TypeError], not the
    [ValueError] of line 428. *)
Fixpoint batches_loop (rounds : nat) (name_to_deps : deps_map) (batches : list (list string))
  : M (list (list string)) :=
  match name_to_deps with
  | [] => ret batches
  | _ :: _ =>
      match rounds with
      | O => fun _ => Diverge
      | S rounds' =>
          match ready_names name_to_deps with
          | [] => raise (TypeError "Object of type set is not JSON serializable")
          | ready =>
              batches_loop rounds' (remove_ready ready name_to_deps) (batches ++ [ready])
          end
      end
  end.

(** [Mussels.__get_build_batches], lines 394-440. *)
Definition __get_build_batches (fuel : nat) (recipe : string) : M (list (list string)) :=
  r <- __identify_build_recipes fuel recipe [] ;;
  let all_recipes := set_of (fst r) in
  name_to_deps <- build_name_to_deps all_recipes ;;
  batches_loop (length name_to_deps) name_to_deps [].

(** ** The toolchain probe (section 4.5 of the design) *)

(** [self.sorted_recipes[name][0]] and [self.sorted_tools[name][0]]: the
    attributes are declared [defaultdict(list)], so an unknown name reads as
    the empty list and the subscript [0] raises [IndexError]. *)
Definition first_entry (i : index) (name : string) : M entry :=
  match Index.lookup name i with
  | [] => raise IndexError
  | e :: _ => ret e
  end.

(** [entry["cookbooks"][0]]. *)
Definition first_cookbook (e : entry) : M string :=
  match cookbooks_of e with
  | [] => raise IndexError
  | c :: _ => ret c
  end.

(** A tool instance, as stored in the toolchain: the class it was made from. *)
Definition tool_instance : Type := string * string * string.

(** [toolchain]: tool name to the instance chosen for it. *)
Definition toolchain := list (string * tool_instance).

Fixpoint toolchain_set (name : string) (t : tool_instance) (tc : toolchain) : toolchain :=
  match tc with
  | [] => [(name, t)]
  | (n, t') :: tc' =>
      if String.eqb n name then (n, t) :: tc' else (n, t') :: toolchain_set name t tc'
  end.

Fixpoint toolchain_get (name : string) (tc : toolchain) : option tool_instance :=
  match tc with
  | [] => None
  | (n, t) :: tc' => if String.eqb n name then Some t else toolchain_get name tc'
  end.

Definition tool_instance_eqb (a b : tool_instance) : bool :=
  let '(n1, v1, c1) := a in
  let '(n2, v2, c2) := b in
  String.eqb n1 n2 && String.eqb v1 v2 && String.eqb c1 c2.

(** [preferred_tool_versions.add(t)]. *)
Definition set_add (t : tool_instance) (s : list tool_instance) : list tool_instance :=
  if existsb (tool_instance_eqb t) s then s else s ++ [t].

(** Lines 496-514: the preferred version of every tool that a recipe of the
    plan requires.  The recipe class read here is the one of the head of the
    index, under its first cookbook. *)
Definition collect_preferred (batches : list (list string)) : M (list tool_instance) :=
  fold_m (fun preferred bundle =>
    fold_m (fun preferred recipe =>
      w <- get ;;
      highest_recipe_version <- first_entry (sorted_recipes w) recipe ;;
      highest_recipe_version_cookbook <- first_cookbook highest_recipe_version ;;
      recipe_class <- recipe_get recipe (version highest_recipe_version)
                        highest_recipe_version_cookbook ;;
      fold_m (fun preferred tool =>
                nvc <- select_tool tool ;;
                ret (set_add (nvc_name nvc, nvc_version nvc, nvc_cookbook nvc) preferred))
             (required_tools recipe_class) preferred)
      bundle preferred)
    batches [].

(** Instantiate a tool class and call [detect()]; the call is recorded. *)
Definition run_detect (name version cookbook : string) (c : tool_class) : M bool :=
  fun w => Ok (detect c) (with_probes (probes w ++ [(name, version, cookbook)]) w).

(** [self.tools[name][alt["version"]][alt["cookbooks"][0]]], lines 546-548:
    the version is looked up before the cookbook subscript is evaluated. *)
Definition alternative_class (name : string) (alt : entry) : M tool_class :=
  w <- get ;;
  match default ∅ (tools w !! name) !! version alt with
  | None => raise (KeyError (KStr (version alt)))
  | Some by_cookbook =>
      c <- first_cookbook alt ;;
      match by_cookbook !! c with
      | None => raise (KeyError (KStr c))
      | Some cl => ret cl
      end
  end.

(** Lines 545-565, the body of [for alternative_version in
    alternative_versions]; the loop variables are [tool_found] and the
    toolchain.  The loop has no [break]. *)
Definition try_alternative (name : string) (st : bool * toolchain) (alt : entry)
  : M (bool * toolchain) :=
  alternative_tool <- alternative_class name alt ;;
  c <- first_cookbook alt ;;
  found <- run_detect name (version alt) c alternative_tool ;;
  if found then
    select_tool (c ++ ":" ++ name ++ "=" ++ version alt)%string ;;;
    log (LogAlternativeFound name (version alt)) ;;;
    ret (true, toolchain_set name (name, version alt, c) (snd st))
  else
    log (LogAlternativeNotFound name (version alt)) ;;;
    ret st.

(** Lines 518-569, the body of the loop over the preferred tools; the loop
    variables are the toolchain and [missing_tools]. *)
Definition probe_tool (st : toolchain * list string) (preferred : tool_instance)
  : M (toolchain * list string) :=
  let '(preferred_tool_name, preferred_tool_version, preferred_tool_cookbook) := preferred in
  prefered_tool <- tool_get preferred_tool_name preferred_tool_version preferred_tool_cookbook ;;
  found <- run_detect preferred_tool_name preferred_tool_version preferred_tool_cookbook
             prefered_tool ;;
  if found then
    log (LogToolFound preferred_tool_name preferred_tool_version) ;;;
    ret (toolchain_set preferred_tool_name preferred (fst st), snd st)
  else
    log (LogToolNotFound preferred_tool_name preferred_tool_version) ;;;
    w <- get ;;
    r <- match Index.lookup preferred_tool_name (sorted_tools w) with
         | _ :: ((_ :: _) as alternative_versions) =>
             log LogCheckingAlternatives ;;;
             fold_m (try_alternative preferred_tool_name) alternative_versions (false, fst st)
         | _ => ret (false, fst st)
         end ;;
    if fst r then ret (snd r, snd st)
    else ret (snd r, snd st ++ [preferred_tool_version]).

(** Lines 571-580: the report of the missing tools.  [tool_version] is a
    version string, and the message subscripts it with [0] and [1]. *)
Definition report_missing (missing_tools : list string) : M unit :=
  match missing_tools with
  | [] => ret tt
  | _ :: _ =>
      log LogMissingTools ;;;
      for_each missing_tools (fun tool_version =>
        if Nat.ltb (String.length tool_version) 2 then raise IndexError
        else log (LogMissingTool tool_version)) ;;;
      raise (SystemExit 1)
  end.

(** Lines 496-584. *)
Definition validate_toolchain (batches : list (list string)) : M toolchain :=
  preferred_tool_versions <- collect_preferred batches ;;
  r <- fold_m probe_tool preferred_tool_versions ([], []) ;;
  report_missing (snd r) ;;;
  log (LogToolchain (map fst (fst r))) ;;;
  ret (fst r).

(** ** The build driver (section 4.6 of the design) *)

(** [self.cookbooks[cookbook][key]].  [self.cookbooks] is a
    [defaultdict(dict)]: reading an unknown cookbook stores an empty
    dictionary under it, and the key is then missing from that dictionary. *)
Definition cookbook_getitem (cookbook key : string) : M jval :=
  fun w =>
    match cookbooks w !! cookbook with
    | None => Raise (KeyError (KStr key)) (with_cookbooks (<[cookbook := ∅]> (cookbooks w)) w)
    | Some fields =>
        match fields !! key with
        | None => Raise (KeyError (KStr key)) w
        | Some v => Ok v w
        end
    end.

(** [Mussels.__build_recipe], lines 252-325.

    Line 311 is [self.recipes[recipe][version](toolchain, self.app_data_dir)].
    When [version] is an index entry, a dictionary, the subscript raises
    [TypeError] (a dictionary cannot be a key); that is not the [KeyError]
    the [try] catches.  When [version] is a string that the catalog knows,
    the subscript yields the dictionary from cookbook to recipe class, and
    calling a dictionary raises [TypeError] as well.  Lines 317-323, which
    would run the builder and set [success], are reached on no path. *)
Definition __build_recipe (recipe : string) (version_arg : pyversion) (cookbook : string)
    (tc : toolchain) : M build_result :=
  let result := {| r_name := recipe; r_version := version_arg;
                   r_success := false; r_time_elapsed := false |} in
  trusted <- cookbook_getitem cookbook "trusted" ;;
  if negb (truthy trusted) then
    log (LogUntrusted recipe cookbook) ;;;
    url <- cookbook_getitem cookbook "url" ;;
    log (LogUntrustedRemedy cookbook url) ;;;
    ret result
  else
    log (LogAttempt recipe) ;;;
    version' <- match version_arg with
                | VStr EmptyString =>
                    w <- get ;;
                    e <- first_entry (sorted_recipes w) recipe ;;
                    ret (VEntry e)
                | _ => ret version_arg
                end ;;
    match version' with
    | VEntry _ => raise (TypeError "unhashable type: 'dict'")
    | VStr v =>
        w <- get ;;
        match default ∅ (recipes w !! recipe) !! v with
        | None =>
            log (LogFailedToFind recipe) ;;;
            ret {| r_name := recipe; r_version := version_arg;
                   r_success := false; r_time_elapsed := true |}
        | Some _ => raise (TypeError "'dict' object is not callable")
        end
    end.

(** [results.append(result)] on the caller's list. *)
Definition results_append (r : build_result) : M unit :=
  fun w => Ok tt (with_results (results w ++ [r]) w).

(** Lines 603-615, the dry-run branch of the loop body. *)
Definition dry_run_line (idx i j : nat) (recipe : string) : M unit :=
  w <- get ;;
  first_entry (sorted_recipes w) recipe ;;;
  log (LogDryRunLine idx i j recipe) ;;;
  e <- first_entry (sorted_recipes w) recipe ;;
  match default ∅ (recipes w !! recipe) !! version e with
  | None => raise (KeyError (KStr (version e)))
  | Some by_cookbook =>
      c <- first_cookbook e ;;
      match by_cookbook !! c with
      | None => raise (KeyError (KStr c))
      | Some recipe_class =>
          for_each (required_tools recipe_class) (fun tool =>
            nvc <- select_tool tool ;; log (LogDryRunTool nvc))
      end
  end.

(** The local variables of the loop of lines 597-627. *)
Record driver := { idx : nat; failure : bool }.

(** Lines 601-627, the body of the inner loop.  [cookbook] is the argument
    that [build_recipe] itself received. *)
Definition build_step (cookbook : string) (tc : toolchain) (dry_run : bool)
    (i j : nat) (recipe : string) (d : driver) : M driver :=
  let idx' := S (idx d) in
  if dry_run then
    dry_run_line idx' i j recipe ;;;
    ret {| idx := idx'; failure := failure d |}
  else if failure d then
    log (LogSkipping recipe) ;;;
    ret {| idx := idx'; failure := true |}
  else
    w <- get ;;
    e <- first_entry (sorted_recipes w) recipe ;;
    result <- __build_recipe recipe (VEntry e) cookbook tc ;;
    results_append result ;;;
    ret {| idx := idx'; failure := negb (r_success result) |}.

(** Lines 597-627.  A batch is a Python set; its recipes are visited in the
    order of the list that stands for it. *)
Definition build_loop (cookbook : string) (tc : toolchain) (dry_run : bool)
    (batches : list (list string)) (d : driver) : M driver :=
  fold_enumerate 0 (fun i bundle =>
                      fold_enumerate 0 (build_step cookbook tc dry_run i) bundle)
                 batches d.

(** [print_results], lines 461-476: both branches read
    [result['time elapsed']]. *)
Definition print_results : M unit :=
  w <- get ;;
  for_each (results w) (fun result =>
    if r_time_elapsed result then log (LogSummary result)
    else raise (KeyError (KStr "time elapsed"))).

(** Lines 478-488: the reference that is resolved for the root. *)
Definition recipe_str (recipe version cookbook : string) : string :=
  let recipe_str := recipe in
  let recipe_str : string :=
    if negb (String.eqb version "") then (recipe ++ "==" ++ version)%string
    else recipe_str in
  let recipe_str : string :=
    if String.eqb cookbook "" then ("local:" ++ recipe)%string
    else (cookbook ++ ":" ++ recipe)%string in
  recipe_str.

(** Lines 597-634: the driver over a plan, from [idx = 0] to the [return]. *)
Definition run_plan (cookbook : string) (tc : toolchain) (dry_run : bool)
    (batches : list (list string)) : M bool :=
  d <- build_loop cookbook tc dry_run batches {| idx := 0; failure := false |} ;;
  (if dry_run then ret tt else print_results) ;;;
  ret (negb (failure d)).

(** [Mussels.build_recipe], lines 442-634; [results] is the list of the
    store. *)
Definition build_recipe (fuel : nat) (recipe version cookbook : string) (dry_run : bool)
  : M bool :=
  batches <- __get_build_batches fuel (recipe_str recipe version cookbook) ;;
  tc <- validate_toolchain batches ;;
  (if dry_run then log LogDryRunBanner else ret tt) ;;;
  run_plan cookbook tc dry_run batches.


(** ** The configuration store (section 4.7 of the design) *)

(** [Mussels.__store_config], lines 130-150: [json.dump] of [config] into
    the file; a failure is logged as a warning and reported by the result,
    which no caller reads. *)
Definition __store_config (filename : string) (config : gmap string (gmap string jval))
  : M bool :=
  fun w =>
    if config_writable (host w) then
      Ok true (with_host {| config_files := <[filename := config]> (config_files (host w));
                            config_writable := true;
                            bookshelf := bookshelf (host w);
                            local_dir := local_dir (host w) |} w)
    else Ok false (with_logger (logger w ++ [LogStoreFailed filename]) w).

(** [Mussels.__load_config], lines 114-128: [config.update(json.load(f))],
    the keys of the file replacing those of [config]; [False] when there is
    no file to read.  [config] is changed in place: the dictionary is handed
    back with the result. *)
Definition __load_config (filename : string) (config : gmap string (gmap string jval))
  : M (bool * gmap string (gmap string jval)) :=
  fun w =>
    match config_files (host w) !! filename with
    | Some stored => Ok (true, stored ∪ config) w
    | None => Ok (false, config) w
    end.

(** [self.__store_config("cookbooks.json", self.cookbooks)]. *)
Definition store_cookbooks : M bool :=
  w <- get ;;
  __store_config "cookbooks.json" (cookbooks w).

(** [self.__load_config("cookbooks.json", self.cookbooks)], line 81. *)
Definition load_cookbooks : M bool :=
  w <- get ;;
  r <- __load_config "cookbooks.json" (cookbooks w) ;;
  w <- get ;;
  put (with_cookbooks (snd r) w) ;;;
  ret (fst r).

(** [self.cookbooks[cookbook][key] = v]; the [defaultdict] supplies an empty
    dictionary for a cookbook that has none. *)
Definition cookbook_setitem (cookbook key : string) (v : jval) : M unit :=
  fun w =>
    Ok tt (with_cookbooks
             (<[cookbook := <[key := v]> (default ∅ (cookbooks w !! cookbook))]> (cookbooks w))
             w).

(** [Mussels.config_trust_cookbook], lines 857-870.  The test of line 861 only
    logs: there is no [return] under it. *)
Definition config_trust_cookbook (cookbook : string) : M unit :=
  w <- get ;;
  (match cookbooks w !! cookbook with
   | None => log (LogCantTrust cookbook)
   | Some _ => ret tt
   end) ;;;
  log (LogNowTrusted cookbook) ;;;
  cookbook_setitem cookbook "trusted" (JBool true) ;;;
  store_cookbooks ;;;
  ret tt.

(** [Mussels.config_add_cookbook], lines 872-880. *)
Definition config_add_cookbook (cookbook author url : string) : M unit :=
  cookbook_setitem cookbook "author" (JStr author) ;;;
  cookbook_setitem cookbook "url" (JStr url) ;;;
  cookbook_setitem cookbook "trusted" (JBool true) ;;;
  store_cookbooks ;;;
  ret tt.

(** [Mussels.config_remove_cookbook], lines 882-885: [pop] of a missing key
    raises. *)
Definition config_remove_cookbook (cookbook : string) : M unit :=
  w <- get ;;
  match cookbooks w !! cookbook with
  | None => raise (KeyError (KStr cookbook))
  | Some _ =>
      put (with_cookbooks (delete cookbook (cookbooks w)) w) ;;;
      store_cookbooks ;;;
      ret tt
  end.

(** ** The catalog loader (section 4.1 of the design) and the command line *)

Section Loader.

(** [sort_cookbook_by_version] and [sort_all_recipes_by_version] of
    [mussels/utils/versions.py], which is not part of the sources: the
    loader is parametric in them. *)
Variable sort_cookbook_by_version :
  forall C, gmap string (gmap string C) -> index.
Variable sort_all_recipes_by_version :
  forall C, gmap string (gmap string (gmap string C)) -> index.

(** Lines 165-169 and 176-180: every class that was read is filed under
    its name, version and cookbook. *)
Definition file_under {C} (cookbook : string) (read : gmap string (gmap string C))
    (catalog : gmap string (gmap string (gmap string C)))
  : gmap string (gmap string (gmap string C)) :=
  map_fold (fun name versions catalog =>
    map_fold (fun version class catalog =>
      let by_version := default ∅ (catalog !! name) in
      let by_cookbook := default ∅ (by_version !! version) in
      <[name := <[version := <[cookbook := class]> by_cookbook]> by_version]> catalog)
      catalog versions)
    catalog read.

(** [Mussels.__read_cookbook], lines 152-185. *)
Definition __read_cookbook (cookbook : string) (d : cookbook_dir) : M bool :=
  cookbook_setitem cookbook "recipes" (JSorted (sort_cookbook_by_version _ (dir_recipes d))) ;;;
  w <- get ;;
  put (with_recipes (file_under cookbook (dir_recipes d) (recipes w)) w) ;;;
  cookbook_setitem cookbook "tools" (JSorted (sort_cookbook_by_version _ (dir_tools d))) ;;;
  w <- get ;;
  put (with_tools (file_under cookbook (dir_tools d) (tools w)) w) ;;;
  ret (negb (bool_decide (dir_recipes d = ∅) && bool_decide (dir_tools d = ∅))).

(** [Mussels.__read_bookshelf], lines 187-205. *)
Definition __read_bookshelf : M bool :=
  w <- get ;;
  match bookshelf (host w) with
  | Some dirs =>
      for_each dirs (fun '(cookbook, d) =>
        ok <- __read_cookbook cookbook d ;;
        if ok then ret tt else log (LogEmptyCookbook cookbook)) ;;;
      store_cookbooks ;;;
      ret true
  | None => ret true
  end.

(** [Mussels.__read_local_recipes], lines 207-221.  The path stored is
    [os.path.join(os.getcwd(), "mussels")]; its last component stands for
    it. *)
Definition __read_local_recipes : M bool :=
  w <- get ;;
  match local_dir (host w) with
  | Some d =>
      ok <- __read_cookbook "local" d ;;
      if ok then
        cookbook_setitem "local" "url" (JStr "") ;;;
        cookbook_setitem "local" "path" (JStr "mussels") ;;;
        cookbook_setitem "local" "trusted" (JBool true) ;;;
        ret true
      else ret false
  | None => ret true
  end.

(** [Mussels.__load_recipes], lines 223-250. *)
Definition __load_recipes : M bool :=
  w <- get ;;
  (if bool_decide (recipes w = ∅) || bool_decide (tools w = ∅)
   then __read_bookshelf ;;; ret tt else ret tt) ;;;
  ok <- __read_local_recipes ;;
  (if ok then ret tt else log LogLocalLoadFailed) ;;;
  w <- get ;;
  put (with_sorted_recipes (sort_all_recipes_by_version _ (recipes w)) w) ;;;
  w <- get ;;
  put (with_sorted_tools (sort_all_recipes_by_version _ (tools w)) w) ;;;
  w <- get ;;
  match sorted_recipes w with
  | [] => log LogNoRecipes ;;; ret false
  | _ => ret true
  end.

(** [Mussels.__init__], lines 59-82, as far as the cookbook map and the
    catalog go ([config.json] holds nothing that is read again). *)
Definition __init__ : M unit :=
  load_cookbooks ;;;
  __load_recipes ;;;
  ret tt.

(** The store of a process that has just started: the class attributes are
    empty, the disk is what the previous process left. *)
Definition new_process (d : disk) : world :=
  {| cookbooks := ∅; recipes := ∅; sorted_recipes := []; tools := ∅;
     sorted_tools := []; logger := []; probes := []; results := []; host := d |}.

(** [cookbook_add] of [__main__.py], lines 127-151: the command
    [cookbook add COOKBOOK --author A --url U [--yes]]. *)
Definition cookbook_add (cookbook author url : string) (yes : bool) : M unit :=
  __init__ ;;;
  config_add_cookbook cookbook author url.

End Loader.

(** ** Reading an outcome *)

Definition returned {A} (o : outcome A) : option A :=
  match o with Ok a _ => Some a | _ => None end.

Definition raised {A} (o : outcome A) : option exn :=
  match o with Raise e _ => Some e | _ => None end.

Definition final {A} (o : outcome A) : option world :=
  match o with Ok _ w | Raise _ w => Some w | Diverge => None end.

(** The cookbook a recipe of the plan is pinned to: the first cookbook of the
    head of its index, the one whose class lines 500-504 read. *)
Definition own_cookbook (w : world) (recipe : string) : option string :=
  match Index.lookup recipe (sorted_recipes w) with
  | e :: _ => head (cookbooks_of e)
  | [] => None
  end.

(** [self.cookbooks[cookbook]["trusted"]], without the side effect. *)
Definition trusted_flag (w : world) (cookbook : string) : option jval :=
  cookbooks w !! cookbook ≫= (.!! "trusted").

(** The version a name is pinned to: the head of its index. *)
Definition pinned_version (i : index) (name : string) : option string :=
  version <$> head (Index.lookup name i).

(** The item name a reference resolves to. *)
Definition ref_name (reference : string) : string :=
  Ref.name (Ref.parse reference).

(** A ranking of the names of a catalog: whatever version and cookbook of a
    recipe is taken, each of its dependencies, qualified as line 388 does,
    names an item of strictly smaller rank.  A catalog with a ranking has no
    cycle of dependencies. *)
Definition ranked (rk : string -> nat)
    (catalog : gmap string (gmap string (gmap string recipe_class))) : bool :=
  bool_decide
    (map_Forall (fun name by_version =>
       map_Forall (fun (_ : string) by_cookbook =>
         map_Forall (fun cookbook class =>
           Forall (fun dependency => rk (ref_name (qualify cookbook dependency)) < rk name)
                  (dependencies class))
           by_cookbook)
         by_version)
       catalog).

(** The base of the chain, if there is one, ranks above [name]. *)
Definition below_base (rk : string -> nat) (name : string) (chain : list string) : Prop :=
  match chain with
  | [] => True
  | base :: _ => rk name < rk base
  end.

(** An outcome that leaves the catalog [cat] in place, is not a divergence
    and is not the [ValueError] of the cycle check. *)
Definition tame {A} (cat : gmap string (gmap string (gmap string recipe_class)))
    (o : outcome A) : Prop :=
  match o with
  | Ok _ w' => recipes w' = cat
  | Raise e w' => recipes w' = cat /\ forall c, e <> CircularDependency c
  | Diverge => False
  end.

(** The shape of a result of the resolver: the reference first in the list,
    the chain extended from the name on. *)
Definition resolved (recipe : string) (chain : list string)
    (r : list string * list string) : Prop :=
  (exists rest, fst r = recipe :: rest)
  /\ exists more, snd r = chain ++ ref_name recipe :: more.

(** The outcome is a normal return whose value and store satisfy [Q]. *)
Definition ensures {A} (o : outcome A) (Q : A -> world -> Prop) : Prop :=
  match o with
  | Ok a w' => Q a w'
  | _ => False
  end.

(** A property of the store that the loader maintains: it depends on the
    cookbook map and the disk only, it survives an assignment to a key other
    than ["trusted"], an assignment of [True] to ["trusted"], and a write of
    the cookbook map to the disk. *)
Record loader_invariant (I : world -> Prop) : Prop := {
  inv_ext : forall w w', cookbooks w' = cookbooks w -> host w' = host w -> I w -> I w';
  inv_setitem : forall cookbook key v w,
      key <> "trusted" \/ v = JBool true ->
      I w -> ensures (cookbook_setitem cookbook key v w) (fun _ w' => I w');
  inv_store : forall w, I w -> ensures (store_cookbooks w) (fun _ w' => I w')
}.

(** The layering of a batch list over the dependency map [m0] it was
    planned from: every recipe of batch [k] is a key of [m0], and each of its
    dependencies there belongs to a batch before [k]. *)
Definition layered (m0 : deps_map) (bs : list (list string)) : Prop :=
  forall (k : nat) (B : list string) (x : string),
    bs !! k = Some B -> In x B ->
    exists ds0, In (x, ds0) m0 /\ forall d, In d ds0 -> In d (concat (take k bs)).

(** The state of the planner loop: what [name_to_deps] holds for a recipe is
    what [m0] held, less the names of the batches emitted so far. *)
Definition remaining (m0 m : deps_map) (emitted : list (list string)) : Prop :=
  forall (x : string) (ds : list string),
    In (x, ds) m ->
    exists ds0, In (x, ds0) m0
                /\ ds = List.filter (fun d => negb (Index.mem d (concat emitted))) ds0.

(** A dependency map that is closed (every name waited for is a key) and
    ranked (it ranks below the recipe that waits for it). *)
Definition closed_and_ranked (rk : string -> nat) (m : deps_map) : Prop :=
  forall (x : string) (ds : list string) (d : string),
    In (x, ds) m -> In d ds -> rk d < rk x /\ exists ds', In (d, ds') m.

(** [enumerate(xs)], counting from [i]. *)
Fixpoint enumerate_from {A} (i : nat) (xs : list A) : list (nat * A) :=
  match xs with
  | [] => []
  | x :: xs' => (i, x) :: enumerate_from (S i) xs'
  end.

(** The recipes of a plan in the order in which the two loops of lines
    599-600 visit them, each with its batch index [i] and its index [j] in
    the batch. *)
Definition plan_positions (batches : list (list string)) : list (nat * nat * string) :=
  concat (map (fun '(i, bundle) => map (fun '(j, recipe) => (i, j, recipe))
                                       (enumerate_from 0 bundle))
              (enumerate_from 0 batches)).

(** The loop body run over a list of positions. *)
Definition run_positions (cookbook : string) (tc : toolchain) (dry_run : bool)
    (ps : list (nat * nat * string)) (d : driver) : M driver :=
  fold_m (fun d '(i, j, recipe) => build_step cookbook tc dry_run i j recipe d) ps d.

(** ** Scenarios *)

Module Scenario.

Definition E (v : string) (cs : list string) : entry :=
  {| version := v; cookbooks_of := cs |}.

Definition R (ds ts : list string) : recipe_class :=
  {| dependencies := ds; required_tools := ts |}.

Definition no_disk : disk :=
  {| config_files := ∅; config_writable := true;
     bookshelf := None; local_dir := None |}.

Definition book (trusted : bool) (url : string) : gmap string jval :=
  {[ "trusted" := JBool trusted; "url" := JStr url ]}.

(** Cookbook [acme] with [zlib] in two versions and [openssl] depending on
    [zlib]; [zlib] requires [cmake], of which 3.20 is not installed and 3.16
    and 3.10 are. *)
Definition acme (trusted : bool) : world :=
  {| cookbooks := {[ "acme" := book trusted "https://acme.example/cookbook" ]};
     recipes :=
       {[ "zlib" := {[ "1.2.11" := {[ "acme" := R [] ["cmake"] ]};
                       "1.2.8" := {[ "acme" := R [] ["cmake"] ]} ]};
          "openssl" := {[ "1.1.1b" := {[ "acme" := R ["zlib"] [] ]} ]};
          "curl" := {[ "7.64.0" := {[ "acme" := R ["openssl"] [] ]} ]} ]};
     sorted_recipes :=
       [("zlib", [E "1.2.11" ["acme"]; E "1.2.8" ["acme"]]);
        ("openssl", [E "1.1.1b" ["acme"]]);
        ("curl", [E "7.64.0" ["acme"]])];
     tools :=
       {[ "cmake" := {[ "3.20" := {[ "acme" := {| detect := false |} ]};
                        "3.16" := {[ "acme" := {| detect := true |} ]};
                        "3.10" := {[ "acme" := {| detect := true |} ]} ]} ]};
     sorted_tools :=
       [("cmake", [E "3.20" ["acme"]; E "3.16" ["acme"]; E "3.10" ["acme"]])];
     logger := []; probes := []; results := []; host := no_disk |}.

(** [app] of the trusted cookbook [good] depends on [evil:x], a recipe of
    the untrusted cookbook [evil]. *)
Definition mixed : world :=
  {| cookbooks := {[ "good" := book true "https://good.example";
                     "evil" := book false "https://evil.example" ]};
     recipes :=
       {[ "app" := {[ "1.0" := {[ "good" := R ["evil:x"] [] ]} ]};
          "x" := {[ "0.1" := {[ "evil" := R [] [] ]} ]} ]};
     sorted_recipes := [("app", [E "1.0" ["good"]]); ("x", [E "0.1" ["evil"]])];
     tools := ∅; sorted_tools := [];
     logger := []; probes := []; results := []; host := no_disk |}.

(** The local overlay alone, not trusted: [x] without dependencies. *)
Definition local_untrusted : world :=
  {| cookbooks := {[ "local" := book false "" ]};
     recipes := {[ "x" := {[ "0.1" := {[ "local" := R [] [] ]} ]} ]};
     sorted_recipes := [("x", [E "0.1" ["local"]])];
     tools := ∅; sorted_tools := [];
     logger := []; probes := []; results := []; host := no_disk |}.

(** A local catalog given by the dependencies of each recipe, every recipe
    in version 1.0 and without tools. *)
Definition local_world (graph : list (string * list string)) : world :=
  {| cookbooks := {[ "local" := book true "" ]};
     recipes := list_to_map (map (fun '(n, ds) => (n, {[ "1.0" := {[ "local" := R ds [] ]} ]})) graph);
     sorted_recipes := map (fun '(n, _) => (n, [E "1.0" ["local"]])) graph;
     tools := ∅; sorted_tools := [];
     logger := []; probes := []; results := []; host := no_disk |}.

(** [a] and [b] depend on each other. *)
Definition two_cycle : world := local_world [("a", ["b"]); ("b", ["a"])].

(** [r] depends on [a]; [a] and [b] depend on each other: a cycle that does
    not pass through the root [r]. *)
Definition inner_cycle : world := local_world [("r", ["a"]); ("a", ["b"]); ("b", ["a"])].

(** [top] depends on [left] and [right], which both depend on [base]. *)
Definition diamond : world :=
  local_world [("top", ["left"; "right"]); ("left", ["base"]);
               ("right", ["base"]); ("base", [])].

(** A catalog in use, with its cookbook map not yet written to the disk. *)
Definition in_use : world := acme false.

(** The loader parameters used in the examples: no ordering at all, every
    index empty. *)
Definition no_index (C : Type) (_ : gmap string (gmap string C)) : index := [].
Definition no_index_all (C : Type) (_ : gmap string (gmap string (gmap string C))) : index := [].

Definition diamond_rank (name : string) : nat :=
  if String.eqb name "top" then 2
  else if String.eqb name "left" || String.eqb name "right" then 1
  else 0.

End Scenario.

(** ** The update of the cookbooks and the remaining commands *)

Section Update.

(** What [update_cookbooks] takes from outside [mussels.py]:
    [mussels.bookshelf.cookbooks], the table of the public cookbooks (name
    and url; [mussels/bookshelf.py] is not part of the sources); the order
    in which [for book in self.cookbooks] visits the keys (the insertion
    order, which the map does not record); [git.Repo.clone_from] and
    [repo.git.pull()], which may change the disk and may raise; what
    [read.recipes] and [read.tools] then find in the directory of a
    cookbook; and the sort function of the loader. *)
Variable shelf : list (string * string).
Variable key_order : gmap string (gmap string jval) -> list string.
Variable git_sync : jval -> string -> M unit.
Variable read_repo : string -> world -> cookbook_dir.
Variable sort_cookbook_by_version :
  forall C, gmap string (gmap string C) -> index.

(** Line 767: [os.makedirs(<data_dir>/cookbooks, exist_ok=True)]. *)
Definition make_bookshelf : M unit :=
  fun w =>
    Ok tt (with_host {| config_files := config_files (host w);
                        config_writable := config_writable (host w);
                        bookshelf := Some (default [] (bookshelf (host w)));
                        local_dir := local_dir (host w) |} w).

(** Lines 770-775, the body of the loop over the public cookbooks; the path
    stored is [<data_dir>/cookbooks/<book>]. *)
Definition register_book (entry : string * string) : M unit :=
  let '(book, url) := entry in
  cookbook_setitem book "path" (JStr ("cookbooks/" ++ book)) ;;;
  cookbook_setitem book "url" (JStr url) ;;;
  w <- get ;;
  match cookbooks w !! book ≫= (.!! "trusted") with
  | None => cookbook_setitem book "trusted" (JBool false)
  | Some _ => ret tt
  end.

(** Lines 777-787, the body of the loop over [self.cookbooks]. *)
Definition update_book (book : string) : M unit :=
  url <- cookbook_getitem book "url" ;;
  (match url with
   | JStr EmptyString => ret tt
   | _ => git_sync url book
   end) ;;;
  w <- get ;;
  __read_cookbook sort_cookbook_by_version book (read_repo book w) ;;;
  ret tt.

(** [Mussels.update_cookbooks], lines 761-789. *)
Definition update_cookbooks : M unit :=
  make_bookshelf ;;;
  for_each shelf register_book ;;;
  w <- get ;;
  for_each (key_order (cookbooks w)) update_book ;;;
  store_cookbooks ;;;
  ret tt.

End Update.

(** [cookbook_remove] of [__main__.py], lines 154-162. *)
Definition cookbook_remove
    (sort_cookbook_by_version : forall C, gmap string (gmap string C) -> index)
    (sort_all_recipes_by_version :
       forall C, gmap string (gmap string (gmap string C)) -> index)
    (cookbook : string) : M unit :=
  __init__ sort_cookbook_by_version sort_all_recipes_by_version ;;;
  config_remove_cookbook cookbook.

(** A property of the store that holds however the method ends: after a
    return and after an exception. *)
Definition always {A} (I : world -> Prop) (o : outcome A) : Prop :=
  match o with
  | Ok _ w' | Raise _ w' => I w'
  | Diverge => True
  end.

(** What resolution, planning and the toolchain probe leave alone: the
    cookbook map, the caller's results, the two catalogs and the disk. *)
Definition untouched (w w' : world) : Prop :=
  cookbooks w' = cookbooks w /\ results w' = results w
  /\ recipes w' = recipes w /\ tools w' = tools w /\ host w' = host w.

(** [self.cookbooks[cookbook][key] = v] on the map alone. *)
Definition set_field (cookbook key : string) (v : jval)
    (m : gmap string (gmap string jval)) : gmap string (gmap string jval) :=
  <[cookbook := <[key := v]> (default ∅ (m !! cookbook))]> m.

(** The names of the directories of the bookshelf. *)
Definition bookshelf_names (d : disk) : list string :=
  map fst (default [] (bookshelf d)).

(** A method keeps a relation [R] between the store it starts from and the
    store it ends with, however it ends. *)
Definition keeps (R : world -> world -> Prop) {A} (m : M A) : Prop :=
  forall w, always (R w) (m w).

(** [untouched], and no tool probed either. *)
Definition unprobed (w w' : world) : Prop :=
  untouched w w' /\ probes w' = probes w.

(** What the loader does to the cookbook map and the disk, [names] being the
    directories of the bookshelf: the bookshelf, the local directory and the
    write permission are as they were; a cookbook other than [local] keeps
    every key but ["recipes"] and ["tools"], and keeps its whole entry, or
    its absence, when it has no directory on the bookshelf. *)
Definition loaded_over (names : list string) (w w' : world) : Prop :=
  bookshelf (host w') = bookshelf (host w)
  /\ local_dir (host w') = local_dir (host w)
  /\ config_writable (host w') = config_writable (host w)
  /\ forall X, X <> "local" ->
       (forall key, key <> "recipes" -> key <> "tools" ->
          cookbooks w' !! X ≫= (.!! key) = cookbooks w !! X ≫= (.!! key))
       /\ (~ In X names -> cookbooks w' !! X = cookbooks w !! X).

(** The cookbook map that [cookbooks.json] holds; empty when there is no
    file. *)
Definition stored_cookbooks (d : disk) : gmap string (gmap string jval) :=
  default ∅ (config_files d !! "cookbooks.json").

(** Disks used in the examples of the loader. *)
Module Disks.

Definition zlib_dir : cookbook_dir :=
  {| dir_recipes := {[ "zlib" := {[ "1.2.11" := Scenario.R [] [] ]} ]};
     dir_tools := ∅ |}.

(** [cookbooks.json] lists [acme] and [local], neither trusted; the
    bookshelf has the directories [acme] and [fresh]; there is a local
    directory. *)
Definition shelved : disk :=
  {| config_files :=
       {[ "cookbooks.json" :=
            {[ "acme" := Scenario.book false "https://acme.example/cookbook";
               "local" := Scenario.book false "" ]} ]};
     config_writable := true;
     bookshelf := Some [("acme", zlib_dir); ("fresh", zlib_dir)];
     local_dir := Some zlib_dir |}.

(** A running process on [shelved], with the cookbook [gone] added by hand. *)
Definition with_gone : world :=
  {| cookbooks :=
       {[ "acme" := Scenario.book true "https://acme.example/cookbook";
          "gone" := Scenario.book true "https://gone.example" ]};
     recipes := ∅; sorted_recipes := []; tools := ∅; sorted_tools := [];
     logger := []; probes := []; results := []; host := shelved |}.

End Disks.

(** The cookbook map is as it was. *)
Definition same_cookbooks (w w' : world) : Prop := cookbooks w' = cookbooks w.

(** Every trust flag that was set has the value it had. *)
Definition trust_kept (w w' : world) : Prop :=
  forall X v, trusted_flag w X = Some v -> trusted_flag w' X = Some v.

(** The parameters of [update_cookbooks] used in the examples: one public
    cookbook, the keys in the order of the map, a [git] that does nothing,
    and empty directories. *)
Module Updates.

Definition shelf : list (string * string) :=
  [("clamav", "https://github.com/Cisco-Talos/clamav-mussels-cookbook.git")].

Definition key_order (m : gmap string (gmap string jval)) : list string :=
  map fst (map_to_list m).

Definition git_sync (_ : jval) (_ : string) : M unit := ret tt.

Definition read_repo (_ : string) (_ : world) : cookbook_dir :=
  {| dir_recipes := ∅; dir_tools := ∅ |}.

(** The store after [config_trust_cookbook("typo")] on an empty cookbook
    map. *)
Definition typo_trusted : world :=
  {| cookbooks := {[ "typo" := {[ "trusted" := JBool true ]} ]};
     recipes := ∅; sorted_recipes := []; tools := ∅; sorted_tools := [];
     logger := []; probes := []; results := []; host := Scenario.no_disk |}.

End Updates.

(** A tool instance whose class is in the tool catalog and whose [detect()]
    answers [True]. *)
Definition detected (w : world) (t : tool_instance) : Prop :=
  let '(name, version, cookbook) := t in
  exists class,
    default ∅ (tools w !! name) !! version ≫= (.!! cookbook) = Some class
    /\ detect class = true.

(** Every instance of the toolchain is filed under its own name and was
    detected. *)
Definition toolchain_detected (w : world) (tc : toolchain) : Prop :=
  forall name t, toolchain_get name tc = Some t -> fst (fst t) = name /\ detected w t.

(** The catalog [acme] with one more recipe, [broken], which requires the
    tool [ninja]; the tool index has no [ninja]. *)
Module Catalogs.

Definition blocked : world :=
  with_sorted_recipes
    (sorted_recipes (Scenario.acme true) ++ [("broken", [Scenario.E "0.1" ["acme"]])])
    (with_recipes
       (<["broken" := {[ "0.1" := {[ "acme" := Scenario.R [] ["ninja"] ]} ]}]>
          (recipes (Scenario.acme true)))
       (Scenario.acme true)).

End Catalogs.

(** The body of the loop of lines 355-361 over the required tools, and the
    body of the loop of lines 351-361 over the cookbooks of a version. *)
Definition tool_step (tool : string) : M unit :=
  reraise_as (select_tool tool ;;; ret tt) (NoToolVersion tool).

Definition cookbook_step (name version : string) (cookbook : string) : M unit :=
  recipe_class <- recipe_get name version cookbook ;;
  for_each (required_tools recipe_class) tool_step.

(** The tool index has no entry for [x], and the recipe catalog is [cat]. *)
Definition no_tool_entry (x : string)
    (cat : gmap string (gmap string (gmap string recipe_class))) (w : world) : Prop :=
  Index.lookup x (sorted_tools w) = [] /\ recipes w = cat.

(** * Properties *)

(** ** The depth of the recursion *)

(** One call of the resolver, and one round of its loop, written out. *)
Lemma identify_S (fuel : nat) (recipe : string) (chain : list string) (w : world) :
  __identify_build_recipes (S fuel) recipe chain w
  = match __get_recipe_version recipe w with
    | Ok n w1 =>
        if is_chain_base (nvc_name n) chain then Raise (CircularDependency chain) w1
        else
          match recipe_get (nvc_name n) (nvc_version n) (nvc_cookbook n) w1 with
          | Ok class w2 =>
              each_dependency (__identify_build_recipes fuel) (nvc_cookbook n)
                (dependencies class) ([recipe], chain ++ [nvc_name n]) w2
          | Raise e w2 => Raise e w2
          | Diverge => Diverge
          end
    | Raise e w1 => Raise e w1
    | Diverge => Diverge
    end.
Proof.
  cbn [__identify_build_recipes]. unfold bind.
  destruct (__get_recipe_version recipe w) as [n w1| |]; [|reflexivity..].
  destruct (is_chain_base (nvc_name n) chain); reflexivity.
Qed.

Lemma each_dependency_cons
    (self : string -> list string -> M (list string * list string))
    (cookbook d : string) (ds : list string) (acc : list string * list string)
    (w : world) :
  each_dependency self cookbook (d :: ds) acc w
  = match self (qualify cookbook d) (snd acc) w with
    | Ok r w' => each_dependency self cookbook ds (fst acc ++ fst r, snd r) w'
    | Raise e w' => Raise e w'
    | Diverge => Diverge
    end.
Proof. reflexivity. Qed.

Lemma each_dependency_agree
    (f g : string -> list string -> M (list string * list string))
    (cookbook : string) (ds : list string) :
  (forall r ch w, g r ch w <> Diverge -> f r ch w = g r ch w) ->
  forall (acc : list string * list string) (w : world),
    each_dependency g cookbook ds acc w <> Diverge ->
    each_dependency f cookbook ds acc w = each_dependency g cookbook ds acc w.
Proof.
  intros Hfg. induction ds as [|d ds IH]; intros acc w Hends; [reflexivity|].
  rewrite each_dependency_cons in Hends. rewrite !each_dependency_cons.
  destruct (g (qualify cookbook d) (snd acc) w) as [r w'| |] eqn:Hcall.
  - rewrite Hfg by (rewrite Hcall; discriminate). rewrite Hcall. apply IH, Hends.
  - rewrite Hfg by (rewrite Hcall; discriminate). rewrite Hcall. reflexivity.
  - contradiction Hends. reflexivity.
Qed.

(** An outcome that the resolver reaches at some depth is its outcome at
    every greater depth: the bound [fuel] decides only whether the outcome is
    reached. *)
Lemma identify_fuel_S (fuel : nat) :
  forall (recipe : string) (chain : list string) (w : world),
    __identify_build_recipes fuel recipe chain w <> Diverge ->
    __identify_build_recipes (S fuel) recipe chain w
    = __identify_build_recipes fuel recipe chain w.
Proof.
  induction fuel as [|fuel IH]; intros recipe chain w Hends;
    [contradiction Hends; reflexivity|].
  rewrite identify_S in Hends. rewrite (identify_S (S fuel)), (identify_S fuel).
  destruct (__get_recipe_version recipe w) as [n w1| |]; [|reflexivity..].
  destruct (is_chain_base (nvc_name n) chain); [reflexivity|].
  destruct (recipe_get (nvc_name n) (nvc_version n) (nvc_cookbook n) w1)
    as [class w2| |]; [|reflexivity..].
  apply each_dependency_agree; [exact IH|exact Hends].
Qed.

Lemma identify_fuel_more (k fuel : nat) (recipe : string) (chain : list string) (w : world) :
  __identify_build_recipes fuel recipe chain w <> Diverge ->
  __identify_build_recipes (k + fuel) recipe chain w
  = __identify_build_recipes fuel recipe chain w.
Proof.
  intros Hends. induction k as [|k IH]; [reflexivity|].
  simpl Nat.add. rewrite identify_fuel_S; [exact IH|]. rewrite IH. exact Hends.
Qed.

(** [build_recipe] at a depth at which the resolver ends is [build_recipe] at
    every greater depth. *)
Lemma build_recipe_fuel_more (k fuel : nat) (recipe version cookbook : string)
    (dry_run : bool) (w : world) :
  __identify_build_recipes fuel (recipe_str recipe version cookbook) [] w <> Diverge ->
  build_recipe (k + fuel) recipe version cookbook dry_run w
  = build_recipe fuel recipe version cookbook dry_run w.
Proof.
  intros Hends. unfold build_recipe, __get_build_batches, bind.
  rewrite (identify_fuel_more k fuel _ _ _ Hends). reflexivity.
Qed.

(** ** The root reference *)

(** The reference resolved for the root does not depend on [version]: the
    assignment of line 483 is overwritten by lines 485-488. *)
Lemma recipe_str_ignores_version (recipe version cookbook : string) :
  recipe_str recipe version cookbook = recipe_str recipe "" cookbook.
Proof. unfold recipe_str. destruct (String.eqb cookbook ""); reflexivity. Qed.

(** C2, at the failing input: [build_recipe("zlib", "1.2.8", "acme", [],
    dry_run=True)] on the [acme] catalog, which has [zlib] 1.2.11 and 1.2.8.
    The reference that is resolved is ["acme:zlib"], without the requested
    version; the run ends normally and [zlib] is pinned to 1.2.11.  On every
    input [build_recipe] does what it does for [version = ""]. *)
Theorem C2_requested_version_is_dropped :
  recipe_str "zlib" "1.2.8" "acme" = "acme:zlib"
  /\ Ref.constraint (Ref.parse (recipe_str "zlib" "1.2.8" "acme")) = None
  /\ returned (build_recipe 4 "zlib" "1.2.8" "acme" true (Scenario.acme true)) = Some true
  /\ (final (build_recipe 4 "zlib" "1.2.8" "acme" true (Scenario.acme true))
        ≫= fun w => pinned_version (sorted_recipes w) "zlib") = Some "1.2.11"
  /\ forall (fuel : nat) (recipe version cookbook : string) (dry_run : bool),
      build_recipe fuel recipe version cookbook dry_run
      = build_recipe fuel recipe "" cookbook dry_run.
Proof.
  split; [reflexivity|]. split; [reflexivity|].
  split; [vm_compute; reflexivity|]. split; [vm_compute; reflexivity|].
  intros fuel recipe version cookbook dry_run. unfold build_recipe.
  rewrite recipe_str_ignores_version. reflexivity.
Qed.

(** ** The trust gate *)

(** Once the cookbook argument is trusted, [__build_recipe] goes past the
    gate, whatever cookbook the recipe is pinned to. *)
Lemma gate_reads_argument (recipe cookbook : string) (e : entry)
    (tc : toolchain) (w : world) (fields : gmap string jval) (t : jval) :
  cookbooks w !! cookbook = Some fields ->
  fields !! "trusted" = Some t ->
  truthy t = true ->
  __build_recipe recipe (VEntry e) cookbook tc w
  = Raise (TypeError "unhashable type: 'dict'")
          (with_logger (logger w ++ [LogAttempt recipe]) w).
Proof.
  intros Hc Hf Ht. unfold __build_recipe, bind, cookbook_getitem.
  rewrite Hc, Hf, Ht. reflexivity.
Qed.

(** C1, at the failing input: the plan [[{x}, {app}]] of [app] from the
    trusted cookbook [good], executed with [cookbook = "good"]; [x] is pinned
    to the cookbook [evil], whose [trusted] is [False].  The gate reads
    [self.cookbooks["good"]]: [x] goes past it (the attempt is logged), no
    failure is recorded for [x], and the driver leaves with the [TypeError]
    of line 311.  Executed with [cookbook = "evil"] the same plan does record
    the failure of [x].  Through [build_recipe] itself: [x] of the untrusted
    overlay [local], built with [cookbook = ""], is resolved as [local:x],
    and the gate reads [self.cookbooks[""]]: [KeyError('trusted')], nothing
    recorded for [x]. *)
Theorem C1_gate_reads_the_cookbook_argument :
  own_cookbook Scenario.mixed "x" = Some "evil"
  /\ trusted_flag Scenario.mixed "evil" = Some (JBool false)
  /\ trusted_flag Scenario.mixed "good" = Some (JBool true)
  /\ raised (run_plan "good" [] false [["x"]; ["app"]] Scenario.mixed)
     = Some (TypeError "unhashable type: 'dict'")
  /\ (results <$> final (run_plan "good" [] false [["x"]; ["app"]] Scenario.mixed)) = Some []
  /\ (logger <$> final (run_plan "good" [] false [["x"]; ["app"]] Scenario.mixed))
     = Some [LogAttempt "x"]
  /\ (map r_name ∘ results <$> final (run_plan "evil" [] false [["x"]; ["app"]] Scenario.mixed))
     = Some ["x"]
  /\ own_cookbook Scenario.local_untrusted "x" = Some "local"
  /\ trusted_flag Scenario.local_untrusted "local" = Some (JBool false)
  /\ raised (build_recipe 2 "x" "" "" false Scenario.local_untrusted)
     = Some (KeyError (KStr "trusted"))
  /\ (results <$> final (build_recipe 2 "x" "" "" false Scenario.local_untrusted)) = Some [].
Proof. vm_compute. repeat split; reflexivity. Qed.

(** ** The toolchain probe *)

(** C4, at the failing input: [zlib] requires [cmake]; 3.20 is not detected,
    3.16 and 3.10 are.  All three versions are probed, in that order, and the
    toolchain and the head of the tool index end at 3.10, the last version
    that detects, not at 3.16, the first. *)
Theorem C4_last_detected_alternative_wins :
  (probes <$> final (validate_toolchain [["zlib"]] (Scenario.acme true)))
  = Some [("cmake", "3.20", "acme"); ("cmake", "3.16", "acme"); ("cmake", "3.10", "acme")]
  /\ (returned (validate_toolchain [["zlib"]] (Scenario.acme true)) ≫= toolchain_get "cmake")
     = Some ("cmake", "3.10", "acme")
  /\ (final (validate_toolchain [["zlib"]] (Scenario.acme true))
        ≫= fun w => pinned_version (sorted_tools w) "cmake") = Some "3.10".
Proof. vm_compute. repeat split; reflexivity. Qed.

(** ** The batch planner *)

(** The loop of the planner, lines 416-440, taken alone. *)

Lemma mem_In (x : string) (xs : list string) : Index.mem x xs = true <-> In x xs.
Proof.
  unfold Index.mem. rewrite existsb_exists. split.
  - intros (y & Hy & Heq). apply String.eqb_eq in Heq. subst. exact Hy.
  - intros Hx. exists x. split; [exact Hx|apply String.eqb_refl].
Qed.

Lemma mem_app (x : string) (xs ys : list string) :
  Index.mem x (xs ++ ys) = Index.mem x xs || Index.mem x ys.
Proof. unfold Index.mem. apply existsb_app. Qed.

Lemma filter_filter {A} (p q : A -> bool) (l : list A) :
  List.filter p (List.filter q l) = List.filter (fun a => q a && p a) l.
Proof.
  induction l as [|a l IH]; simpl; [reflexivity|].
  destruct (q a); simpl; [destruct (p a)|]; rewrite IH; reflexivity.
Qed.

Lemma filter_shorter {A} (g : A -> bool) (l : list A) :
  length (List.filter g l) <= length l.
Proof.
  induction l as [|a l IH]; simpl; [lia|]. destruct (g a); simpl; lia.
Qed.

Lemma filter_drops {A} (g : A -> bool) (l : list A) (e : A) :
  In e l -> g e = false -> length (List.filter g l) < length l.
Proof.
  induction l as [|a l IH]; simpl; [contradiction|].
  intros [->|Hin] Hg.
  - rewrite Hg. pose proof (filter_shorter g l). lia.
  - specialize (IH Hin Hg). destruct (g a); simpl; lia.
Qed.

(** A ready name is a key whose set is empty. *)
Lemma ready_names_In (m : deps_map) (x : string) :
  In x (ready_names m) <-> In (x, []) m.
Proof.
  unfold ready_names. rewrite in_map_iff. split.
  - intros ([y ds] & Hy & Hin). simpl in Hy. subst y.
    apply filter_In in Hin as [Hin Hds]. destruct ds; [exact Hin|discriminate].
  - intros Hin. exists (x, []). split; [reflexivity|].
    apply filter_In. split; [exact Hin|reflexivity].
Qed.

(** A round with a ready name makes the map shorter. *)
Lemma remove_ready_shorter (m : deps_map) (x : string) :
  In x (ready_names m) -> length (remove_ready (ready_names m) m) < length m.
Proof.
  intros Hx. unfold remove_ready. rewrite length_map.
  apply (filter_drops _ m (x, [])).
  - apply ready_names_In, Hx.
  - simpl. apply mem_In in Hx. rewrite Hx. reflexivity.
Qed.

(** The bound on the rounds is enough: the loop returns or raises. *)
Lemma batches_loop_ends (rounds : nat) :
  forall (m : deps_map) (batches : list (list string)) (w : world),
    length m <= rounds -> batches_loop rounds m batches w <> Diverge.
Proof.
  induction rounds as [|rounds IH]; intros m batches w Hlen.
  - destruct m; [discriminate|simpl in Hlen; lia].
  - destruct m as [|e m']; [discriminate|].
    cbn [batches_loop]. set (m := e :: m') in *.
    destruct (ready_names m) as [|x ready] eqn:Hready; [discriminate|].
    rewrite <- Hready. apply IH.
    assert (Hx : In x (ready_names m)) by (rewrite Hready; left; reflexivity).
    pose proof (remove_ready_shorter m x Hx). lia.
Qed.

Lemma remaining_step (m0 m : deps_map) (emitted : list (list string)) :
  remaining m0 m emitted ->
  remaining m0 (remove_ready (ready_names m) m) (emitted ++ [ready_names m]).
Proof.
  intros Hrem x ds' Hin. unfold remove_ready in Hin.
  apply in_map_iff in Hin as ([y ds] & Heq & Hin). injection Heq as -> <-.
  apply filter_In in Hin as [Hin _].
  destruct (Hrem x ds Hin) as (ds0 & Hin0 & ->).
  exists ds0. split; [exact Hin0|].
  rewrite filter_filter. apply filter_ext. intros d.
  rewrite concat_app. simpl. rewrite app_nil_r, mem_app, negb_orb. reflexivity.
Qed.

Lemma layered_step (m0 m : deps_map) (emitted : list (list string)) :
  remaining m0 m emitted ->
  layered m0 emitted ->
  layered m0 (emitted ++ [ready_names m]).
Proof.
  intros Hrem Hlay k B x Hk Hx.
  destruct (decide (k < length emitted)) as [Hlt|Hge].
  - rewrite lookup_app_l in Hk by exact Hlt.
    destruct (Hlay k B x Hk Hx) as (ds0 & Hin0 & Hds).
    exists ds0. split; [exact Hin0|].
    rewrite take_app_le by lia. exact Hds.
  - rewrite lookup_app_r in Hk by lia.
    destruct (k - length emitted) as [|j] eqn:Hj; [|destruct j; discriminate].
    injection Hk as <-.
    assert (k = length emitted) as -> by lia.
    apply ready_names_In in Hx.
    destruct (Hrem x [] Hx) as (ds0 & Hin0 & Hnil).
    exists ds0. split; [exact Hin0|].
    intros d Hd. rewrite take_app_length.
    apply mem_In.
    destruct (Index.mem d (concat emitted)) eqn:Hmem; [reflexivity|exfalso].
    assert (Hfil : In d (List.filter (fun d => negb (Index.mem d (concat emitted))) ds0)).
    { apply filter_In. split; [exact Hd|]. rewrite Hmem. reflexivity. }
    rewrite <- Hnil in Hfil. exact Hfil.
Qed.

(** The batch list that the loop returns is layered over the map it was
    given. *)
Lemma batches_loop_layered (m0 : deps_map) (rounds : nat) :
  forall (m : deps_map) (emitted bs : list (list string)) (w w' : world),
    remaining m0 m emitted ->
    layered m0 emitted ->
    batches_loop rounds m emitted w = Ok bs w' ->
    layered m0 bs.
Proof.
  induction rounds as [|rounds IH]; intros m emitted bs w w' Hrem Hlay Hrun.
  - destruct m; [|discriminate]. injection Hrun as <- _. exact Hlay.
  - destruct m as [|e m']; [injection Hrun as <- _; exact Hlay|].
    cbn [batches_loop] in Hrun. set (m := e :: m') in *.
    destruct (ready_names m) as [|x ready] eqn:Hready; [discriminate|].
    rewrite <- Hready in Hrun.
    apply (IH _ _ _ _ _ (remaining_step m0 m emitted Hrem)
              (layered_step m0 m emitted Hrem Hlay) Hrun).
Qed.

(** From the whole map and no batch, as line 416 starts the loop. *)
Lemma planner_loop_layered (m0 : deps_map) (bs : list (list string)) (w w' : world) :
  batches_loop (length m0) m0 [] w = Ok bs w' -> layered m0 bs.
Proof.
  apply batches_loop_layered.
  - intros x ds Hin. exists ds. split; [exact Hin|].
    clear Hin. induction ds as [|d ds IH]; simpl; [reflexivity|].
    f_equal. exact IH.
  - intros k B x Hk. rewrite lookup_nil in Hk. discriminate.
Qed.

Lemma least_key (rk : string -> nat) (m : deps_map) :
  m <> [] ->
  exists x ds, In (x, ds) m /\ forall y ds', In (y, ds') m -> rk x <= rk y.
Proof.
  induction m as [|[x ds] m IH]; [congruence|]. intros _.
  destruct m as [|e m'].
  - exists x, ds. split; [left; reflexivity|].
    intros y ds' [[= <- <-]|[]]. lia.
  - destruct (IH ltac:(discriminate)) as (x' & ds0 & Hin & Hmin).
    destruct (le_lt_dec (rk x) (rk x')) as [Hle|Hlt].
    + exists x, ds. split; [left; reflexivity|].
      intros y ds' [[= <- <-]|Hy]; [lia|]. specialize (Hmin y ds' Hy). lia.
    + exists x', ds0. split; [right; exact Hin|].
      intros y ds' [[= <- <-]|Hy]; [lia|]. exact (Hmin y ds' Hy).
Qed.

Lemma closed_and_ranked_step (rk : string -> nat) (m : deps_map) :
  closed_and_ranked rk m ->
  closed_and_ranked rk (remove_ready (ready_names m) m).
Proof.
  intros Hm x ds' d Hin Hd. unfold remove_ready in Hin.
  apply in_map_iff in Hin as ([y ds] & Heq & Hin). injection Heq as -> <-.
  apply filter_In in Hin as [Hin _].
  apply filter_In in Hd as [Hd Hnot].
  destruct (Hm x ds d Hin Hd) as [Hlt [dsd Hdin]].
  split; [exact Hlt|].
  exists (List.filter (fun d0 => negb (Index.mem d0 (ready_names m))) dsd).
  unfold remove_ready. apply in_map_iff. exists (d, dsd). split; [reflexivity|].
  apply filter_In. split; [exact Hdin|exact Hnot].
Qed.

(** On a closed and ranked map, which has no cycle, the loop returns a batch
    list: some recipe is ready in every round. *)
Lemma batches_loop_returns_on_ranked (rk : string -> nat) (rounds : nat) :
  forall (m : deps_map) (emitted : list (list string)) (w : world),
    closed_and_ranked rk m ->
    length m <= rounds ->
    exists bs, batches_loop rounds m emitted w = Ok bs w.
Proof.
  induction rounds as [|rounds IH]; intros m emitted w Hm Hlen.
  - destruct m; [|simpl in Hlen; lia]. exists emitted. reflexivity.
  - destruct m as [|e m']; [exists emitted; reflexivity|].
    cbn [batches_loop]. set (m := e :: m') in *.
    destruct (least_key rk m ltac:(discriminate)) as (x & ds & Hin & Hmin).
    assert (Hds : ds = []).
    { destruct ds as [|d ds]; [reflexivity|exfalso].
      destruct (Hm x (d :: ds) d Hin ltac:(left; reflexivity)) as [Hlt [ds' Hd]].
      specialize (Hmin d ds' Hd). lia. }
    subst ds. apply ready_names_In in Hin.
    destruct (ready_names m) as [|y ready] eqn:Hready; [contradiction|].
    rewrite <- Hready. apply IH.
    + apply closed_and_ranked_step, Hm.
    + rewrite <- Hready in Hin. pose proof (remove_ready_shorter m x Hin). lia.
Qed.

(** Line 411 on one dependency: whatever [__get_recipe_version] does, the
    subscript [0] is not reached with a normal return. *)
Lemma dependency_name_never_returns (dependency : string) (w : world) :
  returned ((d <- __get_recipe_version dependency ;; nvc_getitem d (KInt 0)) w) = None.
Proof.
  unfold bind. destruct (__get_recipe_version dependency w); reflexivity.
Qed.

Lemma deps_store_empty_sets (name : string) (m : deps_map) :
  (forall x ds, In (x, ds) m -> ds = []) ->
  forall x ds, In (x, ds) (deps_store name [] m) -> ds = [].
Proof.
  induction m as [|[y dy] m IH]; simpl; intros Hm x ds.
  - intros [[= <- <-]|[]]. reflexivity.
  - destruct (String.eqb y name); intros [[= <- <-]|Hin].
    + reflexivity.
    + apply (Hm x ds). right. exact Hin.
    + apply (Hm y dy). left. reflexivity.
    + exact (IH (fun x' ds' H => Hm x' ds' (or_intror H)) x ds Hin).
Qed.

(** The map that lines 405-414 return has empty sets only: a recipe with a
    dependency makes line 411 raise. *)
Lemma name_to_deps_has_empty_sets (all_recipes : list string) :
  forall (m0 m : deps_map) (w w' : world),
    (forall x ds, In (x, ds) m0 -> ds = []) ->
    fold_m (fun name_to_deps recipe =>
              nvc <- __get_recipe_version recipe ;;
              recipe_class <- recipe_get (nvc_name nvc) (nvc_version nvc) (nvc_cookbook nvc) ;;
              names <- map_m (fun dependency =>
                                d <- __get_recipe_version dependency ;;
                                nvc_getitem d (KInt 0))
                             (dependencies recipe_class) ;;
              ret (deps_store (nvc_name nvc) (set_of names) name_to_deps))
           all_recipes m0 w = Ok m w' ->
    forall x ds, In (x, ds) m -> ds = [].
Proof.
  induction all_recipes as [|recipe rest IH]; intros m0 m w w' Hm0 Hrun.
  - injection Hrun as <- _. exact Hm0.
  - simpl in Hrun. unfold bind at 1 in Hrun. unfold bind at 1 in Hrun.
    destruct (__get_recipe_version recipe w) as [n w1| |]; [|discriminate..].
    unfold bind at 1 in Hrun.
    destruct (recipe_get _ _ _ w1) as [class w2| |]; [|discriminate..].
    unfold bind at 1 in Hrun.
    destruct (dependencies class) as [|d ds].
    + simpl in Hrun.
      exact (IH _ _ _ _ (deps_store_empty_sets (nvc_name n) m0 Hm0) Hrun).
    + exfalso. simpl in Hrun. unfold bind, raise in Hrun.
      destruct (__get_recipe_version d w2); discriminate.
Qed.

Lemma build_name_to_deps_empty_sets (all_recipes : list string) (m : deps_map)
    (w w' : world) :
  build_name_to_deps all_recipes w = Ok m w' ->
  forall x ds, In (x, ds) m -> ds = [].
Proof.
  unfold build_name_to_deps. apply name_to_deps_has_empty_sets. intros ? ? [].
Qed.

Lemma ready_names_all (m : deps_map) :
  (forall x ds, In (x, ds) m -> ds = []) -> ready_names m = map fst m.
Proof.
  unfold ready_names. induction m as [|[x ds] m IH]; intros Hm; [reflexivity|].
  rewrite (Hm x ds) by (left; reflexivity). simpl. f_equal.
  apply IH. intros y dy Hin. apply (Hm y dy). right. exact Hin.
Qed.

Lemma remove_ready_all (m : deps_map) : remove_ready (map fst m) m = [].
Proof.
  unfold remove_ready.
  assert (H : forall keys, (forall e, In e m -> In (fst e) keys) ->
                           List.filter (fun '(n, _) => negb (Index.mem n keys)) m = []).
  { intros keys Hkeys. induction m as [|[x ds] m IH]; [reflexivity|]. simpl.
    assert (Hx : Index.mem x keys = true)
      by (apply mem_In, (Hkeys (x, ds)); left; reflexivity).
    rewrite Hx. simpl. apply IH. intros e He. apply Hkeys. right. exact He. }
  rewrite H; [reflexivity|]. intros e He. apply in_map, He.
Qed.

(** What the planner returns is one batch at most: the plan is never
    layered. *)
Lemma planner_returns_one_batch (fuel : nat) (recipe : string) (w w' : world)
    (bs : list (list string)) :
  __get_build_batches fuel recipe w = Ok bs w' -> length bs <= 1.
Proof.
  unfold __get_build_batches, bind at 1.
  destruct (__identify_build_recipes fuel recipe [] w) as [r w1| |]; [|discriminate..].
  unfold bind at 1.
  destruct (build_name_to_deps (set_of (fst r)) w1) as [m w2| |] eqn:Hmap;
    [|discriminate..].
  pose proof (build_name_to_deps_empty_sets _ _ _ _ Hmap) as Hempty.
  destruct m as [|e m']; [intros [= <- _]; simpl; lia|].
  cbn [length batches_loop]. set (m := e :: m') in *.
  rewrite (ready_names_all m Hempty).
  destruct (map fst m) as [|k ks] eqn:Hk; [discriminate|].
  rewrite <- Hk, remove_ready_all.
  destruct (length m'); intros [= <- _]; simpl; lia.
Qed.

(** C5, at the failing input: [openssl] depends on [zlib] and [zlib] on
    nothing, an acyclic graph.  Line 411 subscripts the dictionary returned
    by [__get_recipe_version] with [0]: the planner raises [KeyError(0)] and
    produces no batches (the loop of lines 416-440 is never reached with a
    dependency in the map).  A recipe without dependencies is planned. *)
Theorem C5_planner_raises_on_a_dependency :
  raised (__get_build_batches 4 "acme:openssl" (Scenario.acme true)) = Some (KeyError (KInt 0))
  /\ returned (__get_build_batches 4 "acme:openssl" (Scenario.acme true)) = None
  /\ returned (__get_build_batches 4 "acme:zlib" (Scenario.acme true)) = Some [["zlib"]].
Proof. vm_compute. repeat split; reflexivity. Qed.

(** ** The resolver on a two-recipe cycle *)

(** C7, as amended: [a] depends on [b] and [b] on [a].  [build_recipe("a",
    "", "", [])] raises the [ValueError] of line 376 out of the resolver, at
    any depth of recursion allowed beyond three calls; no tool has been
    probed, nothing has been built or recorded; the chain in the message is
    the list as it is before the repeated name is appended: [[a, b]]. *)
Theorem C7_two_cycle_reports_chain_a_b (n : nat) :
  raised (build_recipe (3 + n) "a" "" "" false Scenario.two_cycle)
  = Some (CircularDependency ["a"; "b"])
  /\ (probes <$> final (build_recipe (3 + n) "a" "" "" false Scenario.two_cycle)) = Some []
  /\ (results <$> final (build_recipe (3 + n) "a" "" "" false Scenario.two_cycle)) = Some [].
Proof. vm_compute. repeat split; reflexivity. Qed.

(** C7, as stated, fails: the chain reported is not [[a, b, a]]. *)
Lemma C7_chain_is_not_a_b_a :
  raised (build_recipe 3 "a" "" "" false Scenario.two_cycle)
  <> Some (CircularDependency ["a"; "b"; "a"]).
Proof. vm_compute. discriminate. Qed.

(** ** Loops *)

Section Loops.

Context {A B St : Type}.

Lemma fold_m_ext (f g : St -> A -> M St) (xs : list A) :
  (forall s x w, f s x w = g s x w) ->
  forall s w, fold_m f xs s w = fold_m g xs s w.
Proof.
  intros Hfg. induction xs as [|x xs IH]; intros s w; simpl; [reflexivity|].
  unfold bind. rewrite Hfg. destruct (g s x w); auto.
Qed.

Lemma fold_m_app (f : St -> A -> M St) (xs ys : list A) (s : St) (w : world) :
  fold_m f (xs ++ ys) s w = bind (fold_m f xs s) (fold_m f ys) w.
Proof.
  revert s w. induction xs as [|x xs IH]; intros s w; simpl; [reflexivity|].
  unfold bind in *. destruct (f s x w); auto.
Qed.

Lemma fold_m_map (h : B -> A) (f : St -> A -> M St) (ys : list B) (s : St) (w : world) :
  fold_m f (map h ys) s w = fold_m (fun s y => f s (h y)) ys s w.
Proof.
  revert s w. induction ys as [|y ys IH]; intros s w; simpl; [reflexivity|].
  unfold bind. destruct (f s (h y) w); auto.
Qed.

Lemma fold_m_concat (f : St -> A -> M St) (xss : list (list A)) (s : St) (w : world) :
  fold_m (fun s xs => fold_m f xs s) xss s w = fold_m f (concat xss) s w.
Proof.
  revert s w. induction xss as [|xs xss IH]; intros s w; simpl; [reflexivity|].
  rewrite fold_m_app. unfold bind. destruct (fold_m f xs s w); auto.
Qed.

Lemma fold_enumerate_fold_m (body : nat -> A -> St -> M St) (xs : list A) :
  forall i s w,
    fold_enumerate i body xs s w
    = fold_m (fun s '(i, x) => body i x s) (enumerate_from i xs) s w.
Proof.
  induction xs as [|x xs IH]; intros i s w; simpl; [reflexivity|].
  unfold bind. destruct (body i x s w); auto.
Qed.

End Loops.

(** The two nested loops of the driver visit the positions of the plan. *)
Lemma build_loop_positions (cookbook : string) (tc : toolchain) (dry_run : bool)
    (batches : list (list string)) (d : driver) (w : world) :
  build_loop cookbook tc dry_run batches d w
  = run_positions cookbook tc dry_run (plan_positions batches) d w.
Proof.
  unfold build_loop, run_positions, plan_positions.
  rewrite fold_enumerate_fold_m, <- fold_m_concat, fold_m_map.
  apply fold_m_ext. intros s [i bundle] w'.
  rewrite fold_enumerate_fold_m, fold_m_map.
  apply fold_m_ext. intros s' [j recipe] w''. reflexivity.
Qed.

(** ** The build driver after a failure *)

Lemma with_logger_twice (l l' : list log_record) (w : world) :
  with_logger l (with_logger l' w) = with_logger l w.
Proof. reflexivity. Qed.

(** From a state in which [failure] is set, the loop only logs: every
    position costs one [Skipping] warning and one increment of [idx]. *)
Lemma run_positions_after_failure (cookbook : string) (tc : toolchain)
    (ps : list (nat * nat * string)) :
  forall (d : driver) (w : world),
    failure d = true ->
    run_positions cookbook tc false ps d w
    = Ok {| idx := idx d + length ps; failure := true |}
         (with_logger (logger w ++ map (fun p => LogSkipping (snd p)) ps) w).
Proof.
  unfold run_positions.
  induction ps as [|[[i j] recipe] ps IH]; intros d w Hf; simpl.
  - destruct d as [n f]; simpl in *; subst f.
    rewrite Nat.add_0_r, app_nil_r. destruct w; reflexivity.
  - unfold bind at 1. unfold build_step. rewrite Hf. simpl.
    unfold bind at 1. unfold log. simpl.
    rewrite IH by reflexivity. simpl.
    rewrite with_logger_twice, <- app_assoc. simpl.
    repeat f_equal. lia.
Qed.

(** In a run that is not a dry run, once the flag [failure] is set, every
    later position of the plan costs a [Skipping] warning and nothing else
    (lines 617-620): no call of [__build_recipe] is made for it and no record
    is appended for it, so the store after the loop is the store at the
    failure with the warnings added to the log.  The flag stays set. *)
Lemma driver_after_failure_only_logs (cookbook : string) (tc : toolchain)
    (batches : list (list string)) (before after : list (nat * nat * string))
    (d1 : driver) (w w1 : world) :
  plan_positions batches = before ++ after ->
  run_positions cookbook tc false before {| idx := 0; failure := false |} w = Ok d1 w1 ->
  failure d1 = true ->
  build_loop cookbook tc false batches {| idx := 0; failure := false |} w
  = Ok {| idx := idx d1 + length after; failure := true |}
       (with_logger (logger w1 ++ map (fun p => LogSkipping (snd p)) after) w1).
Proof.
  intros Hsplit Hbefore Hfail.
  rewrite build_loop_positions, Hsplit. unfold run_positions in *.
  rewrite fold_m_app. unfold bind. rewrite Hbefore.
  exact (run_positions_after_failure cookbook tc after d1 w1 Hfail).
Qed.

(** C3, at the failing input: [zlib] of the cookbook [acme], which is not
    trusted, built by [build_recipe("zlib", "", "acme", [])], not as a dry
    run, at any depth of recursion allowed.  The plan is the one batch
    [{zlib}] and the toolchain is validated.  The build of [zlib] fails at
    the trust gate: the refusal is logged, the record of [zlib] with
    [success] [False] is appended to the results, it is the only record, and
    [failure] is set; no summary is logged.  [build_recipe] does not return
    [False] then: line 630 calls [print_results] before the [return False]
    of line 633, both branches of [print_results] read
    [result['time elapsed']], and the record that the gate returns has no
    such key.  The call leaves with [KeyError('time elapsed')] and returns
    nothing. *)
Theorem C3_failed_build_does_not_return_false (n : nat) :
  trusted_flag (Scenario.acme false) "acme" = Some (JBool false)
  /\ returned (__get_build_batches (1 + n) "acme:zlib" (Scenario.acme false))
     = Some [["zlib"]]
  /\ (results <$> final (build_recipe (1 + n) "zlib" "" "acme" false (Scenario.acme false)))
     = Some [{| r_name := "zlib"; r_version := VEntry (Scenario.E "1.2.11" ["acme"]);
                r_success := false; r_time_elapsed := false |}]
  /\ (logger <$> final (build_recipe (1 + n) "zlib" "" "acme" false (Scenario.acme false)))
     = Some [LogToolNotFound "cmake" "3.20"; LogCheckingAlternatives;
             LogAlternativeFound "cmake" "3.16"; LogAlternativeFound "cmake" "3.10";
             LogToolchain ["cmake"];
             LogUntrusted "zlib" "acme";
             LogUntrustedRemedy "acme" (JStr "https://acme.example/cookbook")]
  /\ raised (build_recipe (1 + n) "zlib" "" "acme" false (Scenario.acme false))
     = Some (KeyError (KStr "time elapsed"))
  /\ returned (build_recipe (1 + n) "zlib" "" "acme" false (Scenario.acme false)) = None
  /\ returned (build_recipe (1 + n) "zlib" "" "acme" false (Scenario.acme false))
     <> Some false.
Proof.
  repeat (split; [vm_compute; reflexivity|]). vm_compute. discriminate.
Qed.

(** ** The resolver on a ranked catalog *)

Section Tame.

Variable cat : gmap string (gmap string (gmap string recipe_class)).

Lemma tame_bind {A B} (m : M A) (k : A -> M B) (w : world) :
  tame cat (m w) ->
  (forall a w', m w = Ok a w' -> recipes w' = cat -> tame cat (k a w')) ->
  tame cat (bind m k w).
Proof.
  unfold bind. destruct (m w) as [a w'|e w'|]; simpl; auto.
Qed.

Lemma tame_for_each {A} (body : A -> M unit) (xs : list A) :
  (forall x w, recipes w = cat -> tame cat (body x w)) ->
  forall w, recipes w = cat -> tame cat (for_each xs body w).
Proof.
  intros Hbody. induction xs as [|x xs IH]; intros w Hw; simpl; [exact Hw|].
  apply tame_bind; [apply Hbody, Hw|]. intros _ w' _ Hw'. apply IH, Hw'.
Qed.

Lemma tame_recipe_get (name version cookbook : string) (w : world) :
  recipes w = cat -> tame cat (recipe_get name version cookbook w).
Proof.
  intros Hw. unfold recipe_get, catalog_get, bind, get.
  destruct (default ∅ (recipes w !! name) !! version) as [by_cookbook|]; simpl.
  - destruct (by_cookbook !! cookbook); simpl; [exact Hw|].
    split; [exact Hw|discriminate].
  - split; [exact Hw|discriminate].
Qed.

Lemma tame_select_tool_checked (tool : string) (w : world) :
  recipes w = cat ->
  tame cat (reraise_as (select_tool tool ;;; ret tt) (NoToolVersion tool) w).
Proof.
  intros Hw. unfold reraise_as, bind, select_tool.
  destruct (Index.get_item_version tool (sorted_tools w)) as [e|[n i]]; simpl.
  - split; [exact Hw|discriminate].
  - exact Hw.
Qed.

Lemma tame_check_required_tools (w : world) :
  recipes w = cat -> tame cat (check_required_tools w).
Proof.
  intros Hw. unfold check_required_tools.
  apply tame_bind; [exact Hw|]. intros w0 w' _ Hw'.
  apply tame_for_each; [|exact Hw']. intros [name versions] w1 Hw1.
  apply tame_for_each; [|exact Hw1]. intros each_ver w2 Hw2.
  apply tame_for_each; [|exact Hw2]. intros cookbook w3 Hw3.
  apply tame_bind; [apply tame_recipe_get, Hw3|]. intros class w4 _ Hw4.
  apply tame_for_each; [|exact Hw4]. intros tool w5 Hw5.
  apply tame_select_tool_checked, Hw5.
Qed.

End Tame.

(** [get_item_version] returns the name that the reference parses to. *)
Lemma get_item_version_name (reference : string) (i i' : index) (n : nvc) :
  Index.get_item_version reference i = inr (n, i') -> nvc_name n = ref_name reference.
Proof.
  unfold Index.get_item_version, ref_name.
  destruct (List.filter _ _) as [|e es]; [discriminate|].
  destruct (if String.eqb _ _ then _ else _) as [c|]; [|discriminate].
  intros [= <- _]. reflexivity.
Qed.

(** What a call of [__get_recipe_version] can do. *)
Lemma get_recipe_version_outcome (recipe : string) (w : world) :
  match __get_recipe_version recipe w with
  | Ok n w' => nvc_name n = ref_name recipe /\ recipes w' = recipes w
  | Raise e w' => recipes w' = recipes w /\ forall c, e <> CircularDependency c
  | Diverge => False
  end.
Proof.
  unfold __get_recipe_version, bind at 1, select_recipe.
  destruct (Index.get_item_version recipe (sorted_recipes w)) as [e|[n i]] eqn:Hsel.
  - split; [reflexivity|].
    unfold Index.get_item_version in Hsel.
    destruct (List.filter _ _); [injection Hsel as <-; discriminate|].
    destruct (if String.eqb _ _ then _ else _);
      [discriminate|injection Hsel as <-; discriminate].
  - pose proof (tame_check_required_tools (recipes w) (with_sorted_recipes i w) eq_refl) as Ht.
    unfold bind. destruct (check_required_tools _) as [[] w'|e w'|]; simpl in *.
    + split; [eapply get_item_version_name, Hsel|exact Ht].
    + exact Ht.
    + exact Ht.
Qed.

(** A class that [recipe_get] returns is in the catalog; the store is not
    touched. *)
Lemma recipe_get_ok (name version cookbook : string) (w w' : world) (class : recipe_class) :
  recipe_get name version cookbook w = Ok class w' ->
  w' = w /\ exists by_version by_cookbook,
      recipes w !! name = Some by_version
      /\ by_version !! version = Some by_cookbook
      /\ by_cookbook !! cookbook = Some class.
Proof.
  unfold recipe_get, catalog_get, bind, get.
  destruct (recipes w !! name) as [by_version|] eqn:Hn; simpl.
  - destruct (by_version !! version) as [by_cookbook|] eqn:Hv; [|discriminate].
    destruct (by_cookbook !! cookbook) as [class'|] eqn:Hc; [|discriminate].
    intros [= <- <-]. split; [reflexivity|]. eauto.
  - rewrite lookup_empty. discriminate.
Qed.

(** The dependencies of a class of a ranked catalog rank below its name. *)
Lemma ranked_dependencies (rk : string -> nat)
    (catalog : gmap string (gmap string (gmap string recipe_class)))
    (name version cookbook : string) (by_version : gmap string (gmap string recipe_class))
    (by_cookbook : gmap string recipe_class) (class : recipe_class) :
  ranked rk catalog = true ->
  catalog !! name = Some by_version ->
  by_version !! version = Some by_cookbook ->
  by_cookbook !! cookbook = Some class ->
  Forall (fun dependency => rk (ref_name (qualify cookbook dependency)) < rk name)
         (dependencies class).
Proof.
  unfold ranked. intros Hr Hn Hv Hc.
  apply bool_decide_eq_true in Hr.
  exact (Hr _ _ Hn _ _ Hv _ _ Hc).
Qed.

Lemma is_chain_base_below (rk : string -> nat) (name : string) (chain : list string) :
  below_base rk name chain -> is_chain_base name chain = false.
Proof.
  destruct chain as [|base chain]; simpl; [reflexivity|].
  intros Hlt. apply String.eqb_neq. intros ->. lia.
Qed.

Lemma identify_on_ranked (rk : string -> nat) (fuel : nat) :
  forall (recipe : string) (chain : list string) (w : world),
    ranked rk (recipes w) = true ->
    rk (ref_name recipe) < fuel ->
    below_base rk (ref_name recipe) chain ->
    match __identify_build_recipes fuel recipe chain w with
    | Ok r w' => recipes w' = recipes w /\ resolved recipe chain r
    | Raise e w' => recipes w' = recipes w /\ forall c, e <> CircularDependency c
    | Diverge => False
    end.
Proof.
  induction fuel as [|fuel IH]; intros recipe chain w Hr Hfuel Hbase; [lia|].
  simpl. unfold bind at 1.
  pose proof (get_recipe_version_outcome recipe w) as Hsel.
  destruct (__get_recipe_version recipe w) as [n w1|e w1|]; [|exact Hsel|exact Hsel].
  destruct Hsel as [Hname Hw1]. rewrite Hname.
  rewrite (is_chain_base_below rk _ _ Hbase).
  unfold bind at 1.
  destruct (recipe_get (ref_name recipe) (nvc_version n) (nvc_cookbook n) w1)
    as [class w2|e w2|] eqn:Hget.
  - apply recipe_get_ok in Hget as [-> (by_version & by_cookbook & Hn & Hv & Hc)].
    assert (Hdeps : Forall (fun d => rk (ref_name (qualify (nvc_cookbook n) d))
                                     < rk (ref_name recipe)) (dependencies class)).
    { assert (Hr1 : ranked rk (recipes w1) = true) by (rewrite Hw1; exact Hr).
      exact (ranked_dependencies rk _ _ _ _ _ _ _ Hr1 Hn Hv Hc). }
    assert (Hacc : resolved recipe chain ([recipe], chain ++ [ref_name recipe])).
    { split; simpl; [exists []; reflexivity|exists []; reflexivity]. }
    revert Hw1 Hacc Hdeps.
    generalize ([recipe], chain ++ [ref_name recipe]). generalize w1.
    induction (dependencies class) as [|d ds IHds]; intros w' acc Hw' Hacc Hdeps; simpl.
    + auto.
    + inversion Hdeps as [|? ? Hd Hds]; subst.
      destruct Hacc as [[rest Hfst] [more Hsnd]].
      unfold bind.
      assert (Hbelow : below_base rk (ref_name (qualify (nvc_cookbook n) d)) (snd acc)).
      { rewrite Hsnd. destruct chain as [|base chain']; simpl in *; lia. }
      specialize (IH (qualify (nvc_cookbook n) d) (snd acc) w').
      rewrite Hw' in IH. specialize (IH Hr ltac:(lia) Hbelow).
      destruct (__identify_build_recipes fuel (qualify (nvc_cookbook n) d) (snd acc) w')
        as [r w''|e w''|]; [|exact IH|exact IH].
      destruct IH as [Hw'' [_ [more' Hsnd']]].
      apply IHds; [congruence| |exact Hds].
      split; simpl.
      * exists (rest ++ fst r). rewrite Hfst. reflexivity.
      * exists (more ++ ref_name (qualify (nvc_cookbook n) d) :: more').
        rewrite Hsnd', Hsnd, <- app_assoc. reflexivity.
  - pose proof (tame_recipe_get (recipes w1) (ref_name recipe) (nvc_version n)
                  (nvc_cookbook n) w1 eq_refl) as Ht.
    rewrite Hget in Ht. simpl in Ht. destruct Ht as [Hw2 Hne].
    split; [congruence|exact Hne].
  - pose proof (tame_recipe_get (recipes w1) (ref_name recipe) (nvc_version n)
                  (nvc_cookbook n) w1 eq_refl) as Ht.
    rewrite Hget in Ht. exact Ht.
Qed.

(** X20.  On a catalog with a ranking of its names, which has no cycle of
    dependencies, the resolver ends for every root reference within a
    recursion depth of the rank of the root plus one.  It returns a list that
    starts with the root reference, or it raises an error of the selection;
    it does not raise the [ValueError] of the cycle check, and the catalog is
    left as it was. *)
Theorem resolver_ends_on_ranked_catalog (rk : string -> nat) (w : world)
    (fuel : nat) (recipe : string) :
  ranked rk (recipes w) = true ->
  rk (ref_name recipe) < fuel ->
  match __identify_build_recipes fuel recipe [] w with
  | Ok r w' => recipes w' = recipes w /\ resolved recipe [] r
  | Raise e w' => recipes w' = recipes w /\ forall c, e <> CircularDependency c
  | Diverge => False
  end.
Proof.
  intros Hr Hfuel. apply (identify_on_ranked rk); [exact Hr|exact Hfuel|exact I].
Qed.

(** The diamond [top -> left, right -> base]: ranked, resolved at depth 3. *)
Lemma resolver_ends_on_diamond :
  ranked Scenario.diamond_rank (recipes Scenario.diamond) = true
  /\ Scenario.diamond_rank (ref_name "local:top") < 3
  /\ match __identify_build_recipes 3 "local:top" [] Scenario.diamond with
     | Ok r w' => recipes w' = recipes Scenario.diamond /\ resolved "local:top" [] r
     | Raise e w' =>
         recipes w' = recipes Scenario.diamond /\ forall c, e <> CircularDependency c
     | Diverge => False
     end.
Proof.
  split; [vm_compute; reflexivity|]. split; [vm_compute; lia|].
  apply (resolver_ends_on_ranked_catalog Scenario.diamond_rank Scenario.diamond
           3 "local:top").
  - vm_compute; reflexivity.
  - vm_compute; lia.
Defined.

(** ** The resolver on cycles *)

(** One call of the resolver that goes past the cycle check. *)
Lemma identify_step (fuel : nat) (recipe : string) (chain : list string)
    (w w1 : world) (n : nvc) (class : recipe_class) :
  __get_recipe_version recipe w = Ok n w1 ->
  is_chain_base (nvc_name n) chain = false ->
  recipe_get (nvc_name n) (nvc_version n) (nvc_cookbook n) w1 = Ok class w1 ->
  __identify_build_recipes (S fuel) recipe chain w
  = each_dependency (__identify_build_recipes fuel) (nvc_cookbook n) (dependencies class)
      ([recipe], chain ++ [nvc_name n]) w1.
Proof.
  intros Hsel Hbase Hget. simpl. unfold bind. rewrite Hsel, Hbase, Hget. reflexivity.
Qed.

(** The cycle check: a selected name equal to the base of a chain that is
    not empty raises the [ValueError] of line 376 with the chain as it is,
    before the name is appended. *)
Lemma identify_signals_at_base (fuel : nat) (recipe : string) (chain : list string)
    (w w1 : world) (n : nvc) :
  __get_recipe_version recipe w = Ok n w1 ->
  is_chain_base (nvc_name n) chain = true ->
  __identify_build_recipes (S fuel) recipe chain w = Raise (CircularDependency chain) w1.
Proof.
  intros Hsel Hbase. simpl. unfold bind. rewrite Hsel, Hbase. reflexivity.
Qed.

(** Below the root [r], the calls for [a] and [b] of the inner cycle need
    more depth than any bound. *)
Lemma inner_cycle_unbounded (fuel : nat) :
  forall rest : list string,
    __identify_build_recipes fuel "local:a" ("r" :: rest) Scenario.inner_cycle = Diverge
    /\ __identify_build_recipes fuel "local:b" ("r" :: rest) Scenario.inner_cycle = Diverge.
Proof.
  induction fuel as [|fuel IH]; intros rest; [split; reflexivity|].
  split.
  - rewrite (identify_step fuel "local:a" ("r" :: rest) Scenario.inner_cycle
               Scenario.inner_cycle
               {| nvc_name := "a"; nvc_version := "1.0"; nvc_cookbook := "local" |}
               (Scenario.R ["b"] []));
      [|vm_compute; reflexivity..].
    simpl. unfold bind.
    change (qualify "local" "b") with "local:b".
    rewrite (proj2 (IH (rest ++ ["a"]))). reflexivity.
  - rewrite (identify_step fuel "local:b" ("r" :: rest) Scenario.inner_cycle
               Scenario.inner_cycle
               {| nvc_name := "b"; nvc_version := "1.0"; nvc_cookbook := "local" |}
               (Scenario.R ["a"] []));
      [|vm_compute; reflexivity..].
    simpl. unfold bind.
    change (qualify "local" "a") with "local:a".
    rewrite (proj1 (IH (rest ++ ["b"]))). reflexivity.
Qed.

Lemma inner_cycle_root_unbounded (fuel : nat) :
  __identify_build_recipes fuel "local:r" [] Scenario.inner_cycle = Diverge.
Proof.
  destruct fuel as [|fuel]; [reflexivity|].
  rewrite (identify_step fuel "local:r" [] Scenario.inner_cycle Scenario.inner_cycle
             {| nvc_name := "r"; nvc_version := "1.0"; nvc_cookbook := "local" |}
             (Scenario.R ["a"] []));
    [|vm_compute; reflexivity..].
  simpl. unfold bind.
  change (qualify "local" "a") with "local:a".
  rewrite (proj1 (inner_cycle_unbounded fuel [])). reflexivity.
Qed.

(** C6, at the failing input: [r] depends on [a], and [a] and [b] depend on
    each other.  The graph reachable from [r] has a cycle, and there is no
    depth of recursion at which [__identify_build_recipes("local:r", [])]
    returns or raises: the cycle is not signalled, the recursion has no
    end. *)
Lemma C6_cycle_off_the_root_is_not_signalled :
  ~ exists fuel : nat,
      __identify_build_recipes fuel "local:r" [] Scenario.inner_cycle <> Diverge.
Proof.
  intros [fuel Hends]. apply Hends, inner_cycle_root_unbounded.
Qed.

(** ** The configuration store and the loader *)

Lemma ensures_bind {A B} (m : M A) (k : A -> M B) (w : world) (Q : B -> world -> Prop) :
  ensures (m w) (fun a w' => ensures (k a w') Q) -> ensures (bind m k w) Q.
Proof. unfold bind. destruct (m w); simpl; auto. Qed.

Lemma ensures_get_put {B} (f : world -> world) (k : M B) (w : world)
    (Q : B -> world -> Prop) :
  ensures (k (f w)) Q -> ensures ((w0 <- get ;; put (f w0) ;;; k) w) Q.
Proof. intros H. exact H. Qed.

Lemma ensures_weaken {A} (o : outcome A) (P Q : A -> world -> Prop) :
  ensures o P -> (forall a w, P a w -> Q a w) -> ensures o Q.
Proof. destruct o; simpl; auto. Qed.

Lemma ensures_for_each {A} (I : world -> Prop) (body : A -> M unit) (xs : list A) :
  (forall x w, I w -> ensures (body x w) (fun _ w' => I w')) ->
  forall w, I w -> ensures (for_each xs body w) (fun _ w' => I w').
Proof.
  intros Hbody. induction xs as [|x xs IH]; intros w Hw; simpl; [exact Hw|].
  apply ensures_bind. eapply ensures_weaken; [apply Hbody, Hw|].
  intros ? w' Hw'. apply IH, Hw'.
Qed.

Section LoaderProperties.

Variable sort_cookbook_by_version :
  forall C, gmap string (gmap string C) -> index.
Variable sort_all_recipes_by_version :
  forall C, gmap string (gmap string (gmap string C)) -> index.

Variable I : world -> Prop.
Hypothesis HI : loader_invariant I.

Lemma read_cookbook_keeps (cookbook : string) (d : cookbook_dir) (w : world) :
  I w -> ensures (__read_cookbook sort_cookbook_by_version cookbook d w) (fun _ w' => I w').
Proof.
  intros Hw. unfold __read_cookbook.
  apply ensures_bind. eapply ensures_weaken;
    [apply (inv_setitem I HI); [left; discriminate|exact Hw]|].
  intros ? w1 Hw1. cbv beta in Hw1 |- *.
  apply ensures_get_put.
  apply ensures_bind. eapply ensures_weaken;
    [apply (inv_setitem I HI); [left; discriminate|];
     apply (inv_ext I HI) with (w := w1); [reflexivity..|exact Hw1]|].
  intros ? w2 Hw2. cbv beta in Hw2 |- *.
  apply ensures_get_put. unfold ret, ensures.
  apply (inv_ext I HI) with (w := w2); [reflexivity..|exact Hw2].
Qed.

Lemma read_bookshelf_keeps (w : world) :
  I w -> ensures (__read_bookshelf sort_cookbook_by_version w) (fun _ w' => I w').
Proof.
  intros Hw. unfold __read_bookshelf, bind at 1, get.
  destruct (bookshelf (host w)) as [dirs|]; [|exact Hw].
  apply ensures_bind. eapply ensures_weaken.
  - apply (ensures_for_each I); [|exact Hw].
    intros [cookbook d] w1 Hw1.
    apply ensures_bind. eapply ensures_weaken; [apply read_cookbook_keeps, Hw1|].
    intros [|] w2 Hw2; cbv beta iota in Hw2 |- *; [exact Hw2|].
    apply (inv_ext I HI) with (w := w2); [reflexivity..|exact Hw2].
  - intros ? w1 Hw1. cbv beta in Hw1 |- *.
    apply ensures_bind. eapply ensures_weaken; [apply (inv_store I HI), Hw1|].
    intros ? w2 Hw2. exact Hw2.
Qed.

Lemma read_local_recipes_keeps (w : world) :
  I w -> ensures (__read_local_recipes sort_cookbook_by_version w) (fun _ w' => I w').
Proof.
  intros Hw. unfold __read_local_recipes, bind at 1, get.
  destruct (local_dir (host w)) as [d|]; [|exact Hw].
  apply ensures_bind. eapply ensures_weaken; [apply read_cookbook_keeps, Hw|].
  intros [|] w1 Hw1; cbv beta iota in Hw1 |- *; [|exact Hw1].
  apply ensures_bind. eapply ensures_weaken;
    [apply (inv_setitem I HI); [left; discriminate|exact Hw1]|].
  intros ? w2 Hw2. cbv beta in Hw2 |- *.
  apply ensures_bind. eapply ensures_weaken;
    [apply (inv_setitem I HI); [left; discriminate|exact Hw2]|].
  intros ? w3 Hw3. cbv beta in Hw3 |- *.
  apply ensures_bind. eapply ensures_weaken;
    [apply (inv_setitem I HI); [right; reflexivity|exact Hw3]|].
  intros ? w4 Hw4. exact Hw4.
Qed.

Lemma load_recipes_keeps (w : world) :
  I w ->
  ensures (__load_recipes sort_cookbook_by_version sort_all_recipes_by_version w)
          (fun _ w' => I w').
Proof.
  intros Hw. unfold __load_recipes, bind at 1, get.
  apply ensures_bind.
  assert (H1 : ensures ((if bool_decide (recipes w = ∅) || bool_decide (tools w = ∅)
                         then __read_bookshelf sort_cookbook_by_version ;;; ret tt
                         else ret tt) w) (fun _ w' => I w')).
  { destruct (_ || _); [|exact Hw].
    apply ensures_bind. eapply ensures_weaken; [apply read_bookshelf_keeps, Hw|].
    intros ? w1 Hw1. exact Hw1. }
  eapply ensures_weaken; [exact H1|]. clear H1. intros ? w1 Hw1. cbv beta in Hw1 |- *.
  apply ensures_bind. eapply ensures_weaken; [apply read_local_recipes_keeps, Hw1|].
  intros ok w2 Hw2. cbv beta in Hw2 |- *.
  assert (H2 : ensures ((if ok then ret tt else log LogLocalLoadFailed) w2)
                       (fun _ w' => I w')).
  { destruct ok; [exact Hw2|].
    apply (inv_ext I HI) with (w := w2); [reflexivity..|exact Hw2]. }
  apply ensures_bind. eapply ensures_weaken; [exact H2|]. clear H2.
  intros ? w3 Hw3. cbv beta in Hw3 |- *.
  apply ensures_get_put. apply ensures_get_put.
  unfold bind, get.
  destruct (sorted_recipes _); unfold log, ret, ensures;
    apply (inv_ext I HI) with (w := w3); solve [reflexivity|exact Hw3].
Qed.

(** [__init__] maintains the invariant from the loading of
    [cookbooks.json] on. *)
Lemma init_keeps (w : world) :
  ensures (load_cookbooks w) (fun _ w' => I w') ->
  ensures (__init__ sort_cookbook_by_version sort_all_recipes_by_version w)
          (fun _ w' => I w').
Proof.
  intros Hload. unfold __init__.
  apply ensures_bind. eapply ensures_weaken; [exact Hload|].
  intros ? w1 Hw1. cbv beta in Hw1 |- *.
  apply ensures_bind. eapply ensures_weaken; [apply load_recipes_keeps, Hw1|].
  intros ? w2 Hw2. exact Hw2.
Qed.

End LoaderProperties.

(** The trust flag of [X] is [True]: an invariant of the loader. *)
Lemma trusted_is_loader_invariant (X : string) :
  loader_invariant (fun w => trusted_flag w X = Some (JBool true)).
Proof.
  split.
  - intros w w' Hc _. unfold trusted_flag. rewrite Hc. auto.
  - intros cookbook key v w Hkey Hw. unfold cookbook_setitem, ensures, trusted_flag. simpl.
    destruct (decide (cookbook = X)) as [->|Hne].
    + rewrite lookup_insert_eq. simpl.
      unfold trusted_flag in Hw.
      destruct (cookbooks w !! X) as [fields|]; [|discriminate]. simpl in *.
      destruct Hkey as [Hkey| ->].
      * rewrite lookup_insert_ne by congruence. exact Hw.
      * destruct (decide (key = "trusted")) as [->|Hk].
        -- apply lookup_insert_eq.
        -- rewrite lookup_insert_ne by exact Hk. exact Hw.
    + rewrite lookup_insert_ne by exact Hne. exact Hw.
  - intros w Hw. unfold store_cookbooks, __store_config, bind, get, ensures.
    destruct (config_writable (host w)); exact Hw.
Qed.

(** Whether the configuration directory can be written does not change. *)
Lemma writable_is_loader_invariant (b : bool) :
  loader_invariant (fun w => config_writable (host w) = b).
Proof.
  split.
  - intros w w' _ Hh. rewrite Hh. auto.
  - intros cookbook key v w _ Hw. exact Hw.
  - intros w Hw. unfold store_cookbooks, __store_config, bind, get, ensures.
    destruct (config_writable (host w)) eqn:Hc; simpl; congruence.
Qed.

(** What [config_trust_cookbook] does, for a known and for an unknown
    cookbook: it returns, the cookbook has ["trusted"] set to [True] in a
    dictionary that keeps its other keys, and the map is handed to the
    configuration store. *)
Lemma config_trust_cookbook_returns (X : string) (w : world) :
  exists w',
    config_trust_cookbook X w = Ok tt w'
    /\ cookbooks w'
       = <[X := <["trusted" := JBool true]> (default ∅ (cookbooks w !! X))]> (cookbooks w)
    /\ (config_writable (host w) = true -> config_files (host w') !! "cookbooks.json" = Some (cookbooks w'))
    /\ (config_writable (host w) = false ->
        host w' = host w /\ last (logger w') = Some (LogStoreFailed "cookbooks.json"))
    /\ (exists tail,
          logger w'
          = logger w
            ++ match cookbooks w !! X with None => [LogCantTrust X] | Some _ => [] end
            ++ LogNowTrusted X :: tail).
Proof.
  unfold config_trust_cookbook, store_cookbooks, __store_config, bind, get, log,
    cookbook_setitem, ret.
  destruct (cookbooks w !! X) as [fields|] eqn:HX; simpl;
    destruct (config_writable (host w)) eqn:Hwr; simpl;
    eexists; (split; [reflexivity|]); simpl; rewrite ?HX; simpl;
    repeat split; try discriminate; try reflexivity;
    try (intros _; apply last_snoc);
    try (eexists; rewrite <- ?app_assoc; simpl; reflexivity);
    try apply last_snoc;
    try (intros _; apply lookup_insert_eq).
Qed.

(** C8, the trust round trip: for a cookbook [X] of the cookbook map and a
    configuration directory that can be written, [config_trust_cookbook(X)]
    returns, and a new process started on the disk it leaves loads a
    cookbook map in which [X]["trusted"] is [True], whatever the bookshelf
    and the local directory hold. *)
Theorem C8_trust_round_trip
    (sort_cookbook_by_version : forall C, gmap string (gmap string C) -> index)
    (sort_all_recipes_by_version :
       forall C, gmap string (gmap string (gmap string C)) -> index)
    (X : string) (w : world) :
  is_Some (cookbooks w !! X) ->
  config_writable (host w) = true ->
  exists w1 w2,
    config_trust_cookbook X w = Ok tt w1
    /\ __init__ sort_cookbook_by_version sort_all_recipes_by_version (new_process (host w1))
       = Ok tt w2
    /\ trusted_flag w2 X = Some (JBool true).
Proof.
  intros _ Hwr.
  destruct (config_trust_cookbook_returns X w) as (w1 & Hrun & Hmap & Hjson & _).
  specialize (Hjson Hwr).
  pose proof (init_keeps sort_cookbook_by_version sort_all_recipes_by_version _
                (trusted_is_loader_invariant X) (new_process (host w1))) as Hinit.
  assert (Hload : ensures (load_cookbooks (new_process (host w1)))
                          (fun _ w' => trusted_flag w' X = Some (JBool true))).
  { unfold load_cookbooks, __load_config, bind, get, put, ret. simpl.
    rewrite Hjson. simpl. unfold trusted_flag. simpl.
    rewrite (right_id_L ∅ (∪)), Hmap, lookup_insert_eq. simpl.
    apply lookup_insert_eq. }
  specialize (Hinit Hload).
  destruct (__init__ sort_cookbook_by_version sort_all_recipes_by_version
              (new_process (host w1))) as [[] w2| |] eqn:Hrun2;
    simpl in Hinit; [|contradiction..].
  exists w1, w2. auto.
Qed.

(** The round trip on the catalog [in_use], for its cookbook [acme], which is
    not trusted before. *)
Lemma C8_trust_round_trip_acme :
  trusted_flag Scenario.in_use "acme" = Some (JBool false)
  /\ exists w1 w2,
      config_trust_cookbook "acme" Scenario.in_use = Ok tt w1
      /\ __init__ Scenario.no_index Scenario.no_index_all (new_process (host w1)) = Ok tt w2
      /\ trusted_flag w2 "acme" = Some (JBool true).
Proof.
  split; [vm_compute; reflexivity|].
  apply (C8_trust_round_trip Scenario.no_index Scenario.no_index_all "acme" Scenario.in_use).
  - vm_compute. eexists. reflexivity.
  - reflexivity.
Defined.

(** [config_add_cookbook] on any store: it returns, the cookbook is trusted,
    and the map is handed to the configuration store. *)
Lemma config_add_cookbook_returns (cookbook author url : string) (w : world) :
  exists w',
    config_add_cookbook cookbook author url w = Ok tt w'
    /\ trusted_flag w' cookbook = Some (JBool true)
    /\ (config_writable (host w) = true -> config_files (host w') !! "cookbooks.json" = Some (cookbooks w'))
    /\ (config_writable (host w) = false ->
        host w' = host w /\ last (logger w') = Some (LogStoreFailed "cookbooks.json")).
Proof.
  unfold config_add_cookbook, store_cookbooks, __store_config, bind, get,
    cookbook_setitem, ret. simpl.
  destruct (config_writable (host w)) eqn:Hwr; simpl;
    eexists; (split; [reflexivity|]); unfold trusted_flag; simpl;
    rewrite !lookup_insert_eq; simpl; rewrite lookup_insert_eq;
    repeat split; try discriminate; try reflexivity;
    try (intros; apply last_snoc);
    try (intros; apply lookup_insert_eq).
Qed.

(** C9: the command [cookbook add] does not read its [yes] flag; on any disk
    it returns with the added cookbook trusted, and the cookbook map with
    that flag is handed to the configuration store (written when the
    directory can be written, a warning otherwise).  Nothing is asked. *)
Theorem C9_cookbook_add_trusts_unconditionally
    (sort_cookbook_by_version : forall C, gmap string (gmap string C) -> index)
    (sort_all_recipes_by_version :
       forall C, gmap string (gmap string (gmap string C)) -> index)
    (d : disk) (cookbook author url : string) (yes : bool) :
  cookbook_add sort_cookbook_by_version sort_all_recipes_by_version cookbook author url yes
  = cookbook_add sort_cookbook_by_version sort_all_recipes_by_version cookbook author url
      (negb yes)
  /\ exists w',
      cookbook_add sort_cookbook_by_version sort_all_recipes_by_version
        cookbook author url yes (new_process d) = Ok tt w'
      /\ trusted_flag w' cookbook = Some (JBool true)
      /\ (config_writable d = true -> config_files (host w') !! "cookbooks.json" = Some (cookbooks w'))
      /\ (config_writable d = false ->
          last (logger w') = Some (LogStoreFailed "cookbooks.json")).
Proof.
  split; [reflexivity|].
  pose proof (init_keeps sort_cookbook_by_version sort_all_recipes_by_version _
                (writable_is_loader_invariant (config_writable d)) (new_process d)) as Hinit.
  assert (Hload : ensures (load_cookbooks (new_process d))
                          (fun _ w' => config_writable (host w') = config_writable d)).
  { unfold load_cookbooks, __load_config, bind, get, put, ret. simpl.
    destruct (config_files d !! "cookbooks.json"); reflexivity. }
  specialize (Hinit Hload).
  unfold cookbook_add, bind at 1.
  destruct (__init__ sort_cookbook_by_version sort_all_recipes_by_version (new_process d))
    as [[] w1| |]; simpl in Hinit; [|contradiction..].
  destruct (config_add_cookbook_returns cookbook author url w1)
    as (w' & Hrun & Htrust & Hyes & Hno).
  exists w'. rewrite Hinit in Hyes, Hno.
  split; [exact Hrun|]. split; [exact Htrust|]. split; [exact Hyes|].
  intros Hd. apply Hno, Hd.
Qed.

(** C10: for a cookbook [X] that the cookbook map does not have,
    [config_trust_cookbook(X)] logs the error of line 862 and goes on: the
    information of line 866 follows in the log, the map gets the entry
    [X: {"trusted": True}], and the map is handed to the configuration store
    (written when the directory can be written, a warning otherwise). *)
Theorem C10_unknown_cookbook_is_trusted_anyway (X : string) (w : world) :
  cookbooks w !! X = None ->
  exists w',
    config_trust_cookbook X w = Ok tt w'
    /\ cookbooks w' = <[X := {[ "trusted" := JBool true ]}]> (cookbooks w)
    /\ (exists tail, logger w' = logger w ++ LogCantTrust X :: LogNowTrusted X :: tail)
    /\ (config_writable (host w) = true -> config_files (host w') !! "cookbooks.json" = Some (cookbooks w'))
    /\ (config_writable (host w) = false ->
        last (logger w') = Some (LogStoreFailed "cookbooks.json")).
Proof.
  intros HX.
  destruct (config_trust_cookbook_returns X w) as (w' & Hrun & Hmap & Hyes & Hno & Hlog).
  rewrite HX in Hmap, Hlog. simpl in Hmap, Hlog.
  exists w'. split; [exact Hrun|]. split.
  - rewrite Hmap, insert_empty. reflexivity.
  - split; [exact Hlog|]. split; [exact Hyes|]. intros Hwr. apply Hno, Hwr.
Qed.

(** [config_trust_cookbook("typo")] on the catalog [in_use], which has the
    cookbook [acme] only. *)
Lemma C10_unknown_cookbook_typo :
  cookbooks Scenario.in_use !! "typo" = None
  /\ exists w',
      config_trust_cookbook "typo" Scenario.in_use = Ok tt w'
      /\ cookbooks w' = <["typo" := {[ "trusted" := JBool true ]}]> (cookbooks Scenario.in_use)
      /\ (exists tail,
            logger w'
            = logger Scenario.in_use ++ LogCantTrust "typo" :: LogNowTrusted "typo" :: tail)
      /\ (config_writable (host Scenario.in_use) = true ->
          config_files (host w') !! "cookbooks.json" = Some (cookbooks w'))
      /\ (config_writable (host Scenario.in_use) = false ->
          last (logger w') = Some (LogStoreFailed "cookbooks.json")).
Proof.
  split; [vm_compute; reflexivity|].
  apply (C10_unknown_cookbook_is_trusted_anyway "typo" Scenario.in_use).
  vm_compute; reflexivity.
Defined.

(** * More properties *)

(** ** Loops, whatever their outcome *)

Lemma always_bind {A B} (I : world -> Prop) (m : M A) (k : A -> M B) (w : world) :
  always I (m w) ->
  (forall a w', m w = Ok a w' -> I w' -> always I (k a w')) ->
  always I (bind m k w).
Proof.
  unfold bind. destruct (m w) as [a w'| |]; simpl; auto.
Qed.

Lemma always_for_each {A} (I : world -> Prop) (body : A -> M unit) (xs : list A) :
  (forall x w, In x xs -> I w -> always I (body x w)) ->
  forall w, I w -> always I (for_each xs body w).
Proof.
  induction xs as [|x xs IH]; intros Hbody w Hw; simpl; [exact Hw|].
  apply always_bind.
  - apply Hbody; [left; reflexivity|exact Hw].
  - intros ? w' _ Hw'. apply IH; [|exact Hw'].
    intros y w0 Hy. apply Hbody. right. exact Hy.
Qed.

Lemma always_fold_m {A St} (I : world -> Prop) (body : St -> A -> M St) (xs : list A) :
  (forall s x w, I w -> always I (body s x w)) ->
  forall s w, I w -> always I (fold_m body xs s w).
Proof.
  intros Hbody. induction xs as [|x xs IH]; intros s w Hw; simpl; [exact Hw|].
  apply always_bind; [apply Hbody, Hw|]. intros s' w' _ Hw'. apply IH, Hw'.
Qed.

Lemma always_weaken {A} (I J : world -> Prop) (o : outcome A) :
  always I o -> (forall w, I w -> J w) -> always J o.
Proof. destruct o; simpl; auto. Qed.

(** A loop with an element on which the body cannot return does not
    return. *)
Lemma for_each_stops {A} (body : A -> M unit) (xs : list A) (x : A) :
  In x xs ->
  (forall w, returned (body x w) = None) ->
  forall w, returned (for_each xs body w) = None.
Proof.
  induction xs as [|y ys IH]; intros Hin Hx w; [contradiction|].
  simpl. unfold bind. destruct Hin as [->|Hin].
  - specialize (Hx w). destruct (body x w); [discriminate|reflexivity..].
  - destruct (body y w); [apply IH; assumption|reflexivity..].
Qed.

(** ** The builder is never run *)

(** The outcomes of [__build_recipe], by cases on the gate and on the
    version. *)
Lemma build_private_outcome (recipe : string) (version_arg : pyversion)
    (cookbook : string) (tc : toolchain) (w : world) :
  match __build_recipe recipe version_arg cookbook tc w with
  | Ok r w' =>
      r_success r = false
      /\ (forall e, version_arg = VEntry e -> r_time_elapsed r = false)
      /\ probes w' = probes w /\ results w' = results w
      /\ sorted_recipes w' = sorted_recipes w /\ sorted_tools w' = sorted_tools w
  | Raise _ w' =>
      probes w' = probes w /\ results w' = results w
      /\ sorted_recipes w' = sorted_recipes w /\ sorted_tools w' = sorted_tools w
  | Diverge => False
  end.
Proof.
  unfold __build_recipe, bind, cookbook_getitem, log, get, ret, raise, first_entry.
  destruct (cookbooks w !! cookbook) as [fields|] eqn:Hc; simpl; [|auto].
  destruct (fields !! "trusted") as [t|]; simpl; [|auto].
  destruct (truthy t); simpl.
  - destruct version_arg as [[|c s]|e]; simpl.
    + destruct (Index.lookup recipe (sorted_recipes w)); simpl; auto.
    + destruct (default ∅ (recipes w !! recipe) !! String c s); simpl; [auto|].
      repeat split; auto. discriminate.
    + auto.
  - rewrite Hc. destruct (fields !! "url"); simpl; [|auto].
    repeat split; auto.
Qed.

(** X1.  [__build_recipe], whatever its arguments and the store: it does not
    return a record with [success] set, since line 311 raises whenever it is
    reached with a version that is found.  It probes nothing and leaves the
    results and the indices alone; with the index entry that [build_recipe]
    passes as [version], a record that it returns has no ["time elapsed"].
    It ends: it returns or raises. *)
Theorem builder_is_never_run (recipe : string) (version_arg : pyversion)
    (cookbook : string) (tc : toolchain) (w : world) :
  match __build_recipe recipe version_arg cookbook tc w with
  | Ok r w' =>
      r_success r = false
      /\ (forall e, version_arg = VEntry e -> r_time_elapsed r = false)
      /\ probes w' = probes w /\ results w' = results w
      /\ sorted_recipes w' = sorted_recipes w /\ sorted_tools w' = sorted_tools w
  | Raise _ w' =>
      probes w' = probes w /\ results w' = results w
      /\ sorted_recipes w' = sorted_recipes w /\ sorted_tools w' = sorted_tools w
  | Diverge => False
  end.
Proof. apply build_private_outcome. Qed.

(** ** A build that is not a dry run does not return *)

(** [print_results] on results that hold a record without ["time elapsed"]. *)
Lemma print_results_stops (w : world) (r : build_result) :
  In r (results w) -> r_time_elapsed r = false -> returned (print_results w) = None.
Proof.
  intros Hin Hr. unfold print_results, bind, get.
  apply (for_each_stops _ _ r Hin). intros w0. rewrite Hr. reflexivity.
Qed.

(** The first recipe of a run that is not a dry run: the step raises, or it
    sets [failure] and appends a record without ["time elapsed"]. *)
Lemma first_build_step (cookbook : string) (tc : toolchain) (i j : nat)
    (recipe : string) (d : driver) (w : world) :
  failure d = false ->
  match build_step cookbook tc false i j recipe d w with
  | Ok d' w' =>
      failure d' = true
      /\ exists r, results w' = results w ++ [r] /\ r_time_elapsed r = false
  | Raise _ _ => True
  | Diverge => False
  end.
Proof.
  intros Hd. unfold build_step. rewrite Hd. unfold bind at 1, get.
  unfold bind at 1, first_entry.
  destruct (Index.lookup recipe (sorted_recipes w)) as [|e es]; [exact I|].
  unfold ret at 1. unfold bind at 1.
  pose proof (build_private_outcome recipe (VEntry e) cookbook tc w) as Hb.
  destruct (__build_recipe recipe (VEntry e) cookbook tc w) as [r w1| |];
    [|exact I|exact Hb].
  destruct Hb as (Hs & He & _ & Hres & _).
  unfold bind, results_append, ret. simpl. rewrite Hs. split; [reflexivity|].
  exists r. rewrite Hres. split; [reflexivity|]. apply (He e). reflexivity.
Qed.

Lemma run_plan_stops (cookbook : string) (tc : toolchain)
    (batches : list (list string)) (w : world) :
  plan_positions batches <> [] ->
  returned (run_plan cookbook tc false batches w) = None.
Proof.
  intros Hplan. unfold run_plan, bind at 1. rewrite build_loop_positions.
  destruct (plan_positions batches) as [|[[i j] recipe] ps]; [congruence|].
  unfold run_positions. cbn [fold_m]. unfold bind at 1.
  pose proof (first_build_step cookbook tc i j recipe {| idx := 0; failure := false |} w
                eq_refl) as Hstep.
  destruct (build_step cookbook tc false i j recipe {| idx := 0; failure := false |} w)
    as [d1 w1| |]; [|reflexivity..].
  destruct Hstep as (Hf & r & Hres & Hr).
  pose proof (run_positions_after_failure cookbook tc ps d1 w1 Hf) as Hrest.
  unfold run_positions in Hrest. rewrite Hrest.
  unfold bind.
  assert (Hstop : returned (print_results
                    (with_logger (logger w1 ++ map (fun p => LogSkipping (snd p)) ps) w1))
                  = None).
  { apply (print_results_stops _ r); [|exact Hr]. simpl. rewrite Hres.
    apply in_or_app. right. left. reflexivity. }
  destruct (print_results _); [discriminate|reflexivity..].
Qed.

(** X2.  The driver of lines 597-634 on a plan with a recipe, not as a dry run:
    it does not return.  The first recipe is refused by the gate or raises;
    a refusal leaves a record that [print_results] cannot print. *)
Theorem run_plan_does_not_return (cookbook : string) (tc : toolchain)
    (batches : list (list string)) (w : world) :
  plan_positions batches <> [] ->
  returned (run_plan cookbook tc false batches w) = None.
Proof. apply run_plan_stops. Qed.

Lemma run_plan_does_not_return_mixed :
  plan_positions [["x"]; ["app"]] <> []
  /\ returned (run_plan "evil" [] false [["x"]; ["app"]] Scenario.mixed) = None
  /\ raised (run_plan "evil" [] false [["x"]; ["app"]] Scenario.mixed)
     = Some (KeyError (KStr "time elapsed")).
Proof.
  split; [discriminate|]. split; [|vm_compute; reflexivity].
  apply (run_plan_does_not_return "evil" [] [["x"]; ["app"]] Scenario.mixed).
  discriminate.
Defined.

(** The list that the resolver returns starts with the reference it was
    given. *)
Lemma each_dependency_head
    (self : string -> list string -> M (list string * list string))
    (cookbook x : string) (ds : list string) :
  forall (acc r : list string * list string) (w w' : world),
    (exists rest, fst acc = x :: rest) ->
    each_dependency self cookbook ds acc w = Ok r w' ->
    exists rest, fst r = x :: rest.
Proof.
  induction ds as [|d ds IH]; intros acc r w w' Hacc Hrun.
  - injection Hrun as <- _. exact Hacc.
  - rewrite each_dependency_cons in Hrun.
    destruct (self (qualify cookbook d) (snd acc) w) as [r1 w1| |]; [|discriminate..].
    apply (IH _ _ _ _) in Hrun; [exact Hrun|].
    destruct Hacc as [rest Hrest]. exists (rest ++ fst r1). simpl. rewrite Hrest. reflexivity.
Qed.

Lemma identify_head (fuel : nat) (recipe : string) (chain : list string)
    (w w' : world) (r : list string * list string) :
  __identify_build_recipes fuel recipe chain w = Ok r w' ->
  exists rest, fst r = recipe :: rest.
Proof.
  destruct fuel as [|fuel]; [discriminate|]. rewrite identify_S.
  destruct (__get_recipe_version recipe w) as [n w1| |]; [|discriminate..].
  destruct (is_chain_base (nvc_name n) chain); [discriminate|].
  destruct (recipe_get _ _ _ w1) as [class w2| |]; [|discriminate..].
  apply each_dependency_head. exists []. reflexivity.
Qed.

Lemma deps_store_nonempty (name : string) (ds : list string) (m : deps_map) :
  deps_store name ds m <> [].
Proof. destruct m as [|[n d] m]; simpl; [|destruct (String.eqb n name)]; discriminate. Qed.

Lemma build_name_to_deps_nonempty (all_recipes : list string) :
  forall (m0 m : deps_map) (w w' : world),
    m0 <> [] \/ all_recipes <> [] ->
    fold_m (fun name_to_deps recipe =>
              nvc <- __get_recipe_version recipe ;;
              recipe_class <- recipe_get (nvc_name nvc) (nvc_version nvc) (nvc_cookbook nvc) ;;
              names <- map_m (fun dependency =>
                                d <- __get_recipe_version dependency ;;
                                nvc_getitem d (KInt 0))
                             (dependencies recipe_class) ;;
              ret (deps_store (nvc_name nvc) (set_of names) name_to_deps))
           all_recipes m0 w = Ok m w' ->
    m <> [].
Proof.
  induction all_recipes as [|recipe rest IH]; intros m0 m w w' Hne Hrun.
  - injection Hrun as <- _. destruct Hne as [H|H]; [exact H|congruence].
  - cbn [fold_m] in Hrun. unfold bind at 1 in Hrun.
    match type of Hrun with
    | match ?step with _ => _ end = _ => destruct step as [m1 w1| |] eqn:Hstep
    end; [|discriminate..].
    apply (IH _ _ _ _) in Hrun; [exact Hrun|]. left.
    unfold bind in Hstep.
    destruct (__get_recipe_version recipe w) as [n w2| |]; [|discriminate..].
    destruct (recipe_get _ _ _ w2) as [class w3| |]; [|discriminate..].
    destruct (map_m _ (dependencies class) w3) as [names w4| |]; [|discriminate..].
    injection Hstep as <- _. apply deps_store_nonempty.
Qed.

(** What [__get_build_batches] returns, when it returns: one batch, not
    empty. *)
Lemma planner_returns_single_batch (fuel : nat) (recipe : string) (w w' : world)
    (bs : list (list string)) :
  __get_build_batches fuel recipe w = Ok bs w' -> exists k ks, bs = [k :: ks].
Proof.
  unfold __get_build_batches, bind at 1.
  destruct (__identify_build_recipes fuel recipe [] w) as [r w1| |] eqn:Hid;
    [|discriminate..].
  destruct (identify_head _ _ _ _ _ _ Hid) as [rest Hrest].
  unfold bind at 1.
  destruct (build_name_to_deps (set_of (fst r)) w1) as [m w2| |] eqn:Hmap;
    [|discriminate..].
  pose proof (build_name_to_deps_empty_sets _ _ _ _ Hmap) as Hempty.
  assert (Hm : m <> []).
  { unfold build_name_to_deps in Hmap.
    apply (build_name_to_deps_nonempty _ _ _ _ _) in Hmap; [exact Hmap|].
    right. rewrite Hrest. discriminate. }
  destruct m as [|e m']; [congruence|].
  cbn [length batches_loop]. set (m := e :: m') in *.
  rewrite (ready_names_all m Hempty).
  destruct (map fst m) as [|k ks] eqn:Hk; [discriminate|].
  rewrite <- Hk, remove_ready_all.
  destruct (length m'); intros [= <- _]; subst m; simpl; eauto.
Qed.

(** X3.  [build_recipe] with [dry_run=False], on every catalog and for every
    argument: it does not return.  When the plan and the toolchain are
    there, the first recipe is refused by the gate or raises, and a refusal
    ends in the [KeyError] of [print_results]. *)
Theorem build_recipe_does_not_return (fuel : nat) (recipe version cookbook : string)
    (w : world) :
  returned (build_recipe fuel recipe version cookbook false w) = None.
Proof.
  unfold build_recipe, bind at 1.
  destruct (__get_build_batches fuel (recipe_str recipe version cookbook) w)
    as [bs w1| |] eqn:Hplan; [|reflexivity..].
  destruct (planner_returns_single_batch _ _ _ _ _ Hplan) as (k & ks & ->).
  unfold bind at 1.
  destruct (validate_toolchain [k :: ks] w1) as [tc w2| |]; [|reflexivity..].
  unfold bind at 1, ret at 1.
  apply run_plan_stops. discriminate.
Qed.

(** ** What a method leaves alone *)

Section Keeps.

Variable R : world -> world -> Prop.
Hypothesis R_refl : forall w, R w w.
Hypothesis R_trans : forall w1 w2 w3, R w1 w2 -> R w2 w3 -> R w1 w3.

Lemma keeps_ret {A} (a : A) : keeps R (ret a).
Proof. intros w. apply R_refl. Qed.

Lemma keeps_raise {A} (e : exn) : keeps R (@raise A e).
Proof. intros w. apply R_refl. Qed.

Lemma keeps_bind {A B} (m : M A) (k : A -> M B) :
  keeps R m -> (forall a, keeps R (k a)) -> keeps R (bind m k).
Proof.
  intros Hm Hk w. unfold bind. specialize (Hm w).
  destruct (m w) as [a w1| |]; simpl in *; [|exact Hm|exact I].
  specialize (Hk a w1). destruct (k a w1); simpl in *; eauto.
Qed.

Lemma keeps_get {B} (k : world -> M B) :
  (forall w, keeps R (k w)) -> keeps R (bind get k).
Proof. intros Hk w. exact (Hk w w). Qed.

Lemma keeps_for_each {A} (body : A -> M unit) (xs : list A) :
  (forall x, keeps R (body x)) -> keeps R (for_each xs body).
Proof.
  intros Hbody. induction xs as [|x xs IH]; simpl; [apply keeps_ret|].
  apply keeps_bind; [apply Hbody|]. intros _. exact IH.
Qed.

Lemma keeps_fold_m {A St} (body : St -> A -> M St) (xs : list A) :
  (forall s x, keeps R (body s x)) -> forall s, keeps R (fold_m body xs s).
Proof.
  intros Hbody. induction xs as [|x xs IH]; intros s; simpl; [apply keeps_ret|].
  apply keeps_bind; [apply Hbody|]. exact IH.
Qed.

Lemma keeps_fold_enumerate {A St} (body : nat -> A -> St -> M St) (xs : list A) :
  (forall i x s, keeps R (body i x s)) ->
  forall i s, keeps R (fold_enumerate i body xs s).
Proof.
  intros Hbody. induction xs as [|x xs IH]; intros i s; simpl; [apply keeps_ret|].
  apply keeps_bind; [apply Hbody|]. intros s'. apply IH.
Qed.

Lemma keeps_map_m {A B} (f : A -> M B) (xs : list A) :
  (forall x, keeps R (f x)) -> keeps R (map_m f xs).
Proof.
  intros Hf. induction xs as [|x xs IH]; simpl; [apply keeps_ret|].
  apply keeps_bind; [apply Hf|]. intros y.
  apply keeps_bind; [exact IH|]. intros ys. apply keeps_ret.
Qed.

Lemma keeps_reraise_as {A} (m : M A) (e : exn) : keeps R m -> keeps R (reraise_as m e).
Proof.
  intros Hm w. unfold reraise_as. specialize (Hm w). destruct (m w); exact Hm.
Qed.

End Keeps.

Lemma untouched_refl (w : world) : untouched w w.
Proof. repeat split. Qed.

Lemma untouched_trans (w1 w2 w3 : world) :
  untouched w1 w2 -> untouched w2 w3 -> untouched w1 w3.
Proof. unfold untouched. intros (?&?&?&?&?) (?&?&?&?&?). repeat split; congruence. Qed.

Lemma unprobed_refl (w : world) : unprobed w w.
Proof. split; [apply untouched_refl|reflexivity]. Qed.

Lemma unprobed_trans (w1 w2 w3 : world) :
  unprobed w1 w2 -> unprobed w2 w3 -> unprobed w1 w3.
Proof.
  intros [H1 P1] [H2 P2]. split; [eapply untouched_trans; eassumption|congruence].
Qed.

Lemma keeps_unprobed_untouched {A} (m : M A) : keeps unprobed m -> keeps untouched m.
Proof.
  intros Hm w. specialize (Hm w). unfold unprobed in Hm.
  destruct (m w); simpl in *; tauto.
Qed.

Ltac frame_side :=
  first [ exact unprobed_refl | exact unprobed_trans
        | exact untouched_refl | exact untouched_trans ].

(** The elementary steps of resolution change the indices and the log only. *)
Lemma keeps_select_recipe (reference : string) : keeps unprobed (select_recipe reference).
Proof.
  intros w. unfold select_recipe.
  destruct (Index.get_item_version reference (sorted_recipes w)) as [e|[n i]];
    repeat split.
Qed.

Lemma keeps_select_tool (reference : string) : keeps unprobed (select_tool reference).
Proof.
  intros w. unfold select_tool.
  destruct (Index.get_item_version reference (sorted_tools w)) as [e|[n i]];
    repeat split.
Qed.

Lemma keeps_log (r : log_record) : keeps unprobed (log r).
Proof. intros w. repeat split. Qed.

Lemma keeps_catalog_get {C} (catalog : gmap string (gmap string (gmap string C)))
    (name version cookbook : string) :
  keeps unprobed (catalog_get catalog name version cookbook).
Proof.
  intros w. unfold catalog_get.
  destruct (default ∅ (catalog !! name) !! version) as [by_cookbook|];
    [destruct (by_cookbook !! cookbook)|]; repeat split.
Qed.

Lemma keeps_recipe_get (name version cookbook : string) :
  keeps unprobed (recipe_get name version cookbook).
Proof. apply (keeps_get unprobed). intros w. apply keeps_catalog_get. Qed.

Lemma keeps_tool_get (name version cookbook : string) :
  keeps unprobed (tool_get name version cookbook).
Proof. apply (keeps_get unprobed). intros w. apply keeps_catalog_get. Qed.

Lemma keeps_first_entry (i : index) (name : string) : keeps unprobed (first_entry i name).
Proof.
  intros w. unfold first_entry. destruct (Index.lookup name i); repeat split.
Qed.

Lemma keeps_first_cookbook (e : entry) : keeps unprobed (first_cookbook e).
Proof.
  intros w. unfold first_cookbook. destruct (cookbooks_of e); repeat split.
Qed.

Ltac frame_bind := apply keeps_bind; [frame_side .. | | intro].
Ltac frame_each :=
  first [ apply keeps_for_each | apply keeps_fold_m | apply keeps_map_m ];
  [frame_side .. | intros].

Lemma keeps_get_recipe_version (recipe : string) :
  keeps unprobed (__get_recipe_version recipe).
Proof.
  unfold __get_recipe_version.
  frame_bind; [apply keeps_select_recipe|].
  frame_bind; [|apply keeps_ret; frame_side].
  unfold check_required_tools.
  apply keeps_get; intros w0.
  frame_each. destruct x as [name versions].
  frame_each. frame_each.
  frame_bind; [apply keeps_recipe_get|].
  frame_each. apply keeps_reraise_as.
  frame_bind; [apply keeps_select_tool|]. apply keeps_ret; frame_side.
Qed.

Lemma keeps_identify (fuel : nat) :
  forall recipe chain, keeps unprobed (__identify_build_recipes fuel recipe chain).
Proof.
  induction fuel as [|fuel IH]; intros recipe chain; [intros w; exact I|].
  cbn [__identify_build_recipes].
  frame_bind; [apply keeps_get_recipe_version|].
  destruct (is_chain_base (nvc_name a) chain); [apply keeps_raise; frame_side|].
  frame_bind; [apply keeps_recipe_get|].
  generalize ([recipe], chain ++ [nvc_name a]).
  induction (dependencies a0) as [|d ds IHds]; intros acc; simpl.
  - apply keeps_ret; frame_side.
  - frame_bind; [apply IH|]. apply IHds.
Qed.

Lemma keeps_batches_loop (rounds : nat) :
  forall m batches, keeps unprobed (batches_loop rounds m batches).
Proof.
  induction rounds as [|rounds IH]; intros m batches w;
    (destruct m as [|e m']; [repeat split|]); [exact I|].
  cbn [batches_loop]. destruct (ready_names (e :: m')); [repeat split|apply IH].
Qed.

Lemma keeps_get_build_batches (fuel : nat) (recipe : string) :
  keeps unprobed (__get_build_batches fuel recipe).
Proof.
  unfold __get_build_batches.
  frame_bind; [apply keeps_identify|].
  frame_bind; [|apply keeps_batches_loop].
  unfold build_name_to_deps.
  frame_each.
  frame_bind; [apply keeps_get_recipe_version|].
  frame_bind; [apply keeps_recipe_get|].
  frame_bind; [|apply keeps_ret; frame_side].
  frame_each.
  frame_bind; [apply keeps_get_recipe_version|].
  intros w. unfold nvc_getitem, raise. repeat split.
Qed.

(** The toolchain probe: it records its probes, and changes the tool index
    and the log. *)
Lemma keeps_run_detect (name version cookbook : string) (c : tool_class) :
  keeps untouched (run_detect name version cookbook c).
Proof. intros w. repeat split. Qed.

Lemma keeps_validate_toolchain (batches : list (list string)) :
  keeps untouched (validate_toolchain batches).
Proof.
  pose proof (fun A (m : M A) => @keeps_unprobed_untouched A m) as Hu.
  unfold validate_toolchain.
  frame_bind.
  { apply Hu. unfold collect_preferred.
    frame_each. frame_each.
    apply keeps_get; intros w0.
    frame_bind; [apply keeps_first_entry|].
    frame_bind; [apply keeps_first_cookbook|].
    frame_bind; [apply keeps_recipe_get|].
    frame_each.
    frame_bind; [apply keeps_select_tool|]. apply keeps_ret; frame_side. }
  frame_bind.
  { frame_each. unfold probe_tool. destruct x as [[pn pv] pc].
    frame_bind; [apply Hu, keeps_tool_get|].
    frame_bind; [apply keeps_run_detect|].
    destruct a1.
    - frame_bind; [apply Hu, keeps_log|]. apply keeps_ret; frame_side.
    - frame_bind; [apply Hu, keeps_log|].
      apply keeps_get; intros w0.
      frame_bind.
      2:{ destruct (fst a2); apply keeps_ret; frame_side. }
      assert (Halt : forall alts st,
                 keeps untouched (fold_m (try_alternative pn) alts st)).
      { intros alts st0. apply keeps_fold_m; [frame_side..|]. intros st1 alt.
        unfold try_alternative.
        frame_bind.
        { unfold alternative_class. apply keeps_get; intros w1.
          destruct (default ∅ (tools w1 !! pn) !! version alt) as [bc|];
            [|apply keeps_raise; frame_side].
          frame_bind; [apply Hu, keeps_first_cookbook|].
          destruct (bc !! a2); [apply keeps_ret|apply keeps_raise]; frame_side. }
        frame_bind; [apply Hu, keeps_first_cookbook|].
        frame_bind; [apply keeps_run_detect|].
        destruct a4.
        - frame_bind; [apply Hu, keeps_select_tool|].
          frame_bind; [apply Hu, keeps_log|]. apply keeps_ret; frame_side.
        - frame_bind; [apply Hu, keeps_log|]. apply keeps_ret; frame_side. }
      destruct (Index.lookup pn (sorted_tools w0)) as [|e0 [|e1 es]];
        try (apply keeps_ret; frame_side).
      frame_bind; [apply Hu, keeps_log|]. apply Halt. }
  frame_bind.
  { unfold report_missing. destruct (snd a0) as [|t ts]; [apply keeps_ret; frame_side|].
    frame_bind; [apply Hu, keeps_log|].
    frame_bind; [|apply keeps_raise; frame_side].
    frame_each.
    destruct (Nat.ltb (String.length x) 2);
      [apply keeps_raise; frame_side|apply Hu, keeps_log]. }
  frame_bind; [apply Hu, keeps_log|]. apply keeps_ret; frame_side.
Qed.

(** ** The planner loop *)

Lemma remove_ready_keeps_key (ready : list string) (m : deps_map) (x : string) :
  In x (map fst m) -> Index.mem x ready = false -> In x (map fst (remove_ready ready m)).
Proof.
  intros Hin Hmem. apply in_map_iff in Hin. destruct Hin as ([x' ds] & Hx & Hin).
  simpl in Hx. subst x'. unfold remove_ready. apply in_map_iff.
  exists (x, List.filter (fun d => negb (Index.mem d ready)) ds). split; [reflexivity|].
  apply in_map_iff. exists (x, ds). split; [reflexivity|].
  apply filter_In. split; [exact Hin|]. rewrite Hmem. reflexivity.
Qed.

Lemma batches_loop_outcome (rounds : nat) :
  forall (m : deps_map) (emitted : list (list string)) (w : world),
    length m <= rounds ->
    match batches_loop rounds m emitted w with
    | Ok bs w' =>
        w' = w
        /\ (forall x, In x (map fst m) \/ In x (concat emitted) -> In x (concat bs))
        /\ (forall B, In B bs -> In B emitted \/ B <> [])
    | Raise e w' =>
        w' = w /\ e = TypeError "Object of type set is not JSON serializable"
    | Diverge => False
    end.
Proof.
  induction rounds as [|rounds IH]; intros m emitted w Hlen.
  - destruct m; [|simpl in Hlen; lia]. simpl. repeat split; auto.
    intros x [[]|H]; exact H.
  - destruct m as [|e m'].
    { simpl. repeat split; auto. intros x [[]|H]; exact H. }
    cbn [batches_loop]. set (m := e :: m') in *.
    destruct (ready_names m) as [|y ready] eqn:Hready; [split; reflexivity|].
    rewrite <- Hready.
    assert (Hy : In y (ready_names m)) by (rewrite Hready; left; reflexivity).
    pose proof (remove_ready_shorter m y Hy) as Hshort.
    specialize (IH (remove_ready (ready_names m) m) (emitted ++ [ready_names m]) w
                   ltac:(lia)).
    destruct (batches_loop rounds _ _ w) as [bs w'| |]; [|exact IH..].
    destruct IH as (Hw & Hall & Hne). split; [exact Hw|]. split.
    + intros x Hx. apply Hall. rewrite concat_app. simpl. rewrite app_nil_r.
      destruct (Index.mem x (ready_names m)) eqn:Hmem.
      * right. apply in_or_app. right. apply mem_In. exact Hmem.
      * destruct Hx as [Hx|Hx]; [left; apply remove_ready_keeps_key; assumption|].
        right. apply in_or_app. left. exact Hx.
    + intros B HB. destruct (Hne B HB) as [Hin|Hn]; [|right; exact Hn].
      apply in_app_or in Hin. destruct Hin as [Hin|[<-|[]]]; [left; exact Hin|].
      right. rewrite Hready. discriminate.
Qed.

(** X4.  The [while name_to_deps] loop of [__get_build_batches] (lines
    416-440), started as line 416 starts it, on every dependency map: it
    ends within as many rounds as the map has recipes.  Either it returns
    batches that hold every recipe of the map, none of them empty, or it
    leaves with the [TypeError] of [json.dumps] at line 427.  The
    [ValueError] of line 428, the report of a circular dependency, is raised
    on no map.  The store is as it was in both cases. *)
Theorem planner_loop_outcome (m : deps_map) (w : world) :
  match batches_loop (length m) m [] w with
  | Ok bs w' =>
      w' = w
      /\ (forall x, In x (map fst m) -> In x (concat bs))
      /\ (forall B, In B bs -> B <> [])
  | Raise e w' =>
      w' = w /\ e = TypeError "Object of type set is not JSON serializable"
             /\ e <> CircularBatches
  | Diverge => False
  end.
Proof.
  pose proof (batches_loop_outcome (length m) m [] w ltac:(lia)) as H.
  destruct (batches_loop (length m) m [] w) as [bs w'|e w'|]; [| |exact H].
  - destruct H as (Hw & Hall & Hne). repeat split; [exact Hw| |].
    + intros x Hx. apply Hall. left. exact Hx.
    + intros B HB. destruct (Hne B HB) as [[]|Hn]. exact Hn.
  - destruct H as [Hw ->]. repeat split; [exact Hw|discriminate].
Qed.

(** X5.  The batches that the loop of lines 416-440 returns are layered:
    every recipe of batch [k] is a recipe of the map, and every name it
    waited for is in one of the batches before [k].  A recipe is never
    placed before, or beside, one it depends on. *)
Theorem planner_batches_are_layered (m0 : deps_map) (bs : list (list string))
    (w w' : world) :
  batches_loop (length m0) m0 [] w = Ok bs w' -> layered m0 bs.
Proof. apply planner_loop_layered. Qed.

Lemma planner_batches_are_layered_diamond :
  batches_loop 4 [("top", ["left"; "right"]); ("left", ["base"]);
                  ("right", ["base"]); ("base", [])] [] Scenario.diamond
  = Ok [["base"]; ["left"; "right"]; ["top"]] Scenario.diamond
  /\ layered [("top", ["left"; "right"]); ("left", ["base"]);
              ("right", ["base"]); ("base", [])]
             [["base"]; ["left"; "right"]; ["top"]].
Proof.
  split; [vm_compute; reflexivity|].
  apply (planner_batches_are_layered
           [("top", ["left"; "right"]); ("left", ["base"]);
            ("right", ["base"]); ("base", [])]
           [["base"]; ["left"; "right"]; ["top"]] Scenario.diamond Scenario.diamond).
  vm_compute; reflexivity.
Defined.

(** X6.  On a dependency map that is closed (every name waited for is a
    recipe of the map) and ranked (it ranks below the recipe that waits for
    it), hence without a cycle, the loop of lines 416-440 returns batches:
    some recipe is ready in every round. *)
Theorem planner_loop_returns_without_cycle (rk : string -> nat) (m : deps_map)
    (w : world) :
  closed_and_ranked rk m -> exists bs, batches_loop (length m) m [] w = Ok bs w.
Proof.
  intros Hm. apply (batches_loop_returns_on_ranked rk); [exact Hm|lia].
Qed.

Lemma planner_loop_returns_on_diamond :
  exists bs,
    batches_loop 4 [("top", ["left"; "right"]); ("left", ["base"]);
                    ("right", ["base"]); ("base", [])] [] Scenario.diamond
    = Ok bs Scenario.diamond.
Proof.
  apply (planner_loop_returns_without_cycle Scenario.diamond_rank
           [("top", ["left"; "right"]); ("left", ["base"]);
            ("right", ["base"]); ("base", [])] Scenario.diamond).
  intros x ds d Hin Hd. simpl in Hin.
  repeat (destruct Hin as [[= <- <-]|Hin];
          [simpl in Hd; repeat (destruct Hd as [<-|Hd]; [split; [vm_compute; lia|eexists; simpl; eauto 10]|]);
           contradiction|]).
  contradiction.
Defined.

(** X7.  What [__get_build_batches] returns, when it returns, on every
    catalog and for every reference: exactly one batch, and that batch is
    not empty.  (A recipe with a dependency makes line 411 raise, so the map
    that reaches the loop holds empty sets only.) *)
Theorem planner_returns_exactly_one_batch (fuel : nat) (recipe : string)
    (w w' : world) (bs : list (list string)) :
  __get_build_batches fuel recipe w = Ok bs w' -> exists k ks, bs = [k :: ks].
Proof. apply planner_returns_single_batch. Qed.

Lemma planner_returns_exactly_one_batch_zlib :
  returned (__get_build_batches 2 "acme:zlib" (Scenario.acme true)) = Some [["zlib"]]
  /\ exists k ks, [["zlib"]] = [k :: ks].
Proof.
  split; [vm_compute; reflexivity|].
  apply (planner_returns_exactly_one_batch 2 "acme:zlib" (Scenario.acme true)
           (match __get_build_batches 2 "acme:zlib" (Scenario.acme true) with
            | Ok _ w' => w'
            | _ => Scenario.acme true
            end)
           [["zlib"]]).
  vm_compute; reflexivity.
Defined.

(** ** What planning, probing and a dry run leave alone *)

(** X8.  [__get_build_batches], with the resolver under it, on every catalog
    and however it ends: it probes no tool, appends no result, and leaves
    the cookbook map, the two catalogs and the disk as they were.  What it
    does change is the index (by selecting versions) and the log. *)
Theorem planner_only_selects (fuel : nat) (recipe : string) (w : world) :
  always (unprobed w) (__get_build_batches fuel recipe w).
Proof. apply keeps_get_build_batches. Qed.

(** X9.  The toolchain validation of [build_recipe] (lines 496-584), on
    every plan and however it ends, also when it exits for a missing tool:
    it appends no result and leaves the cookbook map, the two catalogs and
    the disk as they were. *)
Theorem toolchain_probe_builds_nothing (batches : list (list string)) (w : world) :
  always (untouched w) (validate_toolchain batches w).
Proof. apply keeps_validate_toolchain. Qed.

Lemma keeps_dry_run_line (idx i j : nat) (recipe : string) :
  keeps unprobed (dry_run_line idx i j recipe).
Proof.
  unfold dry_run_line. apply keeps_get; intros w0.
  frame_bind; [apply keeps_first_entry|].
  frame_bind; [apply keeps_log|].
  frame_bind; [apply keeps_first_entry|].
  destruct (default ∅ (recipes w0 !! recipe) !! version a1) as [bc|];
    [|apply keeps_raise; frame_side].
  frame_bind; [apply keeps_first_cookbook|].
  destruct (bc !! a2) as [class|]; [|apply keeps_raise; frame_side].
  frame_each. frame_bind; [apply keeps_select_tool|]. apply keeps_log.
Qed.

Lemma keeps_dry_run_plan (cookbook : string) (tc : toolchain)
    (batches : list (list string)) :
  keeps unprobed (run_plan cookbook tc true batches).
Proof.
  unfold run_plan. frame_bind.
  - unfold build_loop. apply keeps_fold_enumerate; [frame_side..|]. intros i bundle d.
    apply keeps_fold_enumerate; [frame_side..|]. intros j recipe d'.
    unfold build_step. frame_bind; [apply keeps_dry_run_line|].
    apply keeps_ret; frame_side.
  - frame_bind; apply keeps_ret; frame_side.
Qed.

(** The flag [failure] is not set in a dry run. *)
Lemma dry_run_positions_failure (cookbook : string) (tc : toolchain)
    (ps : list (nat * nat * string)) :
  forall (d d' : driver) (w w' : world),
    run_positions cookbook tc true ps d w = Ok d' w' -> failure d' = failure d.
Proof.
  unfold run_positions.
  induction ps as [|[[i j] recipe] ps IH]; intros d d' w w' Hrun.
  - injection Hrun as <- _. reflexivity.
  - cbn [fold_m] in Hrun. unfold bind at 1 in Hrun.
    unfold build_step at 1 in Hrun. unfold bind at 1 in Hrun.
    destruct (dry_run_line (S (idx d)) i j recipe w) as [[] w1| |]; [|discriminate..].
    unfold ret at 1 in Hrun. apply IH in Hrun. exact Hrun.
Qed.

(** X10.  [build_recipe] with [dry_run=True], on every catalog, for every
    argument and however it ends: no result is appended, and the cookbook
    map, the two catalogs and the disk, with the configuration files on it,
    are as they were.  It does not return [False]: when it returns, it
    returns [True]. *)
Theorem dry_run_builds_nothing (fuel : nat) (recipe version cookbook : string)
    (w : world) :
  always (untouched w) (build_recipe fuel recipe version cookbook true w)
  /\ returned (build_recipe fuel recipe version cookbook true w) <> Some false.
Proof.
  split.
  - revert w. fold (keeps untouched (build_recipe fuel recipe version cookbook true)).
    unfold build_recipe.
    frame_bind; [apply keeps_unprobed_untouched, keeps_get_build_batches|].
    frame_bind; [apply keeps_validate_toolchain|].
    frame_bind; [apply keeps_unprobed_untouched, keeps_log|].
    apply keeps_unprobed_untouched, keeps_dry_run_plan.
  - unfold build_recipe, bind at 1.
    destruct (__get_build_batches _ _ w) as [bs w1| |]; [|discriminate..].
    unfold bind at 1.
    destruct (validate_toolchain bs w1) as [tc w2| |]; [|discriminate..].
    unfold bind at 1, log at 1. unfold run_plan, bind at 1.
    rewrite build_loop_positions.
    destruct (run_positions cookbook tc true (plan_positions bs) _ _)
      as [d w3| |] eqn:Hrun; [|discriminate..].
    apply dry_run_positions_failure in Hrun. simpl in Hrun.
    unfold bind, ret. rewrite Hrun. discriminate.
Qed.

(** ** The loader and the trust flags *)

Lemma keeps_for_each_in {A} (R : world -> world -> Prop) (body : A -> M unit)
    (xs : list A) :
  (forall w, R w w) ->
  (forall w1 w2 w3, R w1 w2 -> R w2 w3 -> R w1 w3) ->
  (forall x, In x xs -> keeps R (body x)) -> keeps R (for_each xs body).
Proof.
  intros Hrefl Htrans. induction xs as [|x xs IH]; intros Hbody; simpl.
  - apply keeps_ret, Hrefl.
  - apply keeps_bind; [exact Htrans|apply Hbody; left; reflexivity|].
    intros _. apply IH. intros y Hy. apply Hbody. right. exact Hy.
Qed.

Lemma keeps_modify {B} (R : world -> world -> Prop) (f : world -> world) (k : M B) :
  (forall w1 w2 w3, R w1 w2 -> R w2 w3 -> R w1 w3) ->
  (forall w, R w (f w)) -> keeps R k ->
  keeps R (w0 <- get ;; put (f w0) ;;; k).
Proof.
  intros Htrans Hf Hk w. unfold bind, get, put. specialize (Hk (f w)).
  destruct (k (f w)); simpl in *; eauto.
Qed.

Lemma loaded_over_refl (names : list string) (w : world) : loaded_over names w w.
Proof. repeat split. Qed.

Lemma loaded_over_trans (names : list string) (w1 w2 w3 : world) :
  loaded_over names w1 w2 -> loaded_over names w2 w3 -> loaded_over names w1 w3.
Proof.
  intros (Hb1 & Hl1 & Hc1 & H1) (Hb2 & Hl2 & Hc2 & H2).
  split; [congruence|]. split; [congruence|]. split; [congruence|].
  intros X HX. destruct (H1 X HX) as [Hk1 Hn1]. destruct (H2 X HX) as [Hk2 Hn2]. split.
  - intros key Hr Ht. rewrite Hk2, Hk1 by assumption. reflexivity.
  - intros Hn. rewrite Hn2, Hn1 by assumption. reflexivity.
Qed.

(** An assignment of the loader: to the overlay [local], or to the key
    ["recipes"] or ["tools"] of a cookbook of the bookshelf. *)
Lemma keeps_loader_setitem (names : list string) (cookbook key : string) (v : jval) :
  cookbook = "local" \/ (In cookbook names /\ (key = "recipes" \/ key = "tools")) ->
  keeps (loaded_over names) (cookbook_setitem cookbook key v).
Proof.
  intros Hc w. unfold cookbook_setitem. simpl.
  split; [reflexivity|]. split; [reflexivity|]. split; [reflexivity|].
  intros X HX. simpl.
  destruct (decide (cookbook = X)) as [->|Hne].
  - destruct Hc as [Hc|[Hin Hkey]]; [contradiction|]. split.
    + intros key' Hr Ht. rewrite lookup_insert_eq. simpl.
      rewrite lookup_insert_ne by (destruct Hkey; congruence).
      destruct (cookbooks w !! X); reflexivity.
    + intros Hn. contradiction.
  - rewrite lookup_insert_ne by exact Hne. split; reflexivity.
Qed.

Lemma keeps_loader_store (names : list string) : keeps (loaded_over names) store_cookbooks.
Proof.
  intros w. unfold store_cookbooks, __store_config, bind, get.
  destruct (config_writable (host w)) eqn:Hwr; simpl; repeat split; auto.
Qed.

Ltac loader_side names :=
  first [ exact (loaded_over_refl names) | exact (loaded_over_trans names) ].

Lemma trivial_loader_invariant : loader_invariant (fun _ => True).
Proof.
  split; [auto|intros; exact I|].
  intros w _. unfold store_cookbooks, __store_config, bind, get, ensures.
  destruct (config_writable (host w)); exact I.
Qed.

Section LoaderRelation.

Variable sort_cookbook_by_version :
  forall C, gmap string (gmap string C) -> index.
Variable sort_all_recipes_by_version :
  forall C, gmap string (gmap string (gmap string C)) -> index.
Variable names : list string.

Lemma keeps_read_cookbook (cookbook : string) (d : cookbook_dir) :
  cookbook = "local" \/ In cookbook names ->
  keeps (loaded_over names) (__read_cookbook sort_cookbook_by_version cookbook d).
Proof.
  intros Hc. unfold __read_cookbook.
  apply keeps_bind; [loader_side names| |intros _].
  { apply keeps_loader_setitem. destruct Hc; [left|right]; auto. }
  apply keeps_modify; [loader_side names|intros w; repeat split|].
  apply keeps_bind; [loader_side names| |intros _].
  { apply keeps_loader_setitem. destruct Hc; [left|right]; auto. }
  apply keeps_modify; [loader_side names|intros w; repeat split|].
  apply keeps_ret. loader_side names.
Qed.

Lemma keeps_read_bookshelf (w : world) :
  bookshelf_names (host w) = names ->
  always (loaded_over names w) (__read_bookshelf sort_cookbook_by_version w).
Proof.
  intros Hnames. unfold __read_bookshelf, bind at 1, get.
  unfold bookshelf_names in Hnames.
  destruct (bookshelf (host w)) as [dirs|]; [|apply loaded_over_refl].
  simpl in Hnames. revert w.
  fold (keeps (loaded_over names)
          (for_each dirs (fun '(cookbook, d) =>
             ok <- __read_cookbook sort_cookbook_by_version cookbook d ;;
             if ok then ret tt else log (LogEmptyCookbook cookbook)) ;;;
           store_cookbooks ;;; ret true)).
  apply keeps_bind; [loader_side names| |intros _].
  - apply keeps_for_each_in; [loader_side names..|]. intros [cookbook d] Hin.
    apply keeps_bind; [loader_side names| |intros ok].
    + apply keeps_read_cookbook. right. rewrite <- Hnames.
      apply in_map_iff. exists (cookbook, d). split; [reflexivity|exact Hin].
    + destruct ok; [apply keeps_ret; loader_side names|intros w; repeat split].
  - apply keeps_bind; [loader_side names|apply keeps_loader_store|intros _].
    apply keeps_ret. loader_side names.
Qed.

Lemma keeps_read_local_recipes :
  keeps (loaded_over names) (__read_local_recipes sort_cookbook_by_version).
Proof.
  unfold __read_local_recipes. apply keeps_get; intros w0.
  destruct (local_dir (host w0)) as [d|]; [|apply keeps_ret; loader_side names].
  apply keeps_bind; [loader_side names|apply keeps_read_cookbook; left; reflexivity|].
  intros [|]; [|apply keeps_ret; loader_side names].
  repeat (apply keeps_bind;
          [loader_side names|apply keeps_loader_setitem; left; reflexivity|intros _]).
  apply keeps_ret. loader_side names.
Qed.

Lemma keeps_load_recipes (w : world) :
  bookshelf_names (host w) = names ->
  always (loaded_over names w)
         (__load_recipes sort_cookbook_by_version sort_all_recipes_by_version w).
Proof.
  intros Hnames. unfold __load_recipes, bind at 1, get.
  apply always_bind.
  - destruct (_ || _); [|apply loaded_over_refl].
    apply always_bind; [apply keeps_read_bookshelf, Hnames|].
    intros ? w1 _ H1. exact H1.
  - intros _ w1 _ H1.
    eapply always_weaken with (I := loaded_over names w1);
      [|intros w2; apply loaded_over_trans, H1].
    revert w1 H1. intros w1 _. revert w1.
    match goal with
    | |- forall w1, always (loaded_over names w1) (?m w1) =>
        fold (keeps (loaded_over names) m)
    end.
    apply keeps_bind; [loader_side names|apply keeps_read_local_recipes|intros ok].
    apply keeps_bind; [loader_side names| |intros _].
    { destruct ok; [apply keeps_ret; loader_side names|intros w0; repeat split]. }
    apply keeps_modify; [loader_side names|intros w0; repeat split|].
    apply keeps_modify; [loader_side names|intros w0; repeat split|].
    apply keeps_get; intros w4.
    destruct (sorted_recipes w4); [|apply keeps_ret; loader_side names].
    apply keeps_bind; [loader_side names|intros w0; repeat split|intros _].
    apply keeps_ret. loader_side names.
Qed.

(** A new process: [__init__] returns, and the cookbook map it leaves is
    the one of [cookbooks.json], loaded over. *)
Lemma init_loaded (d : disk) :
  bookshelf_names d = names ->
  exists w',
    __init__ sort_cookbook_by_version sort_all_recipes_by_version (new_process d)
    = Ok tt w'
    /\ loaded_over names (with_cookbooks (stored_cookbooks d) (new_process d)) w'.
Proof.
  intros Hn. set (w1 := with_cookbooks (stored_cookbooks d) (new_process d)).
  assert (Hload : exists b, load_cookbooks (new_process d) = Ok b w1).
  { unfold load_cookbooks, __load_config, bind, get, put, ret, w1, stored_cookbooks.
    simpl. destruct (config_files d !! "cookbooks.json") as [stored|]; simpl;
      eexists; rewrite ?(right_id_L ∅ (∪)); reflexivity. }
  destruct Hload as [b Hload].
  unfold __init__, bind at 1. rewrite Hload. unfold bind at 1.
  pose proof (load_recipes_keeps sort_cookbook_by_version sort_all_recipes_by_version
                (fun _ => True) trivial_loader_invariant w1 I) as Hret.
  pose proof (keeps_load_recipes w1 Hn) as Hrel.
  destruct (__load_recipes sort_cookbook_by_version sort_all_recipes_by_version w1)
    as [ok w2| |]; simpl in Hret; [|contradiction..].
  exists w2. split; [reflexivity|exact Hrel].
Qed.

End LoaderRelation.

(** X11.  A new process never grants and never revokes trust, save for the
    overlay [local]: for a cookbook [X] other than [local], [Mussels()]
    returns, and every key of [X] but ["recipes"] and ["tools"], the flag
    ["trusted"] among them, is what [cookbooks.json] holds, whatever the
    bookshelf and the local directory hold.  A cookbook of the bookshelf
    that the file does not list has no ["trusted"] key at all. *)
Theorem loader_grants_no_trust
    (sort_cookbook_by_version : forall C, gmap string (gmap string C) -> index)
    (sort_all_recipes_by_version :
       forall C, gmap string (gmap string (gmap string C)) -> index)
    (d : disk) (X : string) :
  X <> "local" ->
  exists w',
    __init__ sort_cookbook_by_version sort_all_recipes_by_version (new_process d)
    = Ok tt w'
    /\ trusted_flag w' X = stored_cookbooks d !! X ≫= (.!! "trusted")
    /\ forall key, key <> "recipes" -> key <> "tools" ->
         cookbooks w' !! X ≫= (.!! key) = stored_cookbooks d !! X ≫= (.!! key).
Proof.
  intros HX.
  destruct (init_loaded sort_cookbook_by_version sort_all_recipes_by_version
              (bookshelf_names d) d eq_refl) as (w' & Hrun & _ & _ & _ & Hrel).
  exists w'. split; [exact Hrun|].
  destruct (Hrel X HX) as [Hkeys _]. split; [|exact Hkeys].
  apply Hkeys; discriminate.
Qed.

Lemma loader_grants_no_trust_acme :
  "acme" <> "local"
  /\ stored_cookbooks Disks.shelved !! "acme" ≫= (.!! "trusted") = Some (JBool false)
  /\ exists w',
      __init__ Scenario.no_index Scenario.no_index_all (new_process Disks.shelved)
      = Ok tt w'
      /\ trusted_flag w' "acme" = stored_cookbooks Disks.shelved !! "acme" ≫= (.!! "trusted")
      /\ forall key, key <> "recipes" -> key <> "tools" ->
           cookbooks w' !! "acme" ≫= (.!! key)
           = stored_cookbooks Disks.shelved !! "acme" ≫= (.!! key).
Proof.
  split; [discriminate|]. split; [vm_compute; reflexivity|].
  apply (loader_grants_no_trust Scenario.no_index Scenario.no_index_all
           Disks.shelved "acme").
  discriminate.
Defined.

(** The local directory stays where it is: an invariant of the loader. *)
Lemma local_dir_is_loader_invariant (dir : option cookbook_dir) :
  loader_invariant (fun w => local_dir (host w) = dir).
Proof.
  split.
  - intros w w' _ Hh. rewrite Hh. auto.
  - intros cookbook key v w _ Hw. exact Hw.
  - intros w Hw. unfold store_cookbooks, __store_config, bind, get, ensures.
    destruct (config_writable (host w)); simpl; exact Hw.
Qed.

Lemma load_recipes_trusts_local
    (sort_cookbook_by_version : forall C, gmap string (gmap string C) -> index)
    (sort_all_recipes_by_version :
       forall C, gmap string (gmap string (gmap string C)) -> index)
    (dir : cookbook_dir) (w : world) :
  local_dir (host w) = Some dir ->
  dir_recipes dir <> ∅ \/ dir_tools dir <> ∅ ->
  ensures (__load_recipes sort_cookbook_by_version sort_all_recipes_by_version w)
          (fun _ w' => trusted_flag w' "local" = Some (JBool true)).
Proof.
  intros Hl Hne. unfold __load_recipes, bind at 1, get.
  apply ensures_bind.
  assert (H1 : ensures ((if bool_decide (recipes w = ∅) || bool_decide (tools w = ∅)
                         then __read_bookshelf sort_cookbook_by_version ;;; ret tt
                         else ret tt) w)
                       (fun _ w' => local_dir (host w') = Some dir)).
  { destruct (_ || _); [|exact Hl].
    apply ensures_bind. eapply ensures_weaken;
      [apply (read_bookshelf_keeps _ _ (local_dir_is_loader_invariant (Some dir))), Hl|].
    intros ? w1 Hw1. exact Hw1. }
  eapply ensures_weaken; [exact H1|]. clear H1. intros ? w1 Hw1. cbv beta in Hw1 |- *.
  apply ensures_bind.
  assert (H2 : ensures (__read_local_recipes sort_cookbook_by_version w1)
                       (fun ok w' => ok = true
                                     /\ trusted_flag w' "local" = Some (JBool true))).
  { unfold __read_local_recipes, bind at 1, get. rewrite Hw1.
    unfold __read_cookbook, bind, get, put, cookbook_setitem, ret. simpl.
    assert (Hok : negb (bool_decide (dir_recipes dir = ∅)
                        && bool_decide (dir_tools dir = ∅)) = true).
    { destruct Hne as [Hne|Hne]; rewrite (bool_decide_eq_false_2 _ Hne);
        [reflexivity|]. rewrite andb_false_r. reflexivity. }
    rewrite Hok. simpl. split; [reflexivity|].
    unfold trusted_flag. simpl. rewrite lookup_insert_eq. simpl.
    apply lookup_insert_eq. }
  eapply ensures_weaken; [exact H2|]. clear H2. intros ok w2 [-> Hw2]. cbv beta.
  apply ensures_bind. unfold ret at 1. simpl.
  apply ensures_get_put. apply ensures_get_put.
  unfold bind, get.
  destruct (sorted_recipes _); unfold log, ret, ensures; exact Hw2.
Qed.

(** X12.  The overlay [local] is trusted by every new process that finds a
    local directory with a recipe or a tool in it: [Mussels()] returns with
    [local]["trusted"] set to [True], whatever [cookbooks.json] holds for
    [local] and whatever the bookshelf holds.  A flag [False] stored for
    [local] is overwritten at every start. *)
Theorem local_is_always_trusted
    (sort_cookbook_by_version : forall C, gmap string (gmap string C) -> index)
    (sort_all_recipes_by_version :
       forall C, gmap string (gmap string (gmap string C)) -> index)
    (d : disk) (dir : cookbook_dir) :
  local_dir d = Some dir ->
  dir_recipes dir <> ∅ \/ dir_tools dir <> ∅ ->
  exists w',
    __init__ sort_cookbook_by_version sort_all_recipes_by_version (new_process d)
    = Ok tt w'
    /\ trusted_flag w' "local" = Some (JBool true).
Proof.
  intros Hl Hne.
  assert (Hload : ensures (load_cookbooks (new_process d))
                          (fun _ w1 => local_dir (host w1) = Some dir)).
  { unfold load_cookbooks, __load_config, bind, get, put, ret. simpl.
    destruct (config_files d !! "cookbooks.json"); exact Hl. }
  unfold __init__, bind at 1.
  destruct (load_cookbooks (new_process d)) as [b w1| |]; simpl in Hload;
    [|contradiction..].
  pose proof (load_recipes_trusts_local sort_cookbook_by_version
                sort_all_recipes_by_version dir w1 Hload Hne) as Hrec.
  unfold bind at 1.
  destruct (__load_recipes sort_cookbook_by_version sort_all_recipes_by_version w1)
    as [ok w2| |]; simpl in Hrec; [|contradiction..].
  exists w2. split; [reflexivity|exact Hrec].
Qed.

Lemma local_is_always_trusted_shelved :
  stored_cookbooks Disks.shelved !! "local" ≫= (.!! "trusted") = Some (JBool false)
  /\ exists w',
      __init__ Scenario.no_index Scenario.no_index_all (new_process Disks.shelved)
      = Ok tt w'
      /\ trusted_flag w' "local" = Some (JBool true).
Proof.
  split; [vm_compute; reflexivity|].
  apply (local_is_always_trusted Scenario.no_index Scenario.no_index_all
           Disks.shelved Disks.zlib_dir).
  - reflexivity.
  - left. vm_compute. discriminate.
Defined.

(** [config_remove_cookbook] on a cookbook of the map, with a configuration
    directory that can be written. *)
Lemma config_remove_cookbook_returns (X : string) (w : world) :
  is_Some (cookbooks w !! X) ->
  config_writable (host w) = true ->
  exists w1,
    config_remove_cookbook X w = Ok tt w1
    /\ cookbooks w1 = delete X (cookbooks w)
    /\ stored_cookbooks (host w1) = delete X (cookbooks w)
    /\ bookshelf (host w1) = bookshelf (host w).
Proof.
  intros [fields HX] Hwr.
  unfold config_remove_cookbook, store_cookbooks, __store_config, bind, get, put, ret.
  rewrite HX. simpl. rewrite Hwr. eexists. split; [reflexivity|]. simpl.
  split; [reflexivity|]. split; [|reflexivity].
  unfold stored_cookbooks. simpl. rewrite lookup_insert_eq. reflexivity.
Qed.

(** X13.  The removal round trip: for a cookbook [X] of the cookbook map
    that is not [local] and has no directory on the bookshelf, and a
    configuration directory that can be written,
    [config_remove_cookbook(X)] returns, and a new process started on the
    disk it leaves has no entry for [X]; every other cookbook but [local]
    has the trust flag it had. *)
Theorem remove_round_trip
    (sort_cookbook_by_version : forall C, gmap string (gmap string C) -> index)
    (sort_all_recipes_by_version :
       forall C, gmap string (gmap string (gmap string C)) -> index)
    (X : string) (w : world) :
  is_Some (cookbooks w !! X) ->
  config_writable (host w) = true ->
  X <> "local" ->
  ~ In X (bookshelf_names (host w)) ->
  exists w1 w2,
    config_remove_cookbook X w = Ok tt w1
    /\ __init__ sort_cookbook_by_version sort_all_recipes_by_version
         (new_process (host w1)) = Ok tt w2
    /\ cookbooks w2 !! X = None
    /\ forall Y, Y <> X -> Y <> "local" -> trusted_flag w2 Y = trusted_flag w Y.
Proof.
  intros HX Hwr Hlocal Hshelf.
  destruct (config_remove_cookbook_returns X w HX Hwr) as (w1 & Hrun & _ & Hjson & Hb).
  destruct (init_loaded sort_cookbook_by_version sort_all_recipes_by_version
              (bookshelf_names (host w1)) (host w1) eq_refl)
    as (w2 & Hinit & _ & _ & _ & Hrel).
  exists w1, w2. split; [exact Hrun|]. split; [exact Hinit|]. split.
  - destruct (Hrel X Hlocal) as [_ Hsame]. rewrite Hsame.
    + simpl. rewrite Hjson. apply lookup_delete_eq.
    + unfold bookshelf_names. rewrite Hb. exact Hshelf.
  - intros Y HY HYl. destruct (Hrel Y HYl) as [Hkeys _].
    unfold trusted_flag. rewrite Hkeys by discriminate. simpl.
    rewrite Hjson, lookup_delete_ne by congruence. reflexivity.
Qed.

Lemma remove_round_trip_gone :
  is_Some (cookbooks Disks.with_gone !! "gone")
  /\ exists w1 w2,
      config_remove_cookbook "gone" Disks.with_gone = Ok tt w1
      /\ __init__ Scenario.no_index Scenario.no_index_all (new_process (host w1))
         = Ok tt w2
      /\ cookbooks w2 !! "gone" = None
      /\ forall Y, Y <> "gone" -> Y <> "local" ->
           trusted_flag w2 Y = trusted_flag Disks.with_gone Y.
Proof.
  split; [vm_compute; eexists; reflexivity|].
  apply (remove_round_trip Scenario.no_index Scenario.no_index_all "gone" Disks.with_gone).
  - vm_compute. eexists. reflexivity.
  - reflexivity.
  - discriminate.
  - vm_compute. intros [H|[H|[]]]; discriminate.
Defined.

(** X14.  The gate on a cookbook without a stored flag: for a cookbook [X]
    other than [local] for which [cookbooks.json] holds no ["trusted"] key
    (a directory of the bookshelf that the file does not list, or a cookbook
    that was removed), a new process does not refuse a recipe of [X]: the
    gate of [__build_recipe] raises [KeyError('trusted')], for every recipe
    and version. *)
Theorem gate_raises_without_a_stored_flag
    (sort_cookbook_by_version : forall C, gmap string (gmap string C) -> index)
    (sort_all_recipes_by_version :
       forall C, gmap string (gmap string (gmap string C)) -> index)
    (d : disk) (X : string) :
  X <> "local" ->
  stored_cookbooks d !! X ≫= (.!! "trusted") = None ->
  exists w',
    __init__ sort_cookbook_by_version sort_all_recipes_by_version (new_process d)
    = Ok tt w'
    /\ forall recipe version_arg tc,
         raised (__build_recipe recipe version_arg X tc w')
         = Some (KeyError (KStr "trusted")).
Proof.
  intros HX Hflag.
  destruct (init_loaded sort_cookbook_by_version sort_all_recipes_by_version
              (bookshelf_names d) d eq_refl) as (w' & Hrun & _ & _ & _ & Hrel).
  exists w'. split; [exact Hrun|]. intros recipe version_arg tc.
  destruct (Hrel X HX) as [Hkeys _].
  specialize (Hkeys "trusted" ltac:(discriminate) ltac:(discriminate)).
  simpl in Hkeys. rewrite Hflag in Hkeys.
  unfold __build_recipe, bind at 1, cookbook_getitem.
  destruct (cookbooks w' !! X) as [fields|]; [|reflexivity].
  simpl in Hkeys. rewrite Hkeys. reflexivity.
Qed.

Lemma gate_raises_for_fresh :
  In "fresh" (bookshelf_names Disks.shelved)
  /\ exists w',
      __init__ Scenario.no_index Scenario.no_index_all (new_process Disks.shelved)
      = Ok tt w'
      /\ forall recipe version_arg tc,
           raised (__build_recipe recipe version_arg "fresh" tc w')
           = Some (KeyError (KStr "trusted")).
Proof.
  split; [right; left; reflexivity|].
  apply (gate_raises_without_a_stored_flag Scenario.no_index Scenario.no_index_all
           Disks.shelved "fresh").
  - discriminate.
  - vm_compute. reflexivity.
Defined.

(** ** The update of the cookbooks *)

Lemma field_after_setitem (c key key' X : string) (v : jval)
    (m : gmap string (gmap string jval)) :
  key <> key' -> set_field c key v m !! X ≫= (.!! key') = m !! X ≫= (.!! key').
Proof.
  intros Hk. unfold set_field. destruct (decide (c = X)) as [->|Hne].
  - rewrite lookup_insert_eq. simpl. rewrite lookup_insert_ne by exact Hk.
    destruct (m !! X); reflexivity.
  - rewrite lookup_insert_ne by exact Hne. reflexivity.
Qed.

Lemma entry_after_setitem (c key X : string) (v : jval)
    (m : gmap string (gmap string jval)) :
  c <> X -> set_field c key v m !! X = m !! X.
Proof. intros Hne. unfold set_field. apply lookup_insert_ne, Hne. Qed.

Lemma cookbook_setitem_set_field (c key : string) (v : jval) (w : world) :
  cookbook_setitem c key v w = Ok tt (with_cookbooks (set_field c key v (cookbooks w)) w).
Proof. reflexivity. Qed.

Lemma trust_kept_refl (w : world) : trust_kept w w.
Proof. intros X v H. exact H. Qed.

Lemma trust_kept_trans (w1 w2 w3 : world) :
  trust_kept w1 w2 -> trust_kept w2 w3 -> trust_kept w1 w3.
Proof. intros H1 H2 X v H. apply H2, H1, H. Qed.

Lemma same_cookbooks_trust_kept (w w' : world) : same_cookbooks w w' -> trust_kept w w'.
Proof. intros Hc X v H. unfold trusted_flag. rewrite Hc. exact H. Qed.

Lemma keeps_trust_setitem (c key : string) (v : jval) :
  key <> "trusted" -> keeps trust_kept (cookbook_setitem c key v).
Proof.
  intros Hk w. rewrite cookbook_setitem_set_field. intros X v0 H.
  unfold trusted_flag. cbn [cookbooks with_cookbooks].
  rewrite (field_after_setitem c key "trusted" X v (cookbooks w) Hk). exact H.
Qed.

Lemma keeps_trust_getitem (c key : string) : keeps trust_kept (cookbook_getitem c key).
Proof.
  intros w. unfold cookbook_getitem.
  destruct (cookbooks w !! c) as [fields|] eqn:Hc;
    [destruct (fields !! key); apply trust_kept_refl|].
  intros X v H. unfold trusted_flag in *. simpl.
  destruct (decide (c = X)) as [->|Hne].
  - rewrite Hc in H. discriminate.
  - rewrite lookup_insert_ne by exact Hne. exact H.
Qed.

Lemma keeps_trust_store : keeps trust_kept store_cookbooks.
Proof.
  intros w. unfold store_cookbooks, __store_config, bind, get.
  destruct (config_writable (host w)); intros X v H; exact H.
Qed.

Lemma keeps_trust_read_cookbook
    (sort_cookbook_by_version : forall C, gmap string (gmap string C) -> index)
    (cookbook : string) (d : cookbook_dir) :
  keeps trust_kept (__read_cookbook sort_cookbook_by_version cookbook d).
Proof.
  unfold __read_cookbook.
  apply keeps_bind; [exact trust_kept_trans| |intros _].
  { apply keeps_trust_setitem. discriminate. }
  apply keeps_modify; [exact trust_kept_trans|intros w X v H; exact H|].
  apply keeps_bind; [exact trust_kept_trans| |intros _].
  { apply keeps_trust_setitem. discriminate. }
  apply keeps_modify; [exact trust_kept_trans|intros w X v H; exact H|].
  apply keeps_ret. exact trust_kept_refl.
Qed.

(** One public cookbook registered: it has a trust flag, the one it had or
    [False]; the other cookbooks are as they were. *)
Lemma register_book_spec (book url : string) (w : world) :
  exists w1,
    register_book (book, url) w = Ok tt w1
    /\ trusted_flag w1 book = Some (default (JBool false) (trusted_flag w book))
    /\ (forall key, key <> "path" -> key <> "url" -> key <> "trusted" ->
          cookbooks w1 !! book ≫= (.!! key) = cookbooks w !! book ≫= (.!! key))
    /\ forall X, X <> book -> cookbooks w1 !! X = cookbooks w !! X.
Proof.
  set (w1 := with_cookbooks (set_field book "path" (JStr ("cookbooks/" ++ book))
                               (cookbooks w)) w).
  set (w2 := with_cookbooks (set_field book "url" (JStr url) (cookbooks w1)) w1).
  assert (Hrun : register_book (book, url) w
                 = match trusted_flag w2 book with
                   | None => cookbook_setitem book "trusted" (JBool false) w2
                   | Some _ => Ok tt w2
                   end).
  { unfold register_book, bind, get, trusted_flag.
    rewrite cookbook_setitem_set_field. fold w1.
    rewrite cookbook_setitem_set_field. fold w2.
    destruct (cookbooks w2 !! book ≫= (.!! "trusted")); reflexivity. }
  assert (Hflag : forall X, trusted_flag w2 X = trusted_flag w X).
  { intros X. unfold trusted_flag, w2, w1. simpl.
    rewrite !field_after_setitem by discriminate. reflexivity. }
  assert (Hkeys : forall key, key <> "path" -> key <> "url" ->
            cookbooks w2 !! book ≫= (.!! key) = cookbooks w !! book ≫= (.!! key)).
  { intros key Hp Hu. unfold w2, w1. simpl.
    rewrite !field_after_setitem by congruence. reflexivity. }
  assert (Hother : forall X, X <> book -> cookbooks w2 !! X = cookbooks w !! X).
  { intros X HX. unfold w2, w1. simpl.
    rewrite !entry_after_setitem by congruence. reflexivity. }
  rewrite Hrun. destruct (trusted_flag w2 book) as [t|] eqn:Ht.
  - exists w2. split; [reflexivity|]. rewrite <- Hflag, Ht.
    split; [reflexivity|]. split; [|exact Hother].
    intros key Hp Hu _. apply Hkeys; assumption.
  - rewrite cookbook_setitem_set_field. eexists. split; [reflexivity|].
    rewrite <- Hflag, Ht. simpl. split; [|split].
    + unfold trusted_flag, set_field. simpl. rewrite lookup_insert_eq. simpl.
      apply lookup_insert_eq.
    + intros key Hp Hu Htr. rewrite field_after_setitem by congruence.
      apply Hkeys; assumption.
    + intros X HX. rewrite entry_after_setitem by congruence. apply Hother, HX.
Qed.

Lemma register_book_trust_kept (book url : string) (w w1 : world) :
  register_book (book, url) w = Ok tt w1 -> trust_kept w w1.
Proof.
  intros Hrun. destruct (register_book_spec book url w) as (w1' & Hrun' & Hb & _ & Ho).
  rewrite Hrun in Hrun'. injection Hrun' as <-.
  intros X v H. destruct (decide (X = book)) as [->|Hne].
  - rewrite Hb, H. reflexivity.
  - unfold trusted_flag in *. rewrite Ho by exact Hne. exact H.
Qed.

(** All the public cookbooks registered, lines 769-775. *)
Lemma register_all (shelf : list (string * string)) :
  forall w,
    exists w2,
      for_each shelf register_book w = Ok tt w2
      /\ trust_kept w w2
      /\ (forall X, In X (map fst shelf) -> trusted_flag w X = None ->
            trusted_flag w2 X = Some (JBool false))
      /\ (forall X, ~ In X (map fst shelf) -> cookbooks w2 !! X = cookbooks w !! X)
      /\ host w2 = host w.
Proof.
  induction shelf as [|[book url] rest IH]; intros w.
  - exists w. split; [reflexivity|]. split; [apply trust_kept_refl|].
    split; [intros X []|]. split; reflexivity.
  - destruct (register_book_spec book url w) as (w1 & Hrun & Hb & _ & Ho).
    destruct (IH w1) as (w2 & Hrest & Hkept & Hnew & Hout & Hhost).
    exists w2. cbn [for_each]. unfold bind. rewrite Hrun.
    split; [exact Hrest|].
    pose proof (register_book_trust_kept book url w w1 Hrun) as Hk1.
    split; [eapply trust_kept_trans; eassumption|]. split; [|split].
    + intros X HX Hnone. destruct (decide (X = book)) as [->|Hne].
      * apply Hkept. rewrite Hb, Hnone. reflexivity.
      * destruct HX as [HX|HX]; [simpl in HX; congruence|].
        apply Hnew; [exact HX|]. unfold trusted_flag in *. rewrite Ho by exact Hne.
        exact Hnone.
    + intros X HX. simpl in HX. rewrite Hout by tauto. apply Ho.
      intros ->. apply HX. left. reflexivity.
    + rewrite Hhost. clear - Hrun. unfold register_book, bind, get in Hrun.
      rewrite !cookbook_setitem_set_field in Hrun.
      match type of Hrun with
      | match ?c with _ => _ end _ = _ => destruct c
      end; injection Hrun as <-; reflexivity.
Qed.

Section UpdateProperties.

Variable shelf : list (string * string).
Variable key_order : gmap string (gmap string jval) -> list string.
Variable git_sync : jval -> string -> M unit.
Variable read_repo : string -> world -> cookbook_dir.
Variable sort_cookbook_by_version : forall C, gmap string (gmap string C) -> index.

(** [git] works on the directories of the bookshelf, not on the cookbook
    map. *)
Hypothesis git_keeps_the_map : forall url book, keeps same_cookbooks (git_sync url book).

Lemma keeps_trust_update_book (book : string) :
  keeps trust_kept (update_book git_sync read_repo sort_cookbook_by_version book).
Proof.
  unfold update_book.
  apply keeps_bind; [exact trust_kept_trans|apply keeps_trust_getitem|intros url].
  apply keeps_bind; [exact trust_kept_trans| |intros _].
  { assert (Hgit : keeps trust_kept (git_sync url book)).
    { intros w. pose proof (git_keeps_the_map url book w) as H.
      destruct (git_sync url book w); simpl in *;
        solve [apply same_cookbooks_trust_kept, H|exact I]. }
    destruct url as [b|[|c s]|i]; solve [exact Hgit|apply keeps_ret, trust_kept_refl]. }
  apply keeps_get; intros w0.
  apply keeps_bind; [exact trust_kept_trans|apply keeps_trust_read_cookbook|intros _].
  apply keeps_ret, trust_kept_refl.
Qed.

Lemma update_keeps_trust_flags (w : world) :
  always (fun w' =>
            trust_kept w w'
            /\ forall X, In X (map fst shelf) -> trusted_flag w X = None ->
                 trusted_flag w' X = Some (JBool false))
         (update_cookbooks shelf key_order git_sync read_repo sort_cookbook_by_version w).
Proof.
  unfold update_cookbooks, bind at 1, make_bookshelf. unfold bind at 1.
  match goal with
  | |- context [for_each shelf register_book ?w0] =>
      destruct (register_all shelf w0) as (w2 & Hreg & Hkept & Hnew & _)
  end.
  rewrite Hreg.
  assert (Hrest : keeps trust_kept
                    (w <- get ;;
                     for_each (key_order (cookbooks w))
                       (update_book git_sync read_repo sort_cookbook_by_version) ;;;
                     store_cookbooks ;;; ret tt)).
  { apply keeps_get; intros w0.
    apply keeps_bind; [exact trust_kept_trans| |intros _].
    - apply keeps_for_each; [exact trust_kept_refl|exact trust_kept_trans|].
      apply keeps_trust_update_book.
    - apply keeps_bind; [exact trust_kept_trans|apply keeps_trust_store|intros _].
      apply keeps_ret, trust_kept_refl. }
  eapply always_weaken; [apply (Hrest w2)|]. intros w' Hw'. split.
  - intros X v H. apply Hw', Hkept. exact H.
  - intros X HX Hnone. apply Hw', Hnew; assumption.
Qed.

(** The keys are visited: every cookbook of the map is in the order. *)
Hypothesis keys_are_visited :
  forall m X, is_Some (m !! X) -> In X (key_order m).

Lemma update_book_keeps_no_url (X book : string) (w w' : world) (a : unit) :
  cookbooks w !! X ≫= (.!! "url") = None ->
  update_book git_sync read_repo sort_cookbook_by_version book w = Ok a w' ->
  cookbooks w' !! X ≫= (.!! "url") = None.
Proof.
  intros Hno. unfold update_book, bind at 1.
  destruct (cookbook_getitem book "url" w) as [url w1| |] eqn:Hget; [|discriminate..].
  assert (w1 = w) as ->.
  { unfold cookbook_getitem in Hget. destruct (cookbooks w !! book) as [f|];
      [destruct (f !! "url")|]; congruence. }
  unfold bind at 1.
  assert (Hgit : forall m : M unit,
             m = git_sync url book \/ m = ret tt ->
             match m w with
             | Ok _ w2 => cookbooks w2 = cookbooks w
             | _ => True
             end).
  { intros m [->| ->]; [|reflexivity].
    pose proof (git_keeps_the_map url book w) as H.
    destruct (git_sync url book w); simpl in *; auto. }
  match goal with
  | |- context [match ?m w with _ => _ end] =>
      specialize (Hgit m); destruct (m w) as [[] w2| |]; [|discriminate..]
  end.
  assert (Hc : cookbooks w2 = cookbooks w).
  { apply Hgit. destruct url as [b|[|c s]|i]; auto. }
  clear Hgit. unfold bind at 1, get. unfold bind at 1.
  unfold __read_cookbook, bind, get, put, ret.
  rewrite !cookbook_setitem_set_field. simpl. intros [= _ <-]. simpl.
  rewrite !field_after_setitem by discriminate. rewrite Hc. exact Hno.
Qed.

Lemma update_stops_on_a_cookbook_without_url (X : string) (w : world) :
  is_Some (cookbooks w !! X) ->
  cookbooks w !! X ≫= (.!! "url") = None ->
  ~ In X (map fst shelf) ->
  returned (update_cookbooks shelf key_order git_sync read_repo
              sort_cookbook_by_version w) = None.
Proof.
  intros HX Hno Hshelf.
  unfold update_cookbooks, bind at 1, make_bookshelf. unfold bind at 1.
  match goal with
  | |- context [for_each shelf register_book ?w0] =>
      destruct (register_all shelf w0) as (w2 & Hreg & _ & _ & Hout & _)
  end.
  rewrite Hreg. specialize (Hout X Hshelf). simpl in Hout.
  unfold bind at 1, get. unfold bind at 1.
  assert (Hloop : forall xs w0,
             In X xs -> cookbooks w0 !! X ≫= (.!! "url") = None ->
             returned (for_each xs (update_book git_sync read_repo
                                      sort_cookbook_by_version) w0) = None).
  { induction xs as [|y ys IH]; intros w0 Hin Hw0; [contradiction|].
    cbn [for_each]. unfold bind.
    destruct (string_dec y X) as [->|Hne].
    - assert (Hx : returned (update_book git_sync read_repo sort_cookbook_by_version
                               X w0) = None).
      { unfold update_book, bind at 1, cookbook_getitem.
        destruct (cookbooks w0 !! X) as [f|]; [|reflexivity].
        simpl in Hw0. rewrite Hw0. reflexivity. }
      destruct (update_book _ _ _ X w0); [discriminate|reflexivity..].
    - destruct (update_book _ _ _ y w0) as [a w3| |] eqn:Hy; [|reflexivity..].
      apply IH; [destruct Hin; congruence|].
      eapply update_book_keeps_no_url; eassumption. }
  assert (Hl : returned (for_each (key_order (cookbooks w2))
                           (update_book git_sync read_repo sort_cookbook_by_version) w2)
               = None).
  { apply Hloop; [apply keys_are_visited|]; rewrite Hout; assumption. }
  destruct (for_each (key_order (cookbooks w2))
              (update_book git_sync read_repo sort_cookbook_by_version) w2);
    [discriminate|reflexivity..].
Qed.

End UpdateProperties.

(** ** The toolchain that the validation returns *)

Lemma toolchain_get_set_eq (name : string) (t : tool_instance) (tc : toolchain) :
  toolchain_get name (toolchain_set name t tc) = Some t.
Proof.
  induction tc as [|[n t'] tc IH]; simpl.
  - rewrite String.eqb_refl. reflexivity.
  - destruct (String.eqb n name) eqn:Hn; simpl; rewrite Hn; [reflexivity|exact IH].
Qed.

Lemma toolchain_get_set_ne (name name' : string) (t : tool_instance) (tc : toolchain) :
  name <> name' ->
  toolchain_get name (toolchain_set name' t tc) = toolchain_get name tc.
Proof.
  intros Hne. induction tc as [|[n t'] tc IH]; simpl.
  - destruct (String.eqb_spec name' name); [congruence|reflexivity].
  - destruct (String.eqb_spec n name'); simpl.
    + subst n. destruct (String.eqb_spec name' name); [congruence|reflexivity].
    + destruct (String.eqb n name); [reflexivity|exact IH].
Qed.

Lemma toolchain_set_keeps_entries (name name' : string) (t : tool_instance)
    (tc : toolchain) :
  is_Some (toolchain_get name tc) -> is_Some (toolchain_get name (toolchain_set name' t tc)).
Proof.
  intros H. destruct (string_dec name name') as [->|Hne].
  - rewrite toolchain_get_set_eq. eexists. reflexivity.
  - rewrite toolchain_get_set_ne by exact Hne. exact H.
Qed.

Lemma toolchain_detected_set (w : world) (name version cookbook : string)
    (tc : toolchain) :
  toolchain_detected w tc ->
  detected w (name, version, cookbook) ->
  toolchain_detected w (toolchain_set name (name, version, cookbook) tc).
Proof.
  intros Htc Ht n t. destruct (string_dec n name) as [->|Hne].
  - rewrite toolchain_get_set_eq. intros [= <-]. split; [reflexivity|exact Ht].
  - rewrite toolchain_get_set_ne by exact Hne. apply Htc.
Qed.

Lemma detected_ext (w w' : world) (t : tool_instance) :
  tools w' = tools w -> detected w t -> detected w' t.
Proof. intros Ht. destruct t as [[n v] c]. unfold detected. rewrite Ht. auto. Qed.

Lemma toolchain_detected_ext (w w' : world) (tc : toolchain) :
  tools w' = tools w -> toolchain_detected w tc -> toolchain_detected w' tc.
Proof.
  intros Ht Htc n t H. destruct (Htc n t H) as [Hn Hd].
  split; [exact Hn|]. eapply detected_ext; eassumption.
Qed.

(** One alternative tried: the state is as it was, or the alternative was
    detected and is now the instance of the tool. *)
Lemma try_alternative_spec (name : string) (st : bool * toolchain) (alt : entry)
    (w : world) :
  match try_alternative name st alt w with
  | Ok st' w' =>
      tools w' = tools w
      /\ (st' = st
          \/ (fst st' = true
              /\ exists v c, detected w (name, v, c)
                             /\ snd st' = toolchain_set name (name, v, c) (snd st)))
  | _ => True
  end.
Proof.
  unfold try_alternative, alternative_class, bind, get, first_cookbook, run_detect,
    select_tool, log, ret, raise.
  destruct (default ∅ (tools w !! name) !! version alt) as [bc|] eqn:Hv; [|exact I].
  destruct (cookbooks_of alt) as [|c cs]; [exact I|].
  destruct (bc !! c) as [cl|] eqn:Hc; [|exact I].
  destruct (detect cl) eqn:Hd; simpl.
  - destruct (Index.get_item_version _ _) as [e|[n i]]; [exact I|]. simpl.
    split; [reflexivity|]. right. split; [reflexivity|].
    exists (version alt), c. split; [|reflexivity].
    exists cl. rewrite Hv. simpl. rewrite Hc. split; [reflexivity|exact Hd].
  - split; [reflexivity|]. left. reflexivity.
Qed.

Lemma alternatives_spec (name : string) (alts : list entry) :
  forall (st st' : bool * toolchain) (w w' : world),
    fold_m (try_alternative name) alts st w = Ok st' w' ->
    tools w' = tools w
    /\ (toolchain_detected w (snd st) -> toolchain_detected w (snd st'))
    /\ (forall n, is_Some (toolchain_get n (snd st)) ->
                  is_Some (toolchain_get n (snd st')))
    /\ (fst st' = true -> fst st = true \/ is_Some (toolchain_get name (snd st'))).
Proof.
  induction alts as [|alt alts IH]; intros st st' w w' Hrun.
  - injection Hrun as <- <-. split; [reflexivity|]. split; [auto|]. split; auto.
  - cbn [fold_m] in Hrun. unfold bind at 1 in Hrun.
    pose proof (try_alternative_spec name st alt w) as Hstep.
    destruct (try_alternative name st alt w) as [st1 w1| |]; [|discriminate..].
    destruct Hstep as [Ht1 Hst1].
    destruct (IH _ _ _ _ Hrun) as (Ht & Hd & Hk & Hf).
    split; [congruence|].
    destruct Hst1 as [->|(Hf1 & v & c & Hdet & Hset)].
    + split; [|split; [exact Hk|exact Hf]].
      intros H. apply (toolchain_detected_ext w1 w), Hd, (toolchain_detected_ext w w1);
        auto.
    + split; [|split].
      * intros H. apply (toolchain_detected_ext w1 w); [auto|]. apply Hd.
        apply (toolchain_detected_ext w w1); [exact Ht1|].
        rewrite Hset. apply toolchain_detected_set; assumption.
      * intros n Hn. apply Hk. rewrite Hset. apply toolchain_set_keeps_entries, Hn.
      * intros _. right. apply Hk. rewrite Hset, toolchain_get_set_eq.
        eexists. reflexivity.
Qed.

Lemma tool_get_ok (name version cookbook : string) (w w' : world) (class : tool_class) :
  tool_get name version cookbook w = Ok class w' ->
  w' = w /\ default ∅ (tools w !! name) !! version ≫= (.!! cookbook) = Some class.
Proof.
  unfold tool_get, bind, get, catalog_get, ret, raise.
  destruct (default ∅ (tools w !! name) !! version) as [bc|]; [|discriminate].
  simpl. destruct (bc !! cookbook); [|discriminate].
  intros [= <- <-]. split; reflexivity.
Qed.

(** One preferred tool probed, lines 518-569: an instance of the tool is in
    the toolchain, or the list of the missing tools is not empty. *)
Lemma probe_tool_spec (st : toolchain * list string) (name version cookbook : string)
    (w : world) :
  match probe_tool st (name, version, cookbook) w with
  | Ok st' w' =>
      tools w' = tools w
      /\ (toolchain_detected w (fst st) -> toolchain_detected w (fst st'))
      /\ (forall n, is_Some (toolchain_get n (fst st)) ->
                    is_Some (toolchain_get n (fst st')))
      /\ (snd st <> [] -> snd st' <> [])
      /\ (is_Some (toolchain_get name (fst st')) \/ snd st' <> [])
  | _ => True
  end.
Proof.
  unfold probe_tool, bind at 1.
  destruct (tool_get name version cookbook w) as [cl w1| |] eqn:Htool; [|exact I..].
  apply tool_get_ok in Htool. destruct Htool as [-> Hcl].
  unfold bind at 1, run_detect. destruct (detect cl) eqn:Hd.
  - unfold bind, log, ret. simpl. split; [reflexivity|]. split; [|split; [|split]].
    + intros H. apply toolchain_detected_set; [exact H|].
      exists cl. split; assumption.
    + intros n Hn. apply toolchain_set_keeps_entries, Hn.
    + auto.
    + left. rewrite toolchain_get_set_eq. eexists. reflexivity.
  - unfold bind at 1, log at 1. unfold bind at 1, get.
    set (w2 := with_logger _ _).
    assert (Ht2 : tools w2 = tools w) by reflexivity.
    unfold bind at 1.
    match goal with
    | |- context [match ?m w2 with _ => _ end] => destruct (m w2) as [r w3| |] eqn:Hr
    end; [|exact I..].
    assert (Hq : tools w3 = tools w2
                 /\ (toolchain_detected w2 (fst st) -> toolchain_detected w2 (snd r))
                 /\ (forall n, is_Some (toolchain_get n (fst st)) ->
                               is_Some (toolchain_get n (snd r)))
                 /\ (fst r = true -> is_Some (toolchain_get name (snd r)))).
    { destruct (Index.lookup name (sorted_tools w2)) as [|e0 [|e1 es]].
      - injection Hr as <- <-. split; [reflexivity|]. split; [auto|].
        split; [auto|discriminate].
      - injection Hr as <- <-. split; [reflexivity|]. split; [auto|].
        split; [auto|discriminate].
      - unfold bind, log in Hr. apply alternatives_spec in Hr.
        destruct Hr as (Ht & Hdet & Hk & Hf). simpl in *.
        split; [exact Ht|]. split; [exact Hdet|]. split; [exact Hk|].
        intros H. destruct (Hf H) as [?|?]; [discriminate|assumption]. }
    destruct Hq as (Ht3 & Hdet & Hk & Hf).
    assert (Hdet' : toolchain_detected w (fst st) -> toolchain_detected w (snd r)).
    { intros H. apply (toolchain_detected_ext w2 w); [auto|].
      apply Hdet, (toolchain_detected_ext w w2); auto. }
    destruct (fst r) eqn:Hfr; unfold ret; simpl.
    + split; [congruence|]. split; [exact Hdet'|]. split; [exact Hk|].
      split; [auto|]. left. apply Hf. reflexivity.
    + split; [congruence|]. split; [exact Hdet'|]. split; [exact Hk|].
      split; [|right]; intros ?; destruct (snd st); discriminate.
Qed.

Lemma probe_all_spec (ps : list tool_instance) :
  forall (st st' : toolchain * list string) (w w' : world),
    fold_m probe_tool ps st w = Ok st' w' ->
    tools w' = tools w
    /\ (toolchain_detected w (fst st) -> toolchain_detected w (fst st'))
    /\ (forall n, is_Some (toolchain_get n (fst st)) ->
                  is_Some (toolchain_get n (fst st')))
    /\ (snd st <> [] -> snd st' <> [])
    /\ (snd st' = [] ->
        forall p, In p ps -> is_Some (toolchain_get (fst (fst p)) (fst st'))).
Proof.
  induction ps as [|[[pn pv] pc] ps IH]; intros st st' w w' Hrun.
  - injection Hrun as <- <-. split; [reflexivity|]. split; [auto|]. split; [auto|].
    split; [auto|]. intros _ p [].
  - cbn [fold_m] in Hrun. unfold bind at 1 in Hrun.
    pose proof (probe_tool_spec st pn pv pc w) as Hstep.
    destruct (probe_tool st (pn, pv, pc) w) as [st1 w1| |]; [|discriminate..].
    destruct Hstep as (Ht1 & Hd1 & Hk1 & Hm1 & Hp1).
    destruct (IH _ _ _ _ Hrun) as (Ht & Hd & Hk & Hm & Hp).
    split; [congruence|]. split; [|split; [|split]].
    + intros H. apply (toolchain_detected_ext w1 w); [auto|].
      apply Hd, (toolchain_detected_ext w w1); auto.
    + intros n Hn. apply Hk, Hk1, Hn.
    + intros H. apply Hm, Hm1, H.
    + intros Hnone p [<-|Hin]; [|apply Hp; assumption].
      simpl. destruct Hp1 as [Hsome|Hmiss]; [apply Hk, Hsome|].
      exfalso. apply (Hm Hmiss), Hnone.
Qed.

Lemma for_each_missing (ms : list string) :
  forall w,
    match for_each ms (fun tool_version =>
                         if Nat.ltb (String.length tool_version) 2 then raise IndexError
                         else log (LogMissingTool tool_version)) w with
    | Ok _ w' =>
        forallb (fun v => negb (Nat.ltb (String.length v) 2)) ms = true
        /\ w' = with_logger (logger w ++ map LogMissingTool ms) w
    | Raise e _ =>
        forallb (fun v => negb (Nat.ltb (String.length v) 2)) ms = false
        /\ e = IndexError
    | Diverge => False
    end.
Proof.
  induction ms as [|m ms IH]; intros w; simpl.
  - split; [reflexivity|]. rewrite app_nil_r. destruct w; reflexivity.
  - unfold bind. destruct (Nat.ltb (String.length m) 2); simpl; [split; reflexivity|].
    specialize (IH (with_logger (logger w ++ [LogMissingTool m]) w)).
    destruct (for_each ms _ _) as [[] w'|e w'|]; [| exact IH..].
    destruct IH as [Hall ->]. split; [exact Hall|]. simpl.
    rewrite <- app_assoc. reflexivity.
Qed.

(** X15.  The report of the missing tools, lines 571-580, with a tool
    missing: it does not return.  It ends the process with [sys.exit(1)]
    when every missing version string has two characters or more, and with
    the [IndexError] of [tool_version[1]] when one of them is shorter: the
    message subscripts the version string, not a name and version pair. *)
Theorem missing_tools_stop_the_build (t : string) (ts : list string) (w : world) :
  raised (report_missing (t :: ts) w)
  = Some (if forallb (fun v => negb (Nat.ltb (String.length v) 2)) (t :: ts)
          then SystemExit 1 else IndexError).
Proof.
  unfold report_missing, bind at 1, log at 1. unfold bind at 1.
  match goal with
  | |- context [for_each (t :: ts) ?body ?w0] =>
      pose proof (for_each_missing (t :: ts) w0) as H;
      destruct (for_each (t :: ts) body w0) as [[] w'|e w'|]
  end; [| |contradiction].
  - destruct H as [-> _]. reflexivity.
  - destruct H as [-> ->]. reflexivity.
Qed.

Lemma report_missing_ok (ms : list string) (w w' : world) (a : unit) :
  report_missing ms w = Ok a w' -> ms = [].
Proof.
  destruct ms as [|t ts]; [reflexivity|].
  unfold report_missing, bind at 1, log at 1. unfold bind at 1.
  match goal with
  | |- context [for_each (t :: ts) ?body ?w0] => destruct (for_each (t :: ts) body w0)
  end; discriminate.
Qed.

Lemma validated_toolchain (batches : list (list string)) (w w' : world)
    (tc : toolchain) :
  validate_toolchain batches w = Ok tc w' ->
  toolchain_detected w' tc
  /\ forall preferred w1,
       collect_preferred batches w = Ok preferred w1 ->
       forall t, In t preferred -> is_Some (toolchain_get (fst (fst t)) tc).
Proof.
  unfold validate_toolchain, bind at 1.
  destruct (collect_preferred batches w) as [preferred w1| |] eqn:Hpref; [|discriminate..].
  unfold bind at 1.
  destruct (fold_m probe_tool preferred ([], []) w1) as [r w2| |] eqn:Hfold;
    [|discriminate..].
  apply probe_all_spec in Hfold. destruct Hfold as (Ht & Hd & _ & _ & Hp).
  unfold bind at 1.
  destruct (report_missing (snd r) w2) as [[] w3| |] eqn:Hrep; [|discriminate..].
  assert (Hnone : snd r = []) by (eapply report_missing_ok; eassumption).
  assert (Hw3 : w3 = w2).
  { rewrite Hnone in Hrep. injection Hrep as <-. reflexivity. }
  subst w3. unfold bind, log, ret. intros [= <- <-]. split.
  - apply (toolchain_detected_ext w1); [exact Ht|]. apply Hd.
    intros n t; discriminate.
  - intros preferred' w1' [= <- <-]. apply Hp, Hnone.
Qed.

(** X16.  The toolchain that the validation of lines 496-584 returns, when
    it returns: every instance in it is filed under its own name, is a class
    of the tool catalog, and answered [True] to [detect()]; and every tool
    that a recipe of the plan requires has an instance in it.  A build does
    not go on with a required tool of which no version was detected. *)
Theorem validated_toolchain_is_detected (batches : list (list string)) (w w' : world)
    (tc : toolchain) :
  validate_toolchain batches w = Ok tc w' ->
  toolchain_detected w' tc
  /\ forall preferred w1,
       collect_preferred batches w = Ok preferred w1 ->
       forall t, In t preferred -> is_Some (toolchain_get (fst (fst t)) tc).
Proof. apply validated_toolchain. Qed.

Lemma validated_toolchain_of_zlib :
  exists tc w',
    validate_toolchain [["zlib"]] (Scenario.acme true) = Ok tc w'
    /\ toolchain_detected w' tc
    /\ forall preferred w1,
         collect_preferred [["zlib"]] (Scenario.acme true) = Ok preferred w1 ->
         forall t, In t preferred -> is_Some (toolchain_get (fst (fst t)) tc).
Proof.
  eexists. eexists. split; [vm_compute; reflexivity|].
  eapply (validated_toolchain_is_detected [["zlib"]] (Scenario.acme true)).
  vm_compute; reflexivity.
Defined.

(** ** The update of the cookbooks, as a whole *)

(** X17.  [update_cookbooks] never changes a trust flag that is set, and
    gives a public cookbook that has none the flag [False]: whatever the
    public table, the order of the keys, the directories read and the
    outcome of the method (also when [git] or a missing key raises), every
    cookbook that had a ["trusted"] key has it with the same value, and
    every cookbook of the public table that had none has ["trusted"] set to
    [False].  No update grants trust.  ([git] is taken to work on the
    directories, not on the cookbook map.) *)
Theorem update_grants_no_trust
    (shelf : list (string * string))
    (key_order : gmap string (gmap string jval) -> list string)
    (git_sync : jval -> string -> M unit)
    (read_repo : string -> world -> cookbook_dir)
    (sort_cookbook_by_version : forall C, gmap string (gmap string C) -> index)
    (w : world) :
  (forall url book, keeps same_cookbooks (git_sync url book)) ->
  always (fun w' =>
            trust_kept w w'
            /\ forall X, In X (map fst shelf) -> trusted_flag w X = None ->
                 trusted_flag w' X = Some (JBool false))
         (update_cookbooks shelf key_order git_sync read_repo sort_cookbook_by_version w).
Proof. intros Hgit. apply update_keeps_trust_flags, Hgit. Qed.

Lemma update_grants_no_trust_acme :
  (forall url book, keeps same_cookbooks (Updates.git_sync url book))
  /\ always (fun w' =>
               trust_kept (Scenario.acme false) w'
               /\ forall X, In X (map fst Updates.shelf) ->
                    trusted_flag (Scenario.acme false) X = None ->
                    trusted_flag w' X = Some (JBool false))
            (update_cookbooks Updates.shelf Updates.key_order Updates.git_sync
               Updates.read_repo Scenario.no_index (Scenario.acme false)).
Proof.
  split; [intros url book w; exact eq_refl|].
  apply (update_grants_no_trust Updates.shelf Updates.key_order Updates.git_sync
           Updates.read_repo Scenario.no_index (Scenario.acme false)).
  intros url book w. exact eq_refl.
Defined.

(** X18.  [update_cookbooks] on a cookbook map with a cookbook that has no
    ["url"] key and is not in the public table: it does not return, since
    line 780 reads [self.cookbooks[book]["url"]] for every cookbook of the
    map.  Such an entry is what [config_trust_cookbook] leaves for an
    unknown name, and what the loader leaves for a directory of the
    bookshelf that [cookbooks.json] does not list.  ([git] is taken to work
    on the directories, and the loop to visit every key.) *)
Theorem update_needs_every_url
    (shelf : list (string * string))
    (key_order : gmap string (gmap string jval) -> list string)
    (git_sync : jval -> string -> M unit)
    (read_repo : string -> world -> cookbook_dir)
    (sort_cookbook_by_version : forall C, gmap string (gmap string C) -> index)
    (X : string) (w : world) :
  (forall url book, keeps same_cookbooks (git_sync url book)) ->
  (forall m Y, is_Some (m !! Y) -> In Y (key_order m)) ->
  is_Some (cookbooks w !! X) ->
  cookbooks w !! X ≫= (.!! "url") = None ->
  ~ In X (map fst shelf) ->
  returned (update_cookbooks shelf key_order git_sync read_repo
              sort_cookbook_by_version w) = None.
Proof.
  intros Hgit Hkeys. apply update_stops_on_a_cookbook_without_url; assumption.
Qed.

Lemma update_needs_every_url_typo :
  raised (update_cookbooks Updates.shelf Updates.key_order Updates.git_sync
            Updates.read_repo Scenario.no_index Updates.typo_trusted)
  = Some (KeyError (KStr "url"))
  /\ returned (update_cookbooks Updates.shelf Updates.key_order Updates.git_sync
                 Updates.read_repo Scenario.no_index Updates.typo_trusted) = None.
Proof.
  split; [vm_compute; reflexivity|].
  apply (update_needs_every_url Updates.shelf Updates.key_order Updates.git_sync
           Updates.read_repo Scenario.no_index "typo" Updates.typo_trusted).
  - intros url book w. exact eq_refl.
  - intros m Y [f Hf]. unfold Updates.key_order. apply in_map_iff.
    exists (Y, f). split; [reflexivity|].
    apply list_elem_of_In, elem_of_map_to_list, Hf.
  - vm_compute. eexists. reflexivity.
  - vm_compute. reflexivity.
  - vm_compute. intros [H|[]]. discriminate.
Defined.

(** ** One recipe that cannot be built blocks every resolution *)

Lemma lookup_store_ne (n n' : string) (es : list entry) (i : index) :
  n <> n' -> Index.lookup n (Index.store n' es i) = Index.lookup n i.
Proof.
  intros Hne. induction i as [|[m es'] i IH]; simpl.
  - destruct (String.eqb_spec n' n); [congruence|reflexivity].
  - destruct (String.eqb_spec m n'); simpl.
    + subst m. destruct (String.eqb_spec n' n); [congruence|reflexivity].
    + destruct (String.eqb m n); [reflexivity|exact IH].
Qed.

Lemma In_store_ne (n n' : string) (es es' : list entry) (i : index) :
  n <> n' -> In (n, es) i -> In (n, es) (Index.store n' es' i).
Proof.
  intros Hne. induction i as [|[m es0] i IH]; simpl; [intros []|].
  intros [[= -> ->]|Hin].
  - destruct (String.eqb_spec n n'); [congruence|left; reflexivity].
  - destruct (String.eqb m n'); [right; exact Hin|right; apply IH, Hin].
Qed.

Lemma get_item_version_keeps_empty (reference x : string) (i i' : index) (n : nvc) :
  Index.get_item_version reference i = inr (n, i') ->
  Index.lookup x i = [] -> Index.lookup x i' = [].
Proof.
  unfold Index.get_item_version. intros Hsel Hx.
  destruct (string_dec x (Ref.name (Ref.parse reference))) as [->|Hne].
  - rewrite Hx in Hsel. discriminate.
  - destruct (List.filter _ _) as [|e es]; [discriminate|].
    destruct (if String.eqb _ _ then _ else _) as [c|]; [|discriminate].
    injection Hsel as _ <-. rewrite lookup_store_ne by exact Hne. exact Hx.
Qed.

Lemma get_item_version_fails (reference : string) (i : index) :
  Index.lookup (ref_name reference) i = [] ->
  exists e, Index.get_item_version reference i = inl e.
Proof.
  unfold ref_name, Index.get_item_version. intros ->. eexists. reflexivity.
Qed.

(** A loop whose body keeps [J] when it returns, and cannot return on one
    element under [J]. *)
Lemma for_each_ok_inv {A} (J : world -> Prop) (body : A -> M unit) (xs : list A) :
  (forall y w w', J w -> body y w = Ok tt w' -> J w') ->
  forall w w', J w -> for_each xs body w = Ok tt w' -> J w'.
Proof.
  intros Hbody. induction xs as [|y ys IH]; intros w w' Hw; simpl.
  - intros [= <-]. exact Hw.
  - unfold bind. destruct (body y w) as [[] w1| |] eqn:Hy; [|discriminate..].
    apply IH. eapply Hbody; eassumption.
Qed.

Lemma for_each_stops_inv {A} (J : world -> Prop) (body : A -> M unit) (xs : list A)
    (x : A) :
  In x xs ->
  (forall w, J w -> returned (body x w) = None) ->
  (forall y w w', J w -> body y w = Ok tt w' -> J w') ->
  forall w, J w -> returned (for_each xs body w) = None.
Proof.
  intros Hin Hx Hbody. induction xs as [|y ys IH]; intros w Hw; [contradiction|].
  simpl. unfold bind. destruct Hin as [->|Hin].
  - specialize (Hx w Hw). destruct (body x w); [discriminate|reflexivity..].
  - destruct (body y w) as [[] w1| |] eqn:Hy; [|reflexivity..].
    apply IH; [exact Hin|]. eapply Hbody; eassumption.
Qed.

Lemma recipe_get_found (name version cookbook : string) (w : world)
    (class : recipe_class) :
  default ∅ (recipes w !! name) !! version ≫= (.!! cookbook) = Some class ->
  recipe_get name version cookbook w = Ok class w.
Proof.
  unfold recipe_get, bind, get, catalog_get, ret, raise.
  destruct (default ∅ (recipes w !! name) !! version) as [bc|]; [|discriminate].
  simpl. intros ->. reflexivity.
Qed.

Section Blocked.

Variable x : string.
Variable cat : gmap string (gmap string (gmap string recipe_class)).

Lemma tool_step_keeps (tool : string) (w w' : world) :
  (no_tool_entry x cat) w -> tool_step tool w = Ok tt w' -> (no_tool_entry x cat) w'.
Proof.
  intros [Hx Hc]. unfold tool_step, reraise_as, bind, select_tool, ret.
  destruct (Index.get_item_version tool (sorted_tools w)) as [e|[n i]] eqn:Hsel;
    [discriminate|].
  intros [= <-]. split; [|exact Hc]. simpl.
  eapply get_item_version_keeps_empty; eassumption.
Qed.

Lemma tool_step_stops (tool : string) (w : world) :
  ref_name tool = x -> (no_tool_entry x cat) w -> returned (tool_step tool w) = None.
Proof.
  intros <- [Hx _]. unfold tool_step, reraise_as, bind, select_tool.
  destruct (get_item_version_fails tool (sorted_tools w) Hx) as [e ->]. reflexivity.
Qed.

Lemma cookbook_step_keeps (name version cookbook : string) (w w' : world) :
  (no_tool_entry x cat) w -> cookbook_step name version cookbook w = Ok tt w' -> (no_tool_entry x cat) w'.
Proof.
  intros Hw. unfold cookbook_step, bind at 1.
  destruct (recipe_get name version cookbook w) as [class w1| |] eqn:Hget;
    [|discriminate..].
  apply recipe_get_ok in Hget. destruct Hget as [-> _].
  apply for_each_ok_inv; [|exact Hw]. intros y. apply tool_step_keeps.
Qed.

Lemma check_required_tools_unfold (w : world) :
  check_required_tools w
  = for_each (sorted_recipes w) (fun '(name, versions) =>
      for_each versions (fun each_ver =>
        for_each (cookbooks_of each_ver) (cookbook_step name (version each_ver)))) w.
Proof. reflexivity. Qed.

Lemma check_required_tools_blocked (w : world) (name : string) (versions : list entry)
    (each_ver : entry) (cookbook tool : string) (class : recipe_class) :
  recipes w = cat ->
  Index.lookup x (sorted_tools w) = [] ->
  In (name, versions) (sorted_recipes w) ->
  In each_ver versions ->
  In cookbook (cookbooks_of each_ver) ->
  default ∅ (cat !! name) !! version each_ver ≫= (.!! cookbook) = Some class ->
  In tool (required_tools class) ->
  ref_name tool = x ->
  returned (check_required_tools w) = None.
Proof.
  intros Hcat Hx Hname Hver Hcook Hclass Htool Href.
  rewrite check_required_tools_unfold.
  apply (for_each_stops_inv (no_tool_entry x cat) _ _ (name, versions) Hname); [| |split; assumption].
  - intros w1 Hw1.
    apply (for_each_stops_inv (no_tool_entry x cat) _ _ each_ver Hver); [| |exact Hw1].
    + intros w2 Hw2.
      apply (for_each_stops_inv (no_tool_entry x cat) _ _ cookbook Hcook); [| |exact Hw2].
      * intros w3 Hw3. unfold cookbook_step, bind at 1.
        rewrite (recipe_get_found name (version each_ver) cookbook w3 class)
          by (destruct Hw3 as [_ ->]; exact Hclass).
        apply (for_each_stops_inv (no_tool_entry x cat) _ _ tool Htool); [| |exact Hw3].
        -- intros w4. apply tool_step_stops, Href.
        -- intros y. apply tool_step_keeps.
      * intros y. apply cookbook_step_keeps.
    + intros ev w2 w2' Hw2. apply for_each_ok_inv; [|exact Hw2].
      intros y. apply cookbook_step_keeps.
  - intros [n vs] w1 w1' Hw1. apply for_each_ok_inv; [|exact Hw1].
    intros ev w2 w2' Hw2. apply for_each_ok_inv; [|exact Hw2].
    intros y. apply cookbook_step_keeps.
Qed.

End Blocked.

Lemma select_recipe_keeps_others (recipe : string) (w w1 : world) (n : nvc) :
  select_recipe recipe w = Ok n w1 ->
  sorted_tools w1 = sorted_tools w /\ recipes w1 = recipes w
  /\ forall name es, name <> ref_name recipe ->
       In (name, es) (sorted_recipes w) -> In (name, es) (sorted_recipes w1).
Proof.
  unfold select_recipe.
  destruct (Index.get_item_version recipe (sorted_recipes w)) as [e|[n' i]] eqn:Hsel;
    [discriminate|].
  intros [= <- <-]. split; [reflexivity|]. split; [reflexivity|].
  intros name es Hne Hin. simpl.
  unfold Index.get_item_version in Hsel.
  destruct (List.filter _ _) as [|e es0]; [discriminate|].
  destruct (if String.eqb _ _ then _ else _) as [c|]; [|discriminate].
  injection Hsel as _ <-. apply In_store_ne; assumption.
Qed.

(** X19.  [__get_recipe_version] checks the required tools of every recipe
    of the index, not of the recipe it selects (lines 348-361): when some
    other recipe of the index, in some version and cookbook, requires a tool
    for which the tool index has no entry, the method does not return, for
    any reference.  One recipe that cannot be built keeps every recipe of
    the catalog from being resolved. *)
Theorem unbuildable_recipe_blocks_resolution (w : world) (recipe name : string)
    (versions : list entry) (each_ver : entry) (cookbook tool : string)
    (class : recipe_class) :
  In (name, versions) (sorted_recipes w) ->
  In each_ver versions ->
  In cookbook (cookbooks_of each_ver) ->
  default ∅ (recipes w !! name) !! version each_ver ≫= (.!! cookbook) = Some class ->
  In tool (required_tools class) ->
  Index.lookup (ref_name tool) (sorted_tools w) = [] ->
  name <> ref_name recipe ->
  returned (__get_recipe_version recipe w) = None.
Proof.
  intros Hname Hver Hcook Hclass Htool Hx Hne.
  unfold __get_recipe_version, bind at 1.
  destruct (select_recipe recipe w) as [n w1| |] eqn:Hsel; [|reflexivity..].
  apply select_recipe_keeps_others in Hsel. destruct Hsel as (Ht & Hr & Hin).
  assert (Hstop : returned (check_required_tools w1) = None).
  { apply (check_required_tools_blocked (ref_name tool) (recipes w) w1 name versions
             each_ver cookbook tool class); auto.
    rewrite Ht. exact Hx. }
  unfold bind. destruct (check_required_tools w1); [discriminate|reflexivity..].
Qed.

Lemma unbuildable_recipe_blocks_zlib :
  returned (__get_recipe_version "acme:zlib" (Scenario.acme true))
  = Some {| nvc_name := "zlib"; nvc_version := "1.2.11"; nvc_cookbook := "acme" |}
  /\ raised (__get_recipe_version "acme:zlib" Catalogs.blocked)
     = Some (NoToolVersion "ninja")
  /\ returned (__get_recipe_version "acme:zlib" Catalogs.blocked) = None.
Proof.
  split; [vm_compute; reflexivity|]. split; [vm_compute; reflexivity|].
  apply (unbuildable_recipe_blocks_resolution Catalogs.blocked "acme:zlib" "broken"
           [Scenario.E "0.1" ["acme"]] (Scenario.E "0.1" ["acme"]) "acme" "ninja"
           (Scenario.R [] ["ninja"])).
  - vm_compute. right. right. right. left. reflexivity.
  - left. reflexivity.
  - left. reflexivity.
  - vm_compute. reflexivity.
  - left. reflexivity.
  - vm_compute. reflexivity.
  - vm_compute. discriminate.
Defined.
